(** * Gateway client of the sequential toggle runner: model and properties

    Shallow embedding of [OpenClawClient] (sequential toggle runner) with
    its device-identity helpers.  The class is callback driven: a
    WebSocket delivers frames, timers fire, promise reactions run.  The
    model is a single-threaded event loop over an explicit client state;
    closures stored in the two handler registries, in timers and behind
    [await] are represented by first-order descriptions of what they
    captured. *)

From Stdlib.Strings Require Import Ascii Byte.
From stdpp Require Import gmap strings list fin_maps pretty.

Set Warnings "-register-all".
Open Scope Z_scope.

(** ** JavaScript conventions used by the source *)

(** Truthiness of a string: only the empty string is falsy. *)
Definition truthy (s : string) : bool := negb (String.eqb s "").

(** [x || y] on an optional string. *)
Definition or_string (x : option string) (y : string) : string :=
  match x with
  | Some s => if truthy s then s else y
  | None => y
  end.

(** [x || 0] on an optional number. *)
Definition or_zero (x : option Z) : Z :=
  match x with
  | Some n => if n =? 0 then 0 else n
  | None => 0
  end.

(** [x === 'lit'] where [x] may be undefined. *)
Definition is_str (x : option string) (lit : string) : bool :=
  match x with
  | Some s => String.eqb s lit
  | None => false
  end.

(** ** Wire and API types (the fields the client reads) *)

Record ErrorObj := { err_message : string; err_code : option string }.

Record AgentLifecycleEvent := {
  phase : string;
  lc_runId : option string;
  lc_error : option string;
}.

Record SessionMetadata := {
  sessionKey : string;
  totalTokens : option Z;
  inputTokens : option Z;
  outputTokens : option Z;
  cacheCreationTokens : option Z;
  cacheReadTokens : option Z;
}.

Record TokenUsage := {
  total : Z;
  input : Z;
  output : Z;
  cacheCreation : option Z;
  cacheRead : option Z;
}.

(** [ChatEvent.message] is untyped in the source; these are the shapes
    the chat handler distinguishes. *)
Record Block := { block_type : string; block_text : option string }.

Inductive Content :=
| ContentString (s : string)
| ContentBlocks (blocks : list Block)
| ContentOther.

Inductive ChatMessage :=
| MessageString (s : string)
| MessageObject (content : option Content).

(** A frame payload, as one object carrying every member the client looks
    at: [runId], [state], [message] for chat events and [chat.send]
    results, [stream] and [data] for agent events, [sessions] for
    [sessions.list] results.  A member that is absent is [None] (or the
    empty string for [state]). *)
Record Payload := {
  p_runId : option string;
  p_state : string;
  p_message : option ChatMessage;
  p_stream : option string;
  p_data : option AgentLifecycleEvent;
  p_sessions : option (list SessionMetadata);
}.

(** Inbound frame after [JSON.parse]. *)
Record Frame := {
  f_type : string;
  f_id : string;
  f_ok : bool;
  f_payload : option Payload;
  f_error : option ErrorObj;
  f_event : string;
}.

Record ResponseFrame := {
  ok : bool;
  id : string;
  result : option Payload;
  payload : option Payload;
  error : option ErrorObj;
  status : string;
}.

Record EventFrame := {
  event : string;
  ev_payload : option Payload;
  ev_data : option Payload;
}.

Inductive Params :=
| SessionsResetParams (key : string)
| SessionsListParams (agentId : string)
| AgentWaitParams (runId : string) (timeoutMs : Z)
| ChatSendParams (key message idempotencyKey : string).

Record RequestFrame := {
  req_id : string;
  req_method : string;
  req_params : Params;
}.

Record PromptResult := {
  response : string;
  tokens : TokenUsage;
  timeMs : Z;
}.

Record RunnerConfig := {
  cfg_sessionKey : string;
  agentWaitTimeoutMs : Z;
  gatewayToken : option string;
}.

(** ** Promises, timers and stored closures *)

Inductive Value :=
| VUnit
| VResponse (r : ResponseFrame)
| VTokens (t : TokenUsage)
| VPrompt (r : PromptResult).

(** State of a promise; a rejection carries the [Error]'s message. *)
Inductive Settled :=
| Pending
| Fulfilled (v : Value)
| Rejected (msg : string).

(** The closure [sendRequest] stores in [messageHandlers]: it captured
    the timeout handle, the method name and the promise's
    [resolve]/[reject]. *)
Record MsgHandler := {
  mh_timeout : nat;
  mh_method : string;
  mh_promise : nat;
}.

(** Closures stored in [eventHandlers]: the lifecycle listener of
    [waitForAgent] and the chat wrapper of [sendPrompt], which chains to
    the handler that was registered before it. *)
Inductive EvHandler :=
| LifecycleHandler (runId : string) (timeout : nat) (waiter : nat)
| ChatWrapper (existingHandler : option EvHandler).

Inductive TimerCallback :=
| RequestTimeout (messageId method : string) (promise : nat)
| AgentWaitTimeout (runId : string) (waiter : nat).

Record TimerEntry := { due : Z; callback : TimerCallback }.

(** What runs when an awaited promise settles: the [.then]/[.catch] pair
    of [waitForAgent] and the rest of each [async] method after an
    [await]. *)
Inductive Reaction :=
| AgentWaitSettled (runId : string) (timeout : nat) (waiter : nat)
| ResetSessionAwait (self : nat)
| GetSessionTokensAwait (self : nat)
| SendPromptAwaitStartTokens (self : nat) (prompt : string) (startTime : Z)
| SendPromptAwaitChatSend (self : nat) (startTime : Z) (startTokens : TokenUsage)
| SendPromptAwaitAgent (self : nat) (startTime : Z) (startTokens : TokenUsage)
| SendPromptAwaitEndTokens (self : nat) (startTime : Z)
    (startTokens : TokenUsage) (endTime : Z).

(** ** Client state

    The first group are the fields of [OpenClawClient]; the second group
    is the part of the JavaScript runtime the class relies on: pending
    timers, promise states, reactions waiting on a promise, the microtask
    queue, allocation counters, and the frames written to the socket. *)
Record Client := mkClient {
  config : RunnerConfig;
  ws : bool;
  connected : bool;
  messageHandlers : gmap string MsgHandler;
  eventHandlers : gmap string EvHandler;
  accumulatedResponse : string;
  timers : gmap nat TimerEntry;
  promises : gmap nat Settled;
  reactions : gmap nat Reaction;
  microtasks : list (Reaction * Settled);
  next_timer : nat;
  next_promise : nat;
  next_uuid : nat;
  outbox : list RequestFrame;
}.

Definition set_ws (b : bool) (st : Client) : Client :=
  mkClient (config st) b (connected st) (messageHandlers st)
    (eventHandlers st) (accumulatedResponse st) (timers st) (promises st)
    (reactions st) (microtasks st) (next_timer st) (next_promise st)
    (next_uuid st) (outbox st).

Definition set_connected (b : bool) (st : Client) : Client :=
  mkClient (config st) (ws st) b (messageHandlers st)
    (eventHandlers st) (accumulatedResponse st) (timers st) (promises st)
    (reactions st) (microtasks st) (next_timer st) (next_promise st)
    (next_uuid st) (outbox st).

Definition set_messageHandlers (m : gmap string MsgHandler) (st : Client) : Client :=
  mkClient (config st) (ws st) (connected st) m
    (eventHandlers st) (accumulatedResponse st) (timers st) (promises st)
    (reactions st) (microtasks st) (next_timer st) (next_promise st)
    (next_uuid st) (outbox st).

Definition set_eventHandlers (m : gmap string EvHandler) (st : Client) : Client :=
  mkClient (config st) (ws st) (connected st) (messageHandlers st)
    m (accumulatedResponse st) (timers st) (promises st)
    (reactions st) (microtasks st) (next_timer st) (next_promise st)
    (next_uuid st) (outbox st).

Definition set_accumulatedResponse (s : string) (st : Client) : Client :=
  mkClient (config st) (ws st) (connected st) (messageHandlers st)
    (eventHandlers st) s (timers st) (promises st)
    (reactions st) (microtasks st) (next_timer st) (next_promise st)
    (next_uuid st) (outbox st).

Definition set_timers (m : gmap nat TimerEntry) (st : Client) : Client :=
  mkClient (config st) (ws st) (connected st) (messageHandlers st)
    (eventHandlers st) (accumulatedResponse st) m (promises st)
    (reactions st) (microtasks st) (next_timer st) (next_promise st)
    (next_uuid st) (outbox st).

Definition set_promises (m : gmap nat Settled) (st : Client) : Client :=
  mkClient (config st) (ws st) (connected st) (messageHandlers st)
    (eventHandlers st) (accumulatedResponse st) (timers st) m
    (reactions st) (microtasks st) (next_timer st) (next_promise st)
    (next_uuid st) (outbox st).

Definition set_reactions (m : gmap nat Reaction) (st : Client) : Client :=
  mkClient (config st) (ws st) (connected st) (messageHandlers st)
    (eventHandlers st) (accumulatedResponse st) (timers st) (promises st)
    m (microtasks st) (next_timer st) (next_promise st)
    (next_uuid st) (outbox st).

Definition set_microtasks (q : list (Reaction * Settled)) (st : Client) : Client :=
  mkClient (config st) (ws st) (connected st) (messageHandlers st)
    (eventHandlers st) (accumulatedResponse st) (timers st) (promises st)
    (reactions st) q (next_timer st) (next_promise st)
    (next_uuid st) (outbox st).

Definition set_next_timer (n : nat) (st : Client) : Client :=
  mkClient (config st) (ws st) (connected st) (messageHandlers st)
    (eventHandlers st) (accumulatedResponse st) (timers st) (promises st)
    (reactions st) (microtasks st) n (next_promise st)
    (next_uuid st) (outbox st).

Definition set_next_promise (n : nat) (st : Client) : Client :=
  mkClient (config st) (ws st) (connected st) (messageHandlers st)
    (eventHandlers st) (accumulatedResponse st) (timers st) (promises st)
    (reactions st) (microtasks st) (next_timer st) n
    (next_uuid st) (outbox st).

Definition set_next_uuid (n : nat) (st : Client) : Client :=
  mkClient (config st) (ws st) (connected st) (messageHandlers st)
    (eventHandlers st) (accumulatedResponse st) (timers st) (promises st)
    (reactions st) (microtasks st) (next_timer st) (next_promise st)
    n (outbox st).

Definition set_outbox (o : list RequestFrame) (st : Client) : Client :=
  mkClient (config st) (ws st) (connected st) (messageHandlers st)
    (eventHandlers st) (accumulatedResponse st) (timers st) (promises st)
    (reactions st) (microtasks st) (next_timer st) (next_promise st)
    (next_uuid st) o.

(** ** Runtime primitives *)

(** [new Promise(...)]: a fresh pending promise. *)
Definition new_promise (st : Client) : nat * Client :=
  let p := next_promise st in
  (p, set_next_promise (S p) (set_promises (<[p := Pending]> (promises st)) st)).

(** [resolve]/[reject] of promise [p]: only a pending promise changes
    state; its waiting reaction, if any, is queued as a microtask. *)
Definition settle (p : nat) (o : Settled) (st : Client) : Client :=
  match promises st !! p with
  | Some Pending =>
      let st1 := set_promises (<[p := o]> (promises st)) st in
      match reactions st !! p with
      | Some k =>
          set_microtasks (microtasks st1 ++ [(k, o)])
            (set_reactions (delete p (reactions st1)) st1)
      | None => st1
      end
  | _ => st
  end.

Definition resolve (p : nat) (v : Value) : Client → Client := settle p (Fulfilled v).
Definition reject (p : nat) (msg : string) : Client → Client := settle p (Rejected msg).

(** [await p] (or [p.then(..).catch(..)]) with continuation [k]. *)
Definition await (p : nat) (k : Reaction) (st : Client) : Client :=
  match promises st !! p with
  | Some Pending => set_reactions (<[p := k]> (reactions st)) st
  | Some o => set_microtasks (microtasks st ++ [(k, o)]) st
  | None => st
  end.

Definition setTimeout (cb : TimerCallback) (delay now : Z) (st : Client) : nat * Client :=
  let t := next_timer st in
  (t, set_next_timer (S t)
        (set_timers (<[t := {| due := now + delay; callback := cb |}]> (timers st)) st)).

Definition clearTimeout (t : nat) (st : Client) : Client :=
  set_timers (delete t (timers st)) st.

(** [randomUUID()], modelled as a supply of pairwise distinct names. *)
Definition uuid (n : nat) : string := "uuid-" +:+ pretty n.
Arguments uuid : simpl never.

Definition randomUUID (st : Client) : string * Client :=
  (uuid (next_uuid st), set_next_uuid (S (next_uuid st)) st).

(** ** [sendRequest] and the closures it installs *)

Definition requestTimeoutDefault : Z := 30000.
Definition agentWaitBufferMs : Z := 30000.

Definition sendRequest (method : string) (params : Params) (timeoutMs now : Z)
    (st : Client) : nat * Client :=
  let '(p, st) := new_promise st in
  if negb (ws st && connected st) then
    (p, reject p "Not connected to OpenClaw gateway" st)
  else
    let '(messageId, st) := randomUUID st in
    let requestFrame :=
      {| req_id := messageId; req_method := method; req_params := params |} in
    let '(timeout, st) :=
      setTimeout (RequestTimeout messageId method p) timeoutMs now st in
    let st :=
      set_messageHandlers
        (<[messageId := {| mh_timeout := timeout; mh_method := method;
                           mh_promise := p |}]> (messageHandlers st)) st in
    (p, set_outbox (outbox st ++ [requestFrame]) st).

(** Body of the handler stored by [sendRequest]. *)
Definition call_msg_handler (h : MsgHandler) (response : ResponseFrame)
    (st : Client) : Client :=
  let st := clearTimeout (mh_timeout h) st in
  if negb (ok response) then
    reject (mh_promise h)
      (or_string (err_message <$> error response) (mh_method h +:+ " failed")) st
  else
    resolve (mh_promise h) (VResponse response) st.

(** Bodies of the two [setTimeout] callbacks. *)
Definition run_timer (cb : TimerCallback) (st : Client) : Client :=
  match cb with
  | RequestTimeout messageId method p =>
      let st := set_messageHandlers (delete messageId (messageHandlers st)) st in
      reject p ("Request timeout for " +:+ method) st
  | AgentWaitTimeout runId w =>
      let st := set_eventHandlers (delete runId (eventHandlers st)) st in
      reject w ("Agent wait timeout after "
                +:+ pretty (agentWaitTimeoutMs (config st)) +:+ "ms") st
  end.

(** ** Event handlers *)

(** A handler either returns or throws; state changes made before a
    throw stay. *)
Inductive Completion :=
| Normal (st : Client)
| Throw (st : Client).

Definition completed (c : Completion) : Client :=
  match c with Normal st | Throw st => st end.

Definition append_response (s : string) (st : Client) : Client :=
  set_accumulatedResponse (accumulatedResponse st +:+ s) st.

Definition append_block (st : Client) (block : Block) : Client :=
  if String.eqb (block_type block) "text" then
    match block_text block with
    | Some t => if truthy t then append_response t st else st
    | None => st
    end
  else st.

(** [chatHandler] of [sendPrompt]. *)
Definition chatHandler (ev : EventFrame) (st : Client) : Client :=
  if String.eqb (event ev) "chat" then
    match ev_data ev with
    | Some chatEvent =>
        if String.eqb (p_state chatEvent) "delta" then
          match p_message chatEvent with
          | Some (MessageString s) =>
              if truthy s then append_response s st else st
          | Some (MessageObject (Some (ContentString s))) =>
              if truthy s then append_response s st else st
          | Some (MessageObject (Some (ContentBlocks blocks))) =>
              foldl append_block st blocks
          | _ => st
          end
        else st
    | None => st
    end
  else st.

Fixpoint call_ev_handler (h : EvHandler) (ev : EventFrame) (st : Client)
    : Completion :=
  match h with
  | LifecycleHandler runId timeout w =>
      if String.eqb (event ev) "agent"
         && is_str (ev_payload ev ≫= p_stream) "lifecycle" then
        match ev_payload ev ≫= p_data with
        | None => Throw st
        | Some data =>
            if String.eqb (phase data) "end" then
              let st := clearTimeout timeout st in
              let st := set_eventHandlers (delete runId (eventHandlers st)) st in
              Normal (resolve w VUnit st)
            else if String.eqb (phase data) "error" then
              let st := clearTimeout timeout st in
              let st := set_eventHandlers (delete runId (eventHandlers st)) st in
              Normal (reject w (or_string (lc_error data) "Agent error") st)
            else Normal st
        end
      else Normal st
  | ChatWrapper existingHandler =>
      let st := chatHandler ev st in
      match existingHandler with
      | Some h' => call_ev_handler h' ev st
      | None => Normal st
      end
  end.

(** ** [handleFrame] *)

Definition to_response (frame : Frame) : ResponseFrame :=
  {| ok := f_ok frame; id := f_id frame; result := f_payload frame;
     payload := f_payload frame; error := f_error frame;
     status := if f_ok frame then "ok" else "error" |}.

Definition handle_chat (frame : Frame) (st : Client) : Completion :=
  if String.eqb (f_event frame) "chat" then
    match f_payload frame with
    | Some chatEvent =>
        match p_runId chatEvent ≫= (λ r, eventHandlers st !! r) with
        | Some handler =>
            call_ev_handler handler
              {| event := f_event frame; ev_payload := f_payload frame;
                 ev_data := Some chatEvent |} st
        | None => Normal st
        end
    | None => Normal st
    end
  else Normal st.

Definition handle_agent (frame : Frame) (st : Client) : Completion :=
  if String.eqb (f_event frame) "agent"
     && is_str (f_payload frame ≫= p_stream) "lifecycle" then
    match f_payload frame ≫= p_data with
    | None => Throw st
    | Some lifecycleData =>
        match lc_runId lifecycleData with
        | Some r =>
            if truthy r then
              match eventHandlers st !! r with
              | Some handler =>
                  call_ev_handler handler
                    {| event := f_event frame; ev_payload := f_payload frame;
                       ev_data := None |} st
              | None => Normal st
              end
            else Normal st
        | None => Normal st
        end
    end
  else Normal st.

Definition handleFrame (frame : Frame) (st : Client) : Completion :=
  if String.eqb (f_type frame) "res" && truthy (f_id frame) then
    match messageHandlers st !! f_id frame with
    | Some handler =>
        let st := call_msg_handler handler (to_response frame) st in
        Normal (set_messageHandlers (delete (f_id frame) (messageHandlers st)) st)
    | None => Normal st
    end
  else if String.eqb (f_type frame) "event" && truthy (f_event frame) then
    match handle_chat frame st with
    | Normal st => handle_agent frame st
    | Throw st => Throw st
    end
  else Normal st.

(** ** The [async] methods

    Each method runs up to its first [await] when called; the code after
    an [await] is the matching case of [run_reaction]. *)

Definition zeroTokens : TokenUsage :=
  {| total := 0; input := 0; output := 0; cacheCreation := None; cacheRead := None |}.

Definition resetSession (now : Z) (st : Client) : nat * Client :=
  let '(self, st) := new_promise st in
  let '(q, st) :=
    sendRequest "sessions.reset" (SessionsResetParams (cfg_sessionKey (config st)))
      requestTimeoutDefault now st in
  (self, await q (ResetSessionAwait self) st).

Definition getSessionTokens (now : Z) (st : Client) : nat * Client :=
  let '(self, st) := new_promise st in
  let '(q, st) :=
    sendRequest "sessions.list" (SessionsListParams "main")
      requestTimeoutDefault now st in
  (self, await q (GetSessionTokensAwait self) st).

(** What [getSessionTokens] returns once the [sessions.list] request has
    settled as [o]; the last case is the [catch] block. *)
Definition session_tokens (key : string) (o : Settled) : TokenUsage :=
  match o with
  | Fulfilled (VResponse response) =>
      let sessions := default [] (result response ≫= p_sessions) in
      match List.find (λ s, String.eqb (sessionKey s) key) sessions with
      | Some session =>
          {| total := or_zero (totalTokens session);
             input := or_zero (inputTokens session);
             output := or_zero (outputTokens session);
             cacheCreation := cacheCreationTokens session;
             cacheRead := cacheReadTokens session |}
      | None => zeroTokens
      end
  | _ => zeroTokens
  end.

Definition waitForAgent (runId : string) (now : Z) (st : Client) : nat * Client :=
  let '(w, st) := new_promise st in
  let '(timeout, st) :=
    setTimeout (AgentWaitTimeout runId w) (agentWaitTimeoutMs (config st)) now st in
  let st :=
    set_eventHandlers
      (<[runId := LifecycleHandler runId timeout w]> (eventHandlers st)) st in
  let '(q, st) :=
    sendRequest "agent.wait"
      (AgentWaitParams runId (agentWaitTimeoutMs (config st)))
      (agentWaitTimeoutMs (config st) + agentWaitBufferMs) now st in
  (w, await q (AgentWaitSettled runId timeout w) st).

Definition sendPrompt (prompt : string) (now : Z) (st : Client) : nat * Client :=
  let '(self, st) := new_promise st in
  let startTime := now in
  let '(g, st) := getSessionTokens now st in
  (self, await g (SendPromptAwaitStartTokens self prompt startTime) st).

(** [(a || 0) - (b || 0) || undefined] *)
Definition cache_delta (a b : option Z) : option Z :=
  let d := or_zero a - or_zero b in
  if d =? 0 then None else Some d.

Definition token_delta (endTokens startTokens : TokenUsage) : TokenUsage :=
  {| total := total endTokens - total startTokens;
     input := input endTokens - input startTokens;
     output := output endTokens - output startTokens;
     cacheCreation := cache_delta (cacheCreation endTokens) (cacheCreation startTokens);
     cacheRead := cache_delta (cacheRead endTokens) (cacheRead startTokens) |}.

Definition as_tokens (v : Value) : TokenUsage :=
  match v with VTokens t => t | _ => zeroTokens end.

Definition response_runId (v : Value) : option string :=
  match v with
  | VResponse r => result r ≫= p_runId
  | _ => None
  end.

Definition run_reaction (now : Z) (k : Reaction) (o : Settled) (st : Client) : Client :=
  match k with
  | AgentWaitSettled runId timeout w =>
      match o with
      | Fulfilled _ =>
          let st := clearTimeout timeout st in
          let st := set_eventHandlers (delete runId (eventHandlers st)) st in
          resolve w VUnit st
      | Rejected err =>
          match eventHandlers st !! runId with
          | Some _ =>
              let st := clearTimeout timeout st in
              let st := set_eventHandlers (delete runId (eventHandlers st)) st in
              reject w err st
          | None => st
          end
      | Pending => st
      end
  | ResetSessionAwait self =>
      match o with
      | Pending => st
      | _ => resolve self VUnit st
      end
  | GetSessionTokensAwait self =>
      match o with
      | Pending => st
      | _ => resolve self (VTokens (session_tokens (cfg_sessionKey (config st)) o)) st
      end
  | SendPromptAwaitStartTokens self prompt startTime =>
      match o with
      | Fulfilled v =>
          let startTokens := as_tokens v in
          let st := set_accumulatedResponse "" st in
          let '(messageId, st) := randomUUID st in
          let '(idempotencyKey, st) := randomUUID st in
          let '(q, st) :=
            sendRequest "chat.send"
              (ChatSendParams (cfg_sessionKey (config st)) prompt idempotencyKey)
              requestTimeoutDefault now st in
          await q (SendPromptAwaitChatSend self startTime startTokens) st
      | Rejected err => reject self err st
      | Pending => st
      end
  | SendPromptAwaitChatSend self startTime startTokens =>
      match o with
      | Fulfilled sendResponse =>
          match response_runId sendResponse with
          | Some runId =>
              if truthy runId then
                let existingHandler := eventHandlers st !! runId in
                let st :=
                  set_eventHandlers
                    (<[runId := ChatWrapper existingHandler]> (eventHandlers st)) st in
                let '(w, st) := waitForAgent runId now st in
                await w (SendPromptAwaitAgent self startTime startTokens) st
              else reject self "No runId received from chat.send" st
          | None => reject self "No runId received from chat.send" st
          end
      | Rejected err => reject self err st
      | Pending => st
      end
  | SendPromptAwaitAgent self startTime startTokens =>
      match o with
      | Fulfilled _ =>
          let endTime := now in
          let '(g, st) := getSessionTokens now st in
          await g (SendPromptAwaitEndTokens self startTime startTokens endTime) st
      | Rejected err => reject self err st
      | Pending => st
      end
  | SendPromptAwaitEndTokens self startTime startTokens endTime =>
      match o with
      | Fulfilled v =>
          let endTokens := as_tokens v in
          resolve self
            (VPrompt {| response := accumulatedResponse st;
                        tokens := token_delta endTokens startTokens;
                        timeMs := endTime - startTime |}) st
      | Rejected err => reject self err st
      | Pending => st
      end
  end.

Definition disconnect (st : Client) : Client :=
  let st :=
    if ws st then
      set_ws false (set_eventHandlers ∅ (set_messageHandlers ∅ st))
    else st in
  set_connected false st.

(** ** The event loop *)

Inductive Input :=
| Message (frame : Frame)
| TimerFires (t : nat)
| Microtask
| CallResetSession
| CallGetSessionTokens
| CallSendPrompt (prompt : string)
| CallDisconnect.

(** One turn of the loop at clock reading [now].  Queued promise
    reactions run before anything else; a frame is delivered only while
    the socket exists, with an exception from [handleFrame] caught by the
    socket's message listener; a timer fires only once it is due and has
    not been cleared. *)
Definition step (now : Z) (i : Input) (st : Client) : option Client :=
  match i, microtasks st with
  | Microtask, (k, o) :: rest => Some (run_reaction now k o (set_microtasks rest st))
  | Microtask, [] => None
  | _, _ :: _ => None
  | Message frame, [] =>
      if ws st then Some (completed (handleFrame frame st)) else None
  | TimerFires t, [] =>
      match timers st !! t with
      | Some e =>
          if due e <=? now then
            Some (run_timer (callback e) (set_timers (delete t (timers st)) st))
          else None
      | None => None
      end
  | CallResetSession, [] => Some (snd (resetSession now st))
  | CallGetSessionTokens, [] => Some (snd (getSessionTokens now st))
  | CallSendPrompt prompt, [] => Some (snd (sendPrompt prompt now st))
  | CallDisconnect, [] => Some (disconnect st)
  end.

Fixpoint run (trace : list (Z * Input)) (st : Client) : option Client :=
  match trace with
  | [] => Some st
  | (now, i) :: rest =>
      match step now i st with
      | Some st' => run rest st'
      | None => None
      end
  end.

(** A client right after a successful handshake. *)
Definition connected_client (cfg : RunnerConfig) : Client :=
  {| config := cfg; ws := true; connected := true;
     messageHandlers := ∅; eventHandlers := ∅; accumulatedResponse := "";
     timers := ∅; promises := ∅; reactions := ∅; microtasks := [];
     next_timer := 0; next_promise := 0; next_uuid := 0; outbox := [] |}.

(** ** SHA-256

    [crypto.createHash('sha256').update(buf).digest()], following
    FIPS 180-4: 32-bit words are integers below [2^32], additions wrap. *)

Module SHA256.

Definition wrap (x : Z) : Z := Z.land x (Z.ones 32).

Definition rotr (n x : Z) : Z :=
  Z.lor (Z.shiftr x n) (wrap (Z.shiftl x (32 - n))).

Definition xor3 (x y z : Z) : Z := Z.lxor (Z.lxor x y) z.

Definition Ch (x y z : Z) : Z :=
  Z.lxor (Z.land x y) (Z.land (Z.lxor x (Z.ones 32)) z).
Definition Maj (x y z : Z) : Z := xor3 (Z.land x y) (Z.land x z) (Z.land y z).
Definition Sigma0 (x : Z) : Z := xor3 (rotr 2 x) (rotr 13 x) (rotr 22 x).
Definition Sigma1 (x : Z) : Z := xor3 (rotr 6 x) (rotr 11 x) (rotr 25 x).
Definition sigma0 (x : Z) : Z := xor3 (rotr 7 x) (rotr 18 x) (Z.shiftr x 3).
Definition sigma1 (x : Z) : Z := xor3 (rotr 17 x) (rotr 19 x) (Z.shiftr x 10).

(** The round constants are the first 32 bits of the fractional parts of
    the cube roots of the first 64 primes, the initial hash value those of
    the square roots of the first 8 primes. *)
Definition is_prime (n : Z) : bool :=
  forallb (λ d, negb (n mod d =? 0)) (seqZ 2 (n - 2)).

Definition primes : list Z := List.filter is_prime (seqZ 2 310).

(** Largest [r] below [2^36] with [r^3 ≤ n]. *)
Definition cube_root (n : Z) : Z :=
  foldl (λ r i, let r' := r + Z.shiftl 1 i in if r' * r' * r' <=? n then r' else r)
    0 (reverse (seqZ 0 36)).

Definition K : list Z := map (λ p, wrap (cube_root (Z.shiftl p 96))) primes.

Record Words := mkWords { v0 : Z; v1 : Z; v2 : Z; v3 : Z; v4 : Z; v5 : Z; v6 : Z; v7 : Z }.

Definition H0 : Words :=
  let r (i : nat) := wrap (Z.sqrt (Z.shiftl (primes !!! i) 64)) in
  mkWords (r 0%nat) (r 1%nat) (r 2%nat) (r 3%nat) (r 4%nat) (r 5%nat) (r 6%nat) (r 7%nat).

(** Padding: the byte [0x80], zero bytes up to 56 modulo 64, then the bit
    length as a 64-bit big-endian number. *)
Definition be_bytes (k x : Z) : list Z :=
  map (λ i, Z.land (Z.shiftr x (8 * i)) 255) (reverse (seqZ 0 k)).

Definition pad (m : list byte) : list Z :=
  let n := Z.of_nat (length m) in
  map (λ b, Z.of_N (Byte.to_N b)) m
  ++ [128] ++ replicate (Z.to_nat ((55 - n) mod 64)) 0 ++ be_bytes 8 (8 * n).

Fixpoint words (bs : list Z) : list Z :=
  match bs with
  | b3 :: b2 :: b1 :: b0 :: rest =>
      Z.lor (Z.shiftl b3 24) (Z.lor (Z.shiftl b2 16) (Z.lor (Z.shiftl b1 8) b0))
      :: words rest
  | _ => []
  end.

Fixpoint blocks (n : nat) (ws : list Z) : list (list Z) :=
  match n with
  | O => []
  | S n' => take 16 ws :: blocks n' (drop 16 ws)
  end.

(** One round.  [w] holds the sixteen schedule words from the current one
    on; the schedule is extended as the window slides. *)
Definition round (s : Words * list Z) (k : Z) : Words * list Z :=
  let '(mkWords a b c d e f g h, w) := s in
  let t1 := h + Sigma1 e + Ch e f g + k + w !!! 0%nat in
  let t2 := Sigma0 a + Maj a b c in
  let next :=
    wrap (sigma1 (w !!! 14%nat) + w !!! 9%nat + sigma0 (w !!! 1%nat) + w !!! 0%nat) in
  (mkWords (wrap (t1 + t2)) a b c (wrap (d + t1)) e f g, drop 1 w ++ [next]).

Definition compress (H : Words) (block : list Z) : Words :=
  let s := (foldl round (H, block) K).1 in
  mkWords (wrap (v0 H + v0 s)) (wrap (v1 H + v1 s)) (wrap (v2 H + v2 s))
    (wrap (v3 H + v3 s)) (wrap (v4 H + v4 s)) (wrap (v5 H + v5 s))
    (wrap (v6 H + v6 s)) (wrap (v7 H + v7 s)).

Definition to_byte (x : Z) : byte :=
  default x00%byte (Byte.of_N (Z.to_N (Z.land x 255))).

Definition word_bytes (x : Z) : list byte :=
  [to_byte (Z.shiftr x 24); to_byte (Z.shiftr x 16); to_byte (Z.shiftr x 8); to_byte x].

Definition digest (H : Words) : list byte :=
  word_bytes (v0 H) ++ word_bytes (v1 H) ++ word_bytes (v2 H) ++ word_bytes (v3 H)
  ++ word_bytes (v4 H) ++ word_bytes (v5 H) ++ word_bytes (v6 H) ++ word_bytes (v7 H).

Definition sha256 (m : list byte) : list byte :=
  let ws := words (pad m) in
  digest (foldl compress H0 (blocks (length ws / 16) ws)).

End SHA256.

(** ** Device identity and connect request *)

Module Identity.

Definition hex_digit (n : N) : ascii :=
  default "0"%char (String.get (N.to_nat n) "0123456789abcdef").

(** [buf.toString('hex')] / [digest('hex')] *)
Fixpoint hex (bs : list byte) : string :=
  match bs with
  | [] => ""
  | b :: rest =>
      let n := Byte.to_N b in
      String (hex_digit (n `div` 16)%N) (String (hex_digit (n `mod` 16)%N) (hex rest))
  end.

Definition base64_digit (n : N) : ascii :=
  default "="%char
    (String.get (N.to_nat n)
       "ABCDEFGHIJKLMNOPQRSTUVWXYZabcdefghijklmnopqrstuvwxyz0123456789+/").

(** [buf.toString('base64')]: three bytes give four digits, the tail is
    padded with [=]. *)
Fixpoint base64 (bs : list byte) : string :=
  match bs with
  | [] => ""
  | [a] =>
      let x := Byte.to_N a in
      String (base64_digit (x `div` 4)%N)
        (String (base64_digit ((x `mod` 4) * 16)%N) "==")
  | [a; b] =>
      let x := Byte.to_N a in
      let y := Byte.to_N b in
      String (base64_digit (x `div` 4)%N)
        (String (base64_digit ((x `mod` 4) * 16 + y `div` 16)%N)
          (String (base64_digit ((y `mod` 16) * 4)%N) "="))
  | a :: b :: c :: rest =>
      let x := Byte.to_N a in
      let y := Byte.to_N b in
      let z := Byte.to_N c in
      String (base64_digit (x `div` 4)%N)
        (String (base64_digit ((x `mod` 4) * 16 + y `div` 16)%N)
          (String (base64_digit ((y `mod` 16) * 4 + z `div` 64)%N)
            (String (base64_digit (z `mod` 64)%N) (base64 rest))))
  end.

(** [s.replaceAll(from, to)] for single characters. *)
Fixpoint replaceAll (from to : ascii) (s : string) : string :=
  match s with
  | EmptyString => EmptyString
  | String c rest =>
      String (if Ascii.eqb c from then to else c) (replaceAll from to rest)
  end.

(** [s.replace(/=+$/g, '')] *)
Fixpoint strip_padding (s : string) : string :=
  match s with
  | EmptyString => EmptyString
  | String c rest =>
      match strip_padding rest with
      | EmptyString => if Ascii.eqb c "=" then EmptyString else String c EmptyString
      | rest' => String c rest'
      end
  end.

Definition base64UrlEncode (buf : list byte) : string :=
  strip_padding (replaceAll "/" "_" (replaceAll "+" "-" (base64 buf))).

Definition ED25519_SPKI_PREFIX : list byte :=
  [x30; x2a; x30; x05; x06; x03; x2b; x65; x70; x03; x21; x00]%byte.

(** [Buffer.equals] *)
Fixpoint bytes_eqb (a b : list byte) : bool :=
  match a, b with
  | [], [] => true
  | x :: a', y :: b' => Byte.eqb x y && bytes_eqb a' b'
  | _, _ => false
  end.

(** [Array.prototype.join] *)
Fixpoint join (sep : string) (parts : list string) : string :=
  match parts with
  | [] => ""
  | [s] => s
  | s :: rest => s +:+ sep +:+ join sep rest
  end.

Record DeviceIdentity := {
  deviceId : string;
  publicKeyPem : string;
  privateKeyPem : string;
  publicKeyBase64Url : string;
}.

Record DeviceParams := {
  dev_id : string;
  dev_publicKey : string;
  dev_signature : string;
  dev_signedAt : Z;
  dev_nonce : option string;
}.

Record ConnectFrame := {
  cf_id : string;
  cf_method : string;
  cf_clientId : string;
  cf_clientMode : string;
  cf_role : string;
  cf_scopes : list string;
  cf_auth : option string;
  cf_device : DeviceParams;
}.

Section Crypto.

(** The key primitives of [node:crypto] the helpers call:
    [createPublicKey(pem).export({type:'spki', format:'der'})] and
    [sign(null, data, createPrivateKey(pem))]. *)
Variable export_spki_der : string → list byte.
Variable ed25519_sign : string → list byte → list byte.

Definition derivePublicKeyRaw (publicKeyPem : string) : list byte :=
  let spki := export_spki_der publicKeyPem in
  if (length spki =? length ED25519_SPKI_PREFIX + 32)%nat
     && bytes_eqb (take (length ED25519_SPKI_PREFIX) spki) ED25519_SPKI_PREFIX
  then drop (length ED25519_SPKI_PREFIX) spki
  else spki.

(** [generateDeviceIdentity], given the exported key pair that
    [generateKeyPairSync('ed25519')] produced. *)
Definition generateDeviceIdentity (publicKeyPem privateKeyPem : string)
    : DeviceIdentity :=
  let publicKeyRaw := derivePublicKeyRaw publicKeyPem in
  {| deviceId := hex (SHA256.sha256 publicKeyRaw);
     publicKeyPem := publicKeyPem;
     privateKeyPem := privateKeyPem;
     publicKeyBase64Url := base64UrlEncode publicKeyRaw |}.

Definition signDevicePayload (privateKeyPem payload : string) : string :=
  base64UrlEncode (ed25519_sign privateKeyPem (String.list_byte_of_string payload)).

(** The string [sendConnectRequest] signs. *)
Definition payloadParts (identity : DeviceIdentity) (cfg : RunnerConfig)
    (signedAt : Z) (nonce : option string) : list string :=
  let clientId := "openclaw-control-ui" in
  let clientMode := "ui" in
  let role := "operator" in
  let scopes := ["operator.read"; "operator.write"; "operator.admin"] in
  let token := or_string (gatewayToken cfg) "" in
  let version :=
    match nonce with
    | Some n => if truthy n then "v2" else "v1"
    | None => "v1"
    end in
  let parts :=
    [version; deviceId identity; clientId; clientMode; role;
     join "," scopes; pretty signedAt; token] in
  match nonce with
  | Some n => if truthy n then parts ++ [n] else parts
  | None => parts
  end.

Definition signPayload (identity : DeviceIdentity) (cfg : RunnerConfig)
    (signedAt : Z) (nonce : option string) : string :=
  join "|" (payloadParts identity cfg signedAt nonce).

(** The frame built by [sendConnectRequest(nonce)] at clock reading
    [signedAt]. *)
Definition sendConnectRequest (identity : DeviceIdentity) (cfg : RunnerConfig)
    (connectId : string) (signedAt : Z) (nonce : option string) : ConnectFrame :=
  let token := or_string (gatewayToken cfg) "" in
  let signature :=
    signDevicePayload (privateKeyPem identity)
      (signPayload identity cfg signedAt nonce) in
  {| cf_id := connectId;
     cf_method := "connect";
     cf_clientId := "openclaw-control-ui";
     cf_clientMode := "ui";
     cf_role := "operator";
     cf_scopes := ["operator.read"; "operator.write"; "operator.admin"];
     cf_auth := if truthy token then Some token else None;
     cf_device :=
       {| dev_id := deviceId identity;
          dev_publicKey := publicKeyBase64Url identity;
          dev_signature := signature;
          dev_signedAt := signedAt;
          dev_nonce := nonce |} |}.

End Crypto.

Definition is_lower_hex (c : ascii) : bool :=
  match String.index 0 (String c EmptyString) "0123456789abcdef" with
  | Some _ => true
  | None => false
  end.

Fixpoint all_chars (f : ascii → bool) (s : string) : bool :=
  match s with
  | EmptyString => true
  | String c rest => f c && all_chars f rest
  end.

(** The signed payload as the specification words it: version 2, with the
    nonce as ninth field, whenever the challenge carried a nonce. *)
Definition claimed_signPayload (identity : DeviceIdentity) (cfg : RunnerConfig)
    (signedAt : Z) (nonce : option string) : string :=
  join "|"
    ([ (match nonce with Some _ => "v2" | None => "v1" end); deviceId identity;
       "openclaw-control-ui"; "ui"; "operator";
       "operator.read,operator.write,operator.admin";
       pretty signedAt; or_string (gatewayToken cfg) "" ]
     ++ option_list nonce).

End Identity.

(** ** Frames the gateway sends *)

Definition emptyPayload : Payload :=
  {| p_runId := None; p_state := ""; p_message := None; p_stream := None;
     p_data := None; p_sessions := None |}.

(** [{type:"res", id, ok, payload?, error?}] *)
Definition responseFrame (id : string) (ok : bool) (pl : option Payload)
    (err : option ErrorObj) : Frame :=
  {| f_type := "res"; f_id := id; f_ok := ok; f_payload := pl; f_error := err;
     f_event := "" |}.

(** [{type:"event", event:"agent", payload:{stream:"lifecycle", data:{phase, runId, error?}}}] *)
Definition lifecycleFrame (runId phase : string) (err : option string) : Frame :=
  {| f_type := "event"; f_id := ""; f_ok := false;
     f_payload :=
       Some {| p_runId := None; p_state := ""; p_message := None;
               p_stream := Some "lifecycle";
               p_data := Some {| phase := phase; lc_runId := Some runId;
                                 lc_error := err |};
               p_sessions := None |};
     f_error := None; f_event := "agent" |}.

(** [{type:"event", event:"chat", payload:{runId, state, message?}}] *)
Definition chatFrame (runId state : string) (msg : option ChatMessage) : Frame :=
  {| f_type := "event"; f_id := ""; f_ok := false;
     f_payload :=
       Some {| p_runId := Some runId; p_state := state; p_message := msg;
               p_stream := None; p_data := None; p_sessions := None |};
     f_error := None; f_event := "chat" |}.

Definition runIdPayload (runId : string) : Payload :=
  {| p_runId := Some runId; p_state := ""; p_message := None; p_stream := None;
     p_data := None; p_sessions := None |}.

Definition sessionsPayload (l : list SessionMetadata) : Payload :=
  {| p_runId := None; p_state := ""; p_message := None; p_stream := None;
     p_data := None; p_sessions := Some l |}.

(** ** Predicates on client states *)

(** Allocation counters are ahead of everything allocated, and no handler
    is registered under an empty run id. *)
Record wf (st : Client) : Prop := {
  wf_promises : ∀ p, (next_promise st ≤ p)%nat → promises st !! p = None;
  wf_reactions : ∀ p, (next_promise st ≤ p)%nat → reactions st !! p = None;
  wf_timers : ∀ t, (next_timer st ≤ t)%nat → timers st !! t = None;
  wf_uuids : ∀ n, (next_uuid st ≤ n)%nat → messageHandlers st !! uuid n = None;
  wf_runIds : ∀ r h, eventHandlers st !! r = Some h → truthy r = true;
}.

(** Promises settled in [st] have the same outcome in [st']. *)
Definition stable (st st' : Client) : Prop :=
  ∀ p o, promises st !! p = Some o → o ≠ Pending → promises st' !! p = Some o.

Definition good (st st' : Client) : Prop :=
  wf st → wf st' ∧ stable st st'.

(** A completion waiter for [runId] is outstanding: its lifecycle
    listener is the registered handler and its promise is pending. *)
Record waiting (st : Client) (runId : string) (timeout w : nat) : Prop := {
  waiting_handler :
    eventHandlers st !! runId = Some (LifecycleHandler runId timeout w);
  waiting_promise : promises st !! w = Some Pending;
}.

(** Request [messageId] of method [method] is pending with promise [q],
    guarded by timer [t]. *)
Record pending_request (st : Client) (messageId method : string) (t q : nat)
    : Prop := {
  pending_handler :
    messageHandlers st !! messageId
    = Some {| mh_timeout := t; mh_method := method; mh_promise := q |};
  pending_promise : promises st !! q = Some Pending;
}.

(** The client is idle between two turns of the loop, socket open. *)
Definition idle (st : Client) : Prop :=
  microtasks st = [] ∧ ws st = true.

(** ** Auxiliary definitions for the statements below *)

(** How a request settles when its response frame arrives (the two
    branches of the handler installed by [sendRequest]). *)
Definition response_outcome (method : string) (response : ResponseFrame) : Settled :=
  if ok response then Fulfilled (VResponse response)
  else Rejected (or_string (err_message <$> error response) (method +:+ " failed")).

(** State right after an [async] method that allocates its own promise,
    sends one request with the default timeout and awaits it with [k]. *)
Definition awaiting_request (method : string) (params : Params) (now : Z)
    (k : Reaction) (st : Client) : Client :=
  let self := next_promise st in
  let q := S self in
  let messageId := uuid (next_uuid st) in
  mkClient (config st) true true
    (<[messageId := {| mh_timeout := next_timer st; mh_method := method;
                       mh_promise := q |}]> (messageHandlers st))
    (eventHandlers st) (accumulatedResponse st)
    (<[next_timer st :=
         {| due := now + requestTimeoutDefault;
            callback := RequestTimeout messageId method q |}]> (timers st))
    (<[q := Pending]> (<[self := Pending]> (promises st)))
    (<[q := k]> (reactions st)) (microtasks st)
    (S (next_timer st)) (S q) (S (next_uuid st))
    (outbox st ++ [{| req_id := messageId; req_method := method;
                      req_params := params |}]).

(** What an observer sees of the client after a trace. *)
Definition observe {A} (f : Client → A) (trace : list (Z * Input)) (st : Client)
    : option A :=
  f <$> run trace st.

Definition prompt_result (o : option Settled) : option PromptResult :=
  match o with
  | Some (Fulfilled (VPrompt r)) => Some r
  | _ => None
  end.

(** Chat events for one run: clock reading, state and message of each. *)
Definition chatEvents (runId : string)
    (events : list (Z * string * option ChatMessage)) : list (Z * Input) :=
  map (λ e, (e.1.1, Message (chatFrame runId e.1.2 e.2))) events.

(** One [sendPrompt] call on a fresh client, from the call at [t0] to its
    return at [t5]: the listing before, the [chat.send] response carrying
    [runId], the events of the run, the lifecycle end at [t3], the listing
    after at [t4]. *)
Definition promptTrace (prompt runId : string) (t0 t1 t2 t3 t4 t5 : Z)
    (before after : Frame) (events : list (Z * Input)) : list (Z * Input) :=
  [ (t0, CallSendPrompt prompt);
    (t1, Message before); (t1, Microtask); (t1, Microtask);
    (t2, Message (responseFrame (uuid 3) true (Some (runIdPayload runId)) None));
    (t2, Microtask) ]
  ++ events
  ++ [ (t3, Message (lifecycleFrame runId "end" None)); (t3, Microtask);
       (t4, Message after); (t5, Microtask); (t5, Microtask) ].

(** ** Sample data *)

Definition sampleConfig : RunnerConfig :=
  {| cfg_sessionKey := "agent:main:test"; agentWaitTimeoutMs := 900000;
     gatewayToken := None |}.

Definition tokenConfig : RunnerConfig :=
  {| cfg_sessionKey := "agent:main:test"; agentWaitTimeoutMs := 900000;
     gatewayToken := Some "secret" |}.

Definition sampleIdentity : Identity.DeviceIdentity :=
  {| Identity.deviceId := "ab12"; Identity.publicKeyPem := "PUBLIC";
     Identity.privateKeyPem := "PRIVATE"; Identity.publicKeyBase64Url := "qxI" |}.

Definition okResponse (id : string) : Frame := responseFrame id true None None.

Definition otherSession : SessionMetadata :=
  {| sessionKey := "agent:main:other"; totalTokens := Some 7;
     inputTokens := Some 4; outputTokens := Some 3;
     cacheCreationTokens := None; cacheReadTokens := None |}.

Definition sampleSession : SessionMetadata :=
  {| sessionKey := "agent:main:test"; totalTokens := Some 1200;
     inputTokens := Some 1000; outputTokens := Some 200;
     cacheCreationTokens := Some 50; cacheReadTokens := None |}.

Definition helloDeltas : list (Z * string * option ChatMessage) :=
  [ (3, "delta", Some (MessageString "Hel"));
    (4, "delta", Some (MessageString "lo, "));
    (5, "delta", Some (MessageString "world")) ].

(** A prompt whose run is being awaited: the waiter for ["run-1"] is
    promise 4 with deadline timer 2; its [agent.wait] request is
    ["uuid-4"], promise 5, request timer 3. *)
Definition waitingTrace : list (Z * Input) :=
  [ (0, CallSendPrompt "hello");
    (1, Message (okResponse (uuid 0))); (1, Microtask); (1, Microtask);
    (2, Message (responseFrame (uuid 3) true (Some (runIdPayload "run-1")) None));
    (2, Microtask) ].

Definition waitingClient : Client :=
  default (connected_client sampleConfig)
    (run waitingTrace (connected_client sampleConfig)).

(** The three deltas of the example arrive while the run is awaited. *)
Definition helloTrace : list (Z * Input) :=
  promptTrace "hello" "run-1" 0 1 2 6 7 7 (okResponse (uuid 0)) (okResponse (uuid 5))
    (chatEvents "run-1" helloDeltas).


(** Two prompts issued on one client whose [chat.send] responses carry the
    same run id; the second waiter (promise 10) is then completed by its
    [agent.wait] response, which leaves the first waiter (promise 8)
    pending with no handler registered for the run. *)
Definition sharedRunTrace : list (Z * Input) :=
  [ (0, CallSendPrompt "first");
    (1, Message (okResponse (uuid 0))); (1, Microtask); (1, Microtask);
    (2, CallSendPrompt "second");
    (3, Message (okResponse (uuid 4))); (3, Microtask); (3, Microtask);
    (4, Message (responseFrame (uuid 3) true (Some (runIdPayload "run-1")) None));
    (4, Microtask);
    (5, Message (responseFrame (uuid 7) true (Some (runIdPayload "run-1")) None));
    (5, Microtask);
    (6, Message (okResponse (uuid 9))); (6, Microtask); (6, Microtask) ].

(** An exported Ed25519 public key for the examples. *)
Definition toy_export (pem : string) : list byte :=
  Identity.ED25519_SPKI_PREFIX ++ replicate 32 Byte.x07.

(** ** Further definitions for the properties of the client *)

(** The run ids a frame names: [payload.runId] of a chat event and
    [payload.data.runId] of a lifecycle event. *)
Definition chat_runId (frame : Frame) : option string :=
  f_payload frame ≫= p_runId.

Definition lifecycle_runId (frame : Frame) : option string :=
  (f_payload frame ≫= p_data) ≫= lc_runId.



(** What holds of the event-handler registry and of the accumulated
    response between any two turns of the loop. *)
Record quiet (st : Client) : Prop := {
  quiet_handlers :
    ∀ r h, eventHandlers st !! r = Some h → ∃ t w, h = LifecycleHandler r t w;
  quiet_response : accumulatedResponse st = "";
  quiet_results :
    ∀ p r, promises st !! p = Some (Fulfilled (VPrompt r)) → response r = "";
}.

(** No prompt result appears between [st] and [st']. *)
Definition no_new_results (st st' : Client) : Prop :=
  ∀ p r, promises st' !! p = Some (Fulfilled (VPrompt r)) →
         promises st !! p = Some (Fulfilled (VPrompt r)).

(** [st'] differs from [st] in nothing that [quiet] looks at, except for
    promises that hold no prompt result. *)
Record calm (st st' : Client) : Prop := {
  calm_handlers : eventHandlers st' = eventHandlers st;
  calm_response : accumulatedResponse st' = accumulatedResponse st;
  calm_results : no_new_results st st';
}.

(** ** Further definitions for the identity helpers *)

(** The characters of the URL-safe base64 alphabet. *)
Definition is_base64url (c : ascii) : bool :=
  match String.index 0 (String c EmptyString)
          "ABCDEFGHIJKLMNOPQRSTUVWXYZabcdefghijklmnopqrstuvwxyz0123456789-_" with
  | Some _ => true
  | None => false
  end.

(** The digit for [n] after [replaceAll('+', '-')] and
    [replaceAll('/', '_')]. *)
Definition url_digit (n : N) : ascii :=
  let c := Identity.base64_digit n in
  let c := if Ascii.eqb c "+" then "-"%char else c in
  if Ascii.eqb c "/" then "_"%char else c.

(** Position of a character in the URL-safe alphabet. *)
Definition url_index (c : ascii) : N :=
  match String.index 0 (String c EmptyString)
          "ABCDEFGHIJKLMNOPQRSTUVWXYZabcdefghijklmnopqrstuvwxyz0123456789-_" with
  | Some i => N.of_nat i
  | None => 64
  end.

(** ** [connect]: the handshake

    [connect] opens the socket, arms a 15 s timer and installs the
    socket's listeners.  Its local variables ([connectId],
    [handshakeComplete], [challengeReceived], the timer handle, and the
    [resolve]/[reject] pair of the promise it returns) live in the closures
    of those listeners; here they are the fields of [Connection], next to
    the client they belong to. *)

Module Handshake.

(** The client as the constructor leaves it. *)
Definition new_client (cfg : RunnerConfig) : Client :=
  {| config := cfg; ws := false; connected := false;
     messageHandlers := ∅; eventHandlers := ∅; accumulatedResponse := "";
     timers := ∅; promises := ∅; reactions := ∅; microtasks := [];
     next_timer := 0; next_promise := 0; next_uuid := 0; outbox := [] |}.

Record Connection := mkConnection {
  client : Client;
  identity : Identity.DeviceIdentity;
  connectId : string;
  handshakeComplete : bool;
  challengeReceived : bool;
  (** due time of the connection timer while it is armed *)
  deadline : option Z;
  (** state of the promise [connect] returned *)
  outcome : Settled;
  (** connect frames written to the socket *)
  sent : list Identity.ConnectFrame;
  (** [ws.close()] has been called by the timer *)
  closing : bool;
}.

Definition set_client (st : Client) (c : Connection) : Connection :=
  mkConnection st (identity c) (connectId c) (handshakeComplete c)
    (challengeReceived c) (deadline c) (outcome c) (sent c) (closing c).

Definition set_handshakeComplete (b : bool) (c : Connection) : Connection :=
  mkConnection (client c) (identity c) (connectId c) b
    (challengeReceived c) (deadline c) (outcome c) (sent c) (closing c).

Definition set_challengeReceived (b : bool) (c : Connection) : Connection :=
  mkConnection (client c) (identity c) (connectId c) (handshakeComplete c)
    b (deadline c) (outcome c) (sent c) (closing c).

Definition set_sent (l : list Identity.ConnectFrame) (c : Connection) : Connection :=
  mkConnection (client c) (identity c) (connectId c) (handshakeComplete c)
    (challengeReceived c) (deadline c) (outcome c) l (closing c).

Definition set_closing (b : bool) (c : Connection) : Connection :=
  mkConnection (client c) (identity c) (connectId c) (handshakeComplete c)
    (challengeReceived c) (deadline c) (outcome c) (sent c) b.

(** [clearTimeout(timeout)] *)
Definition clear_deadline (c : Connection) : Connection :=
  mkConnection (client c) (identity c) (connectId c) (handshakeComplete c)
    (challengeReceived c) None (outcome c) (sent c) (closing c).

(** [resolve()] and [reject(...)] of the promise: only a pending promise
    changes state. *)
Definition settle_outcome (o : Settled) (c : Connection) : Connection :=
  match outcome c with
  | Pending =>
      mkConnection (client c) (identity c) (connectId c) (handshakeComplete c)
        (challengeReceived c) (deadline c) o (sent c) (closing c)
  | _ => c
  end.

Definition connectTimeoutMs : Z := 15000.

Section Crypto.

Variable ed25519_sign : string → list byte → list byte.

(** The body of [connect] up to the installation of the listeners. *)
Definition connect (ident : Identity.DeviceIdentity) (now : Z) (st : Client)
    : Connection :=
  let st := set_ws true st in
  let '(id, st) := randomUUID st in
  {| client := st; identity := ident; connectId := id;
     handshakeComplete := false; challengeReceived := false;
     deadline := Some (now + connectTimeoutMs); outcome := Pending;
     sent := []; closing := false |}.

(** [sendConnectRequest(nonce)] at clock reading [now]:
    [this.ws?.send(...)] writes only while the socket exists. *)
Definition sendConnectRequest (nonce : option string) (now : Z) (c : Connection)
    : Connection :=
  if ws (client c) then
    set_sent
      (sent c ++ [Identity.sendConnectRequest ed25519_sign (identity c)
                    (config (client c)) (connectId c) now nonce]) c
  else c.

(** The socket's [message] listener for a frame that parsed;
    [nonce] is [frame.payload?.nonce]. *)
Definition on_message (now : Z) (frame : Frame) (nonce : option string)
    (c : Connection) : Connection :=
  if negb (challengeReceived c) && String.eqb (f_type frame) "event"
     && String.eqb (f_event frame) "connect.challenge" then
    sendConnectRequest nonce now (set_challengeReceived true c)
  else if negb (handshakeComplete c) && String.eqb (f_type frame) "res"
          && String.eqb (f_id frame) (connectId c) then
    if f_ok frame then
      let c := set_handshakeComplete true c in
      let c := set_client (set_connected true (client c)) c in
      settle_outcome (Fulfilled VUnit) (clear_deadline c)
    else
      settle_outcome
        (Rejected (or_string (err_message <$> f_error frame) "Connect handshake failed"))
        (clear_deadline c)
  else
    set_client (completed (handleFrame frame (client c))) c.

(** The [error] listener. *)
Definition on_error (msg : string) (c : Connection) : Connection :=
  settle_outcome (Rejected msg) (clear_deadline c).

(** The [close] listener. *)
Definition on_close (code : Z) (c : Connection) : Connection :=
  let c := set_client (set_connected false (client c)) c in
  if negb (handshakeComplete c) then
    settle_outcome
      (Rejected ("Connection closed before handshake (code: " +:+ pretty code +:+ ")"))
      (clear_deadline c)
  else c.

(** The callback of the connection timer. *)
Definition on_timeout (c : Connection) : Connection :=
  if negb (connected (client c)) then
    let c := if ws (client c) then set_closing true c else c in
    settle_outcome (Rejected "Connection timeout after 15 seconds") c
  else c.

(** What the socket and the timer can do to a connection. *)
Inductive Event :=
| Open
| Data (frame : Frame) (nonce : option string)
| Garbage
| SocketError (msg : string)
| Close (code : Z)
| Timeout.

(** One event at clock reading [now].  The timer fires once, when it is
    armed and due; data that does not parse is caught and logged. *)
Definition step (now : Z) (e : Event) (c : Connection) : option Connection :=
  match e with
  | Open | Garbage => Some c
  | Data frame nonce => Some (on_message now frame nonce c)
  | SocketError msg => Some (on_error msg c)
  | Close code => Some (on_close code c)
  | Timeout =>
      match deadline c with
      | Some due =>
          if due <=? now then Some (on_timeout (clear_deadline c)) else None
      | None => None
      end
  end.

Fixpoint run (trace : list (Z * Event)) (c : Connection) : option Connection :=
  match trace with
  | [] => Some c
  | (now, e) :: rest =>
      match step now e c with
      | Some c' => run rest c'
      | None => None
      end
  end.

End Crypto.

(** [{type:"event", event:"connect.challenge", payload:{nonce}}] *)
Definition challengeFrame : Frame :=
  {| f_type := "event"; f_id := ""; f_ok := false; f_payload := Some emptyPayload;
     f_error := None; f_event := "connect.challenge" |}.

End Handshake.

(** [st'] has the socket, the connection flag and the configuration of
    [st]. *)
Record same_socket (st st' : Client) : Prop := {
  same_config : config st' = config st;
  same_ws : ws st' = ws st;
  same_connected : connected st' = connected st;
}.

(** The first challenge of a trace: its clock reading and nonce. *)
Fixpoint first_challenge (trace : list (Z * Handshake.Event))
    : option (Z * option string) :=
  match trace with
  | [] => None
  | (now, Handshake.Data frame nonce) :: rest =>
      if String.eqb (f_type frame) "event"
         && String.eqb (f_event frame) "connect.challenge"
      then Some (now, nonce)
      else first_challenge rest
  | _ :: rest => first_challenge rest
  end.

(** What holds of a connection at every point of a handshake started at
    clock reading [t0]. *)
Record connecting (cfg : RunnerConfig) (ident : Identity.DeviceIdentity) (t0 : Z)
    (c : Handshake.Connection) : Prop := {
  hs_config : config (Handshake.client c) = cfg;
  hs_ws : ws (Handshake.client c) = true;
  hs_identity : Handshake.identity c = ident;
  hs_connectId : Handshake.connectId c = uuid 0;
  hs_timer : Handshake.deadline c = None ↔ Handshake.outcome c ≠ Pending;
  hs_armed :
    ∀ d, Handshake.deadline c = Some d →
         d = t0 + Handshake.connectTimeoutMs
         ∧ Handshake.handshakeComplete c = false
         ∧ connected (Handshake.client c) = false;
  hs_fulfilled :
    ∀ v, Handshake.outcome c = Fulfilled v →
         v = VUnit ∧ Handshake.handshakeComplete c = true;
  hs_connected :
    connected (Handshake.client c) = true → Handshake.handshakeComplete c = true;
  hs_closing :
    Handshake.closing c = true →
    Handshake.outcome c = Rejected "Connection timeout after 15 seconds";
  hs_sent :
    Handshake.challengeReceived c = false → Handshake.sent c = [];
}.

(** A stand-in for the signing primitive in examples. *)
Definition toy_sign (pem : string) (data : list byte) : list byte := take 8 data.

(** ** The sequential runner around the client *)

Module Runner.

(** [s.split(sep)] for a one-character separator: never empty, [""]
    gives [[""]]. *)
Fixpoint split (sep : ascii) (s : string) : list string :=
  match s with
  | EmptyString => [EmptyString]
  | String c rest =>
      match split sep rest with
      | piece :: pieces =>
          if Ascii.eqb c sep then EmptyString :: piece :: pieces
          else String c piece :: pieces
      | [] => []
      end
  end.

(** [s.startsWith(prefix)] *)
Fixpoint startsWith (prefix s : string) : bool :=
  match prefix with
  | EmptyString => true
  | String a prefix' =>
      match s with
      | EmptyString => false
      | String b s' => Ascii.eqb a b && startsWith prefix' s'
      end
  end.

(** [arr.slice(1, -1)]: everything but the first and the last element. *)
Definition slice_inner {A} (l : list A) : list A :=
  take (length l - 2) (drop 1 l).

(** The service name [setVS7Mode] hands to [docker-compose up -d]:
    [config.dockerContainer.split('-').slice(1, -1).join('-')]. *)
Definition serviceName (dockerContainer : string) : string :=
  Identity.join "-" (slice_inner (split "-" dockerContainer)).

(** *** Command line of [main] *)

Record Args := mkArgs {
  testIds : list string;
  gatewayUrl : string;
  dockerContainer : string;
  configPath : string;
  gatewayToken : option string;
}.

Definition defaultArgs : Args :=
  {| testIds := [];
     gatewayUrl := "ws://localhost:18789";
     dockerContainer := "openclaw-openclaw-gateway-1";
     configPath := "../data/openclaw-config/openclaw.json";
     gatewayToken := None |}.

(** [arg.split('=')[1]]; it is defined for every argument that contains
    [=], as all arguments are that reach it. *)
Definition argValue (arg : string) : string :=
  default "" (split "=" arg !! 1%nat).

Section Files.

(** [loadTestIdsByCategory]; [None] when it throws. *)
Variable loadTestIdsByCategory : string → option (list string).

(** One round of the loop over the arguments; [None] when the category
    cannot be loaded, which ends [main] with that error. *)
Definition parseArg (a : Args) (arg : string) : option Args :=
  if startsWith "--test-id=" arg then
    Some (mkArgs [argValue arg] (gatewayUrl a) (dockerContainer a) (configPath a)
            (gatewayToken a))
  else if startsWith "--test-ids=" arg then
    Some (mkArgs (split "," (argValue arg)) (gatewayUrl a) (dockerContainer a)
            (configPath a) (gatewayToken a))
  else if startsWith "--category=" arg then
    ids ← loadTestIdsByCategory (argValue arg);
    Some (mkArgs ids (gatewayUrl a) (dockerContainer a) (configPath a)
            (gatewayToken a))
  else if startsWith "--gateway-url=" arg then
    Some (mkArgs (testIds a) (argValue arg) (dockerContainer a) (configPath a)
            (gatewayToken a))
  else if startsWith "--docker=" arg then
    Some (mkArgs (testIds a) (gatewayUrl a) (argValue arg) (configPath a)
            (gatewayToken a))
  else if startsWith "--config=" arg then
    Some (mkArgs (testIds a) (gatewayUrl a) (dockerContainer a) (argValue arg)
            (gatewayToken a))
  else if startsWith "--token=" arg then
    Some (mkArgs (testIds a) (gatewayUrl a) (dockerContainer a) (configPath a)
            (Some (argValue arg)))
  else Some a.

Fixpoint parseArgs (a : Args) (args : list string) : option Args :=
  match args with
  | [] => Some a
  | arg :: rest =>
      match parseArg a arg with
      | Some a' => parseArgs a' rest
      | None => None
      end
  end.

(** What [main] goes on with: the token falls back to the environment
    ([env] is [process.env.OPENCLAW_GATEWAY_TOKEN]); without test ids it
    prints the usage and exits. *)
Inductive Startup :=
| Usage
| CategoryNotFound
| Start (a : Args).

Definition startup (env : option string) (args : list string) : Startup :=
  match parseArgs defaultArgs args with
  | None => CategoryNotFound
  | Some a =>
      let token :=
        match gatewayToken a with
        | Some t => if truthy t then Some t else env
        | None => env
        end in
      match testIds a with
      | [] => Usage
      | _ =>
          Start (mkArgs (testIds a) (gatewayUrl a) (dockerContainer a) (configPath a)
                   token)
      end
  end.

End Files.

(** The part of [s] before its first [c]. *)
Fixpoint before (c : ascii) (s : string) : string :=
  match s with
  | EmptyString => EmptyString
  | String x rest => if Ascii.eqb x c then EmptyString else String x (before c rest)
  end.

Fixpoint contains (c : ascii) (s : string) : bool :=
  match s with
  | EmptyString => false
  | String x rest => Ascii.eqb x c || contains c rest
  end.

End Runner.

(** An argument that sets the test ids. *)
Definition selects_tests (arg : string) : bool :=
  Runner.startsWith "--test-id=" arg || Runner.startsWith "--test-ids=" arg
  || Runner.startsWith "--category=" arg.

(** ** The configuration that [setVS7Mode] writes

    [setVS7Mode] parses the configuration file, updates the parsed object
    in place and writes it back with [JSON.stringify].  The model is the
    value written as a function of the value parsed.  The source is an ES
    module, so it runs in strict mode: creating a property on a number, a
    string or a boolean throws a [TypeError], as does any property access
    on [null].  A property put on an array under a name that is not an
    index is not part of what [JSON.stringify] writes. *)

Module VS7Config.

(** A parsed value; of a number the update only asks whether it is
    zero, and an object is the list of its members in their order. *)
Inductive JSON :=
| JNull
| JBool (b : bool)
| JNum (n : Z)
| JStr (s : string)
| JArr (items : list JSON)
| JObj (fields : list (string * JSON)).

(** Truthiness of a property value; [None] is [undefined]. *)
Definition truthy_json (v : option JSON) : bool :=
  match v with
  | None | Some JNull => false
  | Some (JBool b) => b
  | Some (JNum n) => negb (n =? 0)
  | Some (JStr s) => truthy s
  | Some (JArr _) | Some (JObj _) => true
  end.

Fixpoint lookup_field (k : string) (fields : list (string * JSON)) : option JSON :=
  match fields with
  | [] => None
  | (k', v) :: rest => if String.eqb k' k then Some v else lookup_field k rest
  end.

(** [obj[k] = v]: an existing key keeps its place, a new key goes last. *)
Fixpoint set_field (k : string) (v : JSON) (fields : list (string * JSON))
    : list (string * JSON) :=
  match fields with
  | [] => [(k, v)]
  | (k', v') :: rest =>
      if String.eqb k' k then (k', v) :: rest else (k', v') :: set_field k v rest
  end.

(** [delete obj[k]] (the keys of a parsed object are distinct) *)
Fixpoint delete_field (k : string) (fields : list (string * JSON))
    : list (string * JSON) :=
  match fields with
  | [] => []
  | (k', v') :: rest =>
      if String.eqb k' k then delete_field k rest
      else (k', v') :: delete_field k rest
  end.

(** The value that [ensure] works on: [v.k] if that is truthy, a fresh
    [{}] otherwise. *)
Definition child_of (k : string) (fields : list (string * JSON)) : JSON :=
  match lookup_field k fields with
  | Some c => if truthy_json (Some c) then c else JObj []
  | None => JObj []
  end.

(** [if (!v.k) v.k = {}] followed by [body], which works on [v.k] in
    place; [None] is a [TypeError]. *)
Definition ensure (k : string) (body : JSON → option JSON) (v : JSON) : option JSON :=
  match v with
  | JNull => None
  | JBool _ | JNum _ | JStr _ => None
  | JArr items => _ ← body (JObj []); Some (JArr items)
  | JObj fields =>
      child ← body (child_of k fields);
      Some (JObj (set_field k child fields))
  end.

(** [v.k = x] *)
Definition assign (k : string) (x : JSON) (v : JSON) : option JSON :=
  match v with
  | JObj fields => Some (JObj (set_field k x fields))
  | JArr items => Some (JArr items)
  | _ => None
  end.

(** [delete v.k] *)
Definition delete_prop (k : string) (v : JSON) : option JSON :=
  match v with
  | JObj fields => Some (JObj (delete_field k fields))
  | JNull => None
  | _ => Some v
  end.

Definition setContextManagement (enabled : bool) : JSON → option JSON :=
  ensure "agents"
    (ensure "defaults"
       (ensure "contextManagement" (assign "enabled" (JBool enabled)))).

Definition gatewayBody (gateway : JSON) : option JSON :=
  gateway ← delete_prop "auth" gateway;
  ensure "controlUi" (assign "dangerouslyDisableDeviceAuth" (JBool true)) gateway.

Definition openGateway : JSON → option JSON := ensure "gateway" gatewayBody.

(** The object [setVS7Mode] writes; [parsed] is [None] when the file
    cannot be read or parsed, and the update then starts from [{}]. *)
Definition written (enabled : bool) (parsed : option JSON) : option JSON :=
  cfg ← setContextManagement enabled (default (JObj []) parsed);
  openGateway cfg.

(** [body] under the keys of [path], each ensured in turn. *)
Fixpoint ensure_path (path : list string) (body : JSON → option JSON)
    : JSON → option JSON :=
  match path with
  | [] => body
  | k :: rest => ensure k (ensure_path rest body)
  end.

(** An object or an array. *)
Definition composite (v : JSON) : Prop :=
  match v with
  | JObj _ | JArr _ => True
  | _ => False
  end.

(** Running [G2] after [G1] gives what [G2] alone gives. *)
Definition absorbs (G2 G1 : JSON → option JSON) : Prop :=
  ∀ x y, G1 x = Some y → G2 y = G2 x.

Definition yields_composite (G : JSON → option JSON) : Prop :=
  ∀ x y, G x = Some y → composite y.

(** Reading along a path of keys through objects. *)
Fixpoint get_path (path : list string) (v : JSON) : option JSON :=
  match path with
  | [] => Some v
  | k :: rest =>
      match v with
      | JObj fields => lookup_field k fields ≫= get_path rest
      | _ => None
      end
  end.

(** Along [path], every value that is present and truthy is an object. *)
Fixpoint objects_along (path : list string) (v : JSON) : Prop :=
  match v with
  | JObj fields =>
      match path with
      | [] => True
      | k :: rest =>
          match lookup_field k fields with
          | Some c => truthy_json (Some c) = true → objects_along rest c
          | None => True
          end
      end
  | _ => False
  end.

(** [p] leaves [path] at some key before either of them ends. *)
Fixpoint off (path p : list string) : bool :=
  match path, p with
  | k :: path', a :: p' => negb (String.eqb a k) || off path' p'
  | _, _ => false
  end.

(** The update along [path] runs through: every value it meets is an
    object or an array ([child_of] replaces a missing or falsy one). *)
Fixpoint accepts (path : list string) (v : JSON) : bool :=
  match v with
  | JArr _ => true
  | JObj fields =>
      match path with
      | [] => true
      | k :: rest =>
          match lookup_field k fields with
          | Some c => if truthy_json (Some c) then accepts rest c else true
          | None => true
          end
      end
  | _ => false
  end.

(** [G] leaves the value at every path of [P] as it was. *)
Definition preserves (G : JSON → option JSON) (P : list string → Prop) : Prop :=
  ∀ x y, G x = Some y → ∀ p, P p → get_path p y = get_path p x.

Definition below (k : string) (P : list string → Prop) (p : list string) : Prop :=
  match p with
  | [] => False
  | a :: p' => a ≠ k ∨ P p'
  end.

(** [off] in terms of [below]. *)
Fixpoint off_prop (path : list string) : list string → Prop :=
  match path with
  | [] => λ _, False
  | k :: path' => below k (off_prop path')
  end.

Definition enabledPath : list string :=
  ["agents"; "defaults"; "contextManagement"; "enabled"].
Definition authPath : list string := ["gateway"; "auth"].
Definition deviceAuthPath : list string :=
  ["gateway"; "controlUi"; "dangerouslyDisableDeviceAuth"].

(** What is written when there is no configuration file. *)
Definition freshConfig (enabled : bool) : JSON :=
  JObj [("agents",
         JObj [("defaults",
                JObj [("contextManagement", JObj [("enabled", JBool enabled)])])]);
        ("gateway",
         JObj [("controlUi",
                JObj [("dangerouslyDisableDeviceAuth", JBool true)])])].

(** A configuration with a gateway token and an agent list. *)
Definition storedConfig : JSON :=
  JObj [("gateway",
         JObj [("port", JNum 18789);
               ("auth", JObj [("token", JStr "secret")]);
               ("controlUi", JNull)]);
        ("agents", JObj [("list", JArr [JStr "main"])])].

End VS7Config.

(** ** The automated runner's client

    The second [OpenClawClient] of the repository: it resolves [connect]
    when the socket opens, and its [sendPrompt] collects the text of the
    chat events itself. *)

Module Automated.

(** [ChatEvent.usage] *)
Record Usage := mkUsage {
  input_tokens : option Z;
  output_tokens : option Z;
  cache_creation_input_tokens : option Z;
  cache_read_input_tokens : option Z;
}.

Record ChatEvent := mkChatEvent {
  runId : option string;
  state : string;
  message : option ChatMessage;
  errorMessage : option string;
  usage : option Usage;
}.

(** An inbound frame after [JSON.parse], with the members the listener
    reads: [ok] is [None] when the member is undefined and otherwise its
    truthiness, [id] is the empty string when absent, [result_runId] is
    [frame.result?.runId], [error_message] is [frame.error?.message]. *)
Record Frame := mkFrame {
  ok : option bool;
  id : string;
  result_runId : option string;
  error_message : option string;
  event : string;
  data : option ChatEvent;
}.

Record Tokens := mkTokens {
  total : Z;
  input : option Z;
  output : option Z;
  cacheCreation : option Z;
  cacheRead : option Z;
}.

Record Result := mkResult {
  response : string;
  tokens : Tokens;
  timeMs : Z;
}.

(** State of the promise a [sendPrompt] call returns. *)
Inductive Outcome :=
| Waiting
| Resolved (r : Result)
| Failed (msg : string).

(** What the client writes to the socket. *)
Inductive Request :=
| ConnectFrame (id : string)
| ChatSend (id sessionKey prompt idempotencyKey : string).

(** The variables one [sendPrompt] call closes over. *)
Record Call := mkCall {
  startTime : Z;
  fullResponse : string;
  call_runId : option string;
  outcome : Outcome;
}.

(** The client; the handler maps hold the number of the call whose
    closure is registered, [timers] the due time of each call's timer
    that has not fired yet. *)
Record Client := mkClient {
  ws : bool;
  connected : bool;
  sessionKey : string;
  messageHandlers : gmap string nat;
  eventHandlers : gmap string nat;
  calls : list Call;
  timers : gmap nat Z;
  outbox : list Request;
  next_uuid : nat;
}.

Definition set_ws (b : bool) (st : Client) : Client :=
  mkClient b (connected st) (sessionKey st) (messageHandlers st) (eventHandlers st)
    (calls st) (timers st) (outbox st) (next_uuid st).

Definition set_connected (b : bool) (st : Client) : Client :=
  mkClient (ws st) b (sessionKey st) (messageHandlers st) (eventHandlers st)
    (calls st) (timers st) (outbox st) (next_uuid st).

Definition set_messageHandlers (m : gmap string nat) (st : Client) : Client :=
  mkClient (ws st) (connected st) (sessionKey st) m (eventHandlers st)
    (calls st) (timers st) (outbox st) (next_uuid st).

Definition set_eventHandlers (m : gmap string nat) (st : Client) : Client :=
  mkClient (ws st) (connected st) (sessionKey st) (messageHandlers st) m
    (calls st) (timers st) (outbox st) (next_uuid st).

Definition set_calls (l : list Call) (st : Client) : Client :=
  mkClient (ws st) (connected st) (sessionKey st) (messageHandlers st)
    (eventHandlers st) l (timers st) (outbox st) (next_uuid st).

Definition set_timers (m : gmap nat Z) (st : Client) : Client :=
  mkClient (ws st) (connected st) (sessionKey st) (messageHandlers st)
    (eventHandlers st) (calls st) m (outbox st) (next_uuid st).

Definition set_outbox (o : list Request) (st : Client) : Client :=
  mkClient (ws st) (connected st) (sessionKey st) (messageHandlers st)
    (eventHandlers st) (calls st) (timers st) o (next_uuid st).

Definition set_next_uuid (n : nat) (st : Client) : Client :=
  mkClient (ws st) (connected st) (sessionKey st) (messageHandlers st)
    (eventHandlers st) (calls st) (timers st) (outbox st) n.

Definition set_fullResponse (s : string) (call : Call) : Call :=
  mkCall (startTime call) s (call_runId call) (outcome call).

Definition set_call_runId (r : option string) (call : Call) : Call :=
  mkCall (startTime call) (fullResponse call) r (outcome call).

Definition set_outcome (o : Outcome) (call : Call) : Call :=
  mkCall (startTime call) (fullResponse call) (call_runId call) o.

(** [resolve]/[reject] of a call's promise: only the first one counts. *)
Definition settle (c : nat) (o : Outcome) (st : Client) : Client :=
  set_calls
    (alter (λ call, match outcome call with
                    | Waiting => set_outcome o call
                    | _ => call
                    end) c (calls st)) st.

(** [if (runId) this.eventHandlers.delete(runId)] *)
Definition forget (runId : option string) (st : Client) : Client :=
  match runId with
  | Some r => if truthy r then set_eventHandlers (delete r (eventHandlers st)) st
              else st
  | None => st
  end.

Definition requestTimeoutMs : Z := 300000.

(** [event.message] as a condition. *)
Definition truthy_message (m : option ChatMessage) : bool :=
  match m with
  | Some (MessageString s) => truthy s
  | Some (MessageObject _) => true
  | None => false
  end.

(** One round of the loop over the content blocks. *)
Definition accumulate_block (fullResponse : string) (block : Block) : string :=
  if String.eqb (block_type block) "text" then
    match block_text block with
    | Some t => if truthy t then fullResponse +:+ t else fullResponse
    | None => fullResponse
    end
  else fullResponse.

(** The three shapes of a delta's message. *)
Definition accumulate (fullResponse : string) (m : ChatMessage) : string :=
  match m with
  | MessageString s => fullResponse +:+ s
  | MessageObject (Some (ContentString s)) =>
      if truthy s then fullResponse +:+ s else fullResponse
  | MessageObject (Some (ContentBlocks blocks)) =>
      foldl accumulate_block fullResponse blocks
  | MessageObject _ => fullResponse
  end.

Definition final_tokens (finalUsage : option Usage) : Tokens :=
  {| total := or_zero (finalUsage ≫= input_tokens)
              + or_zero (finalUsage ≫= output_tokens);
     input := finalUsage ≫= input_tokens;
     output := finalUsage ≫= output_tokens;
     cacheCreation := finalUsage ≫= cache_creation_input_tokens;
     cacheRead := finalUsage ≫= cache_read_input_tokens |}.

(** [eventHandler] of call [c]. *)
Definition eventHandler (c : nat) (now : Z) (event : ChatEvent) (st : Client)
    : Client :=
  match calls st !! c with
  | None => st
  | Some call =>
      if String.eqb (state event) "delta" && truthy_message (message event) then
        match message event with
        | Some m =>
            set_calls (<[c := set_fullResponse (accumulate (fullResponse call) m) call]>
                         (calls st)) st
        | None => st
        end
      else if String.eqb (state event) "final" then
        let endTime := now in
        let st := forget (call_runId call) st in
        settle c (Resolved {| response := fullResponse call;
                              tokens := final_tokens (usage event);
                              timeMs := endTime - startTime call |}) st
      else if String.eqb (state event) "error" then
        let st := forget (call_runId call) st in
        settle c (Failed (or_string (errorMessage event) "Unknown error")) st
      else if String.eqb (state event) "aborted" then
        let st := forget (call_runId call) st in
        settle c (Failed "Request aborted") st
      else st
  end.

(** The handler call [c] registers under its message id. *)
Definition messageHandler (c : nat) (response : Frame) (st : Client) : Client :=
  if negb (default false (ok response)) then
    settle c (Failed (or_string (error_message response) "Request failed")) st
  else
    let st := set_calls (alter (set_call_runId (result_runId response)) c (calls st))
                st in
    match result_runId response with
    | Some r => if truthy r then set_eventHandlers (<[r := c]> (eventHandlers st)) st
                else st
    | None => st
    end.

(** The socket's message listener, for a frame that parses. *)
Definition on_message (now : Z) (frame : Frame) (st : Client) : Client :=
  let st :=
    if bool_decide (is_Some (ok frame)) && truthy (id frame) then
      match messageHandlers st !! id frame with
      | Some c =>
          let st := messageHandler c frame st in
          set_messageHandlers (delete (id frame) (messageHandlers st)) st
      | None => st
      end
    else st in
  if String.eqb (event frame) "chat" then
    match data frame with
    | Some chatEvent =>
        match runId chatEvent ≫= λ r, eventHandlers st !! r with
        | Some c => eventHandler c now chatEvent st
        | None => st
        end
    | None => st
    end
  else st.

(** [sendPrompt]; the result is the number of the call, whose promise is
    already rejected when the client is not connected. *)
Definition sendPrompt (prompt : string) (now : Z) (st : Client) : nat * Client :=
  let c := length (calls st) in
  if negb (ws st) || negb (connected st) then
    (c, set_calls (calls st ++ [mkCall now "" None (Failed "Not connected to OpenClaw")])
          st)
  else
    let startTime := now in
    let messageId := uuid (next_uuid st) in
    let idempotencyKey := uuid (S (next_uuid st)) in
    let st := set_next_uuid (S (S (next_uuid st))) st in
    let st := set_calls (calls st ++ [mkCall startTime "" None Waiting]) st in
    let st := set_messageHandlers (<[messageId := c]> (messageHandlers st)) st in
    let st := set_outbox
                (outbox st ++ [ChatSend messageId (sessionKey st) prompt idempotencyKey])
                st in
    let st := set_timers (<[c := now + requestTimeoutMs]> (timers st)) st in
    (c, st).

(** The callback of the timer of call [c]. *)
Definition on_timeout (c : nat) (st : Client) : Client :=
  match calls st !! c with
  | None => st
  | Some call => settle c (Failed "Request timeout") (forget (call_runId call) st)
  end.

Definition disconnect (st : Client) : Client :=
  if ws st then set_ws false st else st.

(** What can happen to a client: a call of one of its methods, a frame
    from the gateway (one that parses, or one on which [JSON.parse]
    throws), the timer of a call, the socket's close event. *)
Inductive Input :=
| CallSendPrompt (prompt : string)
| CallDisconnect
| Message (frame : Frame)
| Unparsable
| TimerFires (c : nat)
| Closed.

(** One turn of the event loop at clock reading [now]; a timer fires
    only once and not before it is due. *)
Definition step (now : Z) (i : Input) (st : Client) : option Client :=
  match i with
  | CallSendPrompt prompt => Some (sendPrompt prompt now st).2
  | CallDisconnect => Some (disconnect st)
  | Message frame => Some (on_message now frame st)
  | Unparsable => Some st
  | TimerFires c =>
      match timers st !! c with
      | Some due =>
          if due <=? now then
            Some (on_timeout c (set_timers (delete c (timers st)) st))
          else None
      | None => None
      end
  | Closed => Some (set_connected false st)
  end.

Fixpoint run (trace : list (Z * Input)) (st : Client) : option Client :=
  match trace with
  | [] => Some st
  | (now, i) :: rest =>
      match step now i st with
      | Some st' => run rest st'
      | None => None
      end
  end.

(** The client after [connect] and the socket's [open] event, which
    marks it connected and sends the connect frame. *)
Definition connected_client (key : string) : Client :=
  {| ws := true; connected := true; sessionKey := key;
     messageHandlers := ∅; eventHandlers := ∅; calls := []; timers := ∅;
     outbox := [ConnectFrame (uuid 0)]; next_uuid := 1 |}.

(** *** Frames *)

Definition chatEventFrame (ev : ChatEvent) : Frame :=
  {| ok := None; id := ""; result_runId := None; error_message := None;
     event := "chat"; data := Some ev |}.

Definition deltaEvent (r : option string) (m : option ChatMessage) : ChatEvent :=
  {| runId := r; state := "delta"; message := m; errorMessage := None;
     usage := None |}.

Definition finalEvent (r : string) (u : option Usage) : ChatEvent :=
  {| runId := Some r; state := "final"; message := None; errorMessage := None;
     usage := u |}.



Definition responseFrame (id : string) (ok : bool) (r err : option string) : Frame :=
  {| ok := Some ok; id := id; result_runId := r; error_message := err;
     event := ""; data := None |}.

(** *** The text of a message, as a function of the message alone *)

Definition block_text_of (block : Block) : string :=
  if String.eqb (block_type block) "text" then default "" (block_text block)
  else "".

Definition message_text (m : option ChatMessage) : string :=
  match m with
  | Some (MessageString s) => s
  | Some (MessageObject (Some (ContentString s))) => s
  | Some (MessageObject (Some (ContentBlocks blocks))) =>
      foldr (λ block text, block_text_of block +:+ text) "" blocks
  | _ => ""
  end.

(** The text of the deltas in [events] that belong to run [r]. *)
Fixpoint run_text (r : string) (events : list (Z * ChatEvent)) : string :=
  match events with
  | [] => ""
  | (_, ev) :: rest =>
      (if bool_decide (runId ev = Some r) && String.eqb (state ev) "delta"
       then message_text (message ev) else "")
      +:+ run_text r rest
  end.

Definition chatEvents (events : list (Z * ChatEvent)) : list (Z * Input) :=
  map (λ e, (e.1, Message (chatEventFrame e.2))) events.

(** A run's events go on: an event of run [r] is not one that ends the
    call. *)
Definition streaming (r : string) (ev : ChatEvent) : bool :=
  negb (bool_decide (runId ev = Some r))
  || negb (String.eqb (state ev) "final" || String.eqb (state ev) "error"
           || String.eqb (state ev) "aborted").

(** A fresh client on which [sendPrompt] has been called at [t0]. *)
Definition promptSent (key prompt : string) (t0 : Z) : Client :=
  {| ws := true; connected := true; sessionKey := key;
     messageHandlers := <[uuid 1 := 0%nat]> ∅; eventHandlers := ∅;
     calls := [mkCall t0 "" None Waiting];
     timers := <[0%nat := t0 + requestTimeoutMs]> ∅;
     outbox := [ConnectFrame (uuid 0); ChatSend (uuid 1) key prompt (uuid 2)];
     next_uuid := 3 |}.

(** The same client once the [chat.send] response has named the run [r]
    and the text [text] has been collected; [o] is the state of the
    promise, [handlers] the event handler registry. *)
Definition promptRunning (key prompt : string) (t0 : Z) (r text : string)
    (o : Outcome) (handlers : gmap string nat) : Client :=
  {| ws := true; connected := true; sessionKey := key;
     messageHandlers := ∅; eventHandlers := handlers;
     calls := [mkCall t0 text (Some r) o];
     timers := <[0%nat := t0 + requestTimeoutMs]> ∅;
     outbox := [ConnectFrame (uuid 0); ChatSend (uuid 1) key prompt (uuid 2)];
     next_uuid := 3 |}.



(** From [st] to [st'] no call is added, no timer changes, and each call
    keeps its start time and does not become pending again. *)
Record advances (st st' : Client) : Prop := {
  advances_length : length (calls st') = length (calls st);
  advances_timers : timers st' = timers st;
  advances_calls : ∀ c call', calls st' !! c = Some call' →
    ∃ call, calls st !! c = Some call
            ∧ startTime call' = startTime call
            ∧ (outcome call' = Waiting → outcome call = Waiting);
}.

(** Every pending call has its timer armed, and only calls have timers. *)
Record timed (st : Client) : Prop := {
  timed_pending : ∀ c call, calls st !! c = Some call → outcome call = Waiting →
    timers st !! c = Some (startTime call + requestTimeoutMs);
  timed_calls : ∀ c, is_Some (timers st !! c) → (c < length (calls st))%nat;
}.

(** Three deltas of run [run-1], one of another run between them, and
    an early delta that arrives before the response. *)
Definition sampleDeltas : list (Z * ChatEvent) :=
  [ (3, deltaEvent (Some "run-1") (Some (MessageString "Hel")));
    (4, deltaEvent (Some "run-2") (Some (MessageString "???")));
    (5, deltaEvent (Some "run-1")
          (Some (MessageObject (Some (ContentString "lo, ")))));
    (6, deltaEvent (Some "run-1")
          (Some (MessageObject
                   (Some (ContentBlocks
                            [ {| block_type := "text"; block_text := Some "wor" |};
                              {| block_type := "tool_use"; block_text := Some "x" |};
                              {| block_type := "text"; block_text := Some "ld" |} ]))))) ].

Definition earlyDeltas : list (Z * ChatEvent) :=
  [ (1, deltaEvent (Some "run-1") (Some (MessageString "lost"))) ].

Definition sampleUsage : Usage :=
  {| input_tokens := Some 120; output_tokens := Some 30;
     cache_creation_input_tokens := None; cache_read_input_tokens := Some 7 |}.

End Automated.

(** ** Test prompts on disk *)

Module Prompts.

(** An entry of the [test-prompts] directory as [loadTestPrompt] sees it:
    its name, whether [stat] says it is a directory, and what [readdir]
    lists in it, in the order of the listing. *)
Record Category := mkCategory {
  name : string;
  isDirectory : bool;
  files : list string;
}.

(** [files.find((f) => f.startsWith(testId))] *)
Fixpoint find_test (testId : string) (files : list string) : option string :=
  match files with
  | [] => None
  | f :: rest => if Runner.startsWith testId f then Some f else find_test testId rest
  end.

(** [loadTestPrompt] up to the file it reads: the category and the file
    name, or [None] where it throws [Test ... not found]. *)
Fixpoint loadTestPrompt (testId : string) (categories : list Category)
    : option (string * string) :=
  match categories with
  | [] => None
  | category :: rest =>
      if negb (isDirectory category) then loadTestPrompt testId rest
      else
        match find_test testId (files category) with
        | Some testFile =>
            if truthy testFile then Some (name category, testFile)
            else loadTestPrompt testId rest
        | None => loadTestPrompt testId rest
        end
  end.

(** [s.endsWith(suffix)] *)
Fixpoint endsWith (suffix s : string) : bool :=
  String.eqb s suffix
  || match s with
     | EmptyString => false
     | String _ rest => endsWith suffix rest
     end.

Definition is_digit (c : ascii) : bool :=
  (48 <=? nat_of_ascii c)%nat && (nat_of_ascii c <=? 57)%nat.

(** The longest prefix of digits, and what follows it. *)
Fixpoint digits (s : string) : string * string :=
  match s with
  | EmptyString => (EmptyString, EmptyString)
  | String c rest =>
      if is_digit c then (String c (digits rest).1, (digits rest).2)
      else (EmptyString, s)
  end.

(** [file.match(/^(\d+\.\d+)/)], the first group. *)
Definition matchId (file : string) : option string :=
  let major := (digits file).1 in
  match (digits file).2 with
  | String "." rest =>
      let minor := (digits rest).1 in
      if truthy major && truthy minor then Some (major +:+ String "." minor)
      else None
  | _ => None
  end.

(** The ids [loadTestIdsByCategory] collects from a listing, before it
    sorts them. *)
Fixpoint collectIds (files : list string) : list string :=
  match files with
  | [] => []
  | file :: rest =>
      if endsWith ".json" file then
        match matchId file with
        | Some id => id :: collectIds rest
        | None => collectIds rest
        end
      else collectIds rest
  end.

(** No file of [files] has a name that starts with [testId]. *)
Definition unmatched (testId : string) (files : list string) : Prop :=
  Forall (λ f, Runner.startsWith testId f = false) files.

(** A [test-prompts] directory: a stray file, and a category in which
    the file of test 4.10 is listed before that of test 4.1. *)
Definition sampleCategories : list Category :=
  [ mkCategory "README.md" false [];
    mkCategory "homestead-farm-management" true
      ["4.10-irrigation.json"; "4.1-soil.json"; "notes.txt"] ].

End Prompts.

(** ** Waiting for the gateway *)

Module Gateway.

(** What the socket of one connection attempt does first, and how many
    milliseconds after it was created. *)
Inductive Attempt :=
| Opens (after : Z)
| Errors (after : Z)
| Silent.

Definition attemptTimeoutMs : Z := 3000.
Definition retryDelayMs : Z := 1000.

(** The promise of one attempt: whether it resolves, and after how long
    it settles.  The 3 s timer settles it unless the socket was
    faster. *)
Definition attempt (a : Attempt) : bool * Z :=
  match a with
  | Opens after =>
      if after <? attemptTimeoutMs then (true, after) else (false, attemptTimeoutMs)
  | Errors after =>
      if after <? attemptTimeoutMs then (false, after) else (false, attemptTimeoutMs)
  | Silent => (false, attemptTimeoutMs)
  end.

Inductive Outcome :=
| Ready (at_ : Z)
| NotReady (at_ : Z).

(** The loop of [waitForGateway], entered at clock reading [now]; the
    list says what each attempt meets, and [None] means that the list
    ended before the loop did. *)
Fixpoint loop (startTime timeoutMs now : Z) (attempts : list Attempt)
    : option Outcome :=
  if now - startTime <? timeoutMs then
    match attempts with
    | [] => None
    | a :: rest =>
        if (attempt a).1 then Some (Ready (now + (attempt a).2))
        else loop startTime timeoutMs (now + (attempt a).2 + retryDelayMs) rest
    end
  else Some (NotReady now).

Definition waitForGateway (timeoutMs startTime : Z) (attempts : list Attempt)
    : option Outcome :=
  loop startTime timeoutMs startTime attempts.

(** No attempt reports anything before it was made. *)
Definition causal (a : Attempt) : Prop :=
  match a with
  | Opens after | Errors after => 0 ≤ after
  | Silent => True
  end.

(** A gateway that refuses two connections, hangs once and then
    accepts. *)
Definition sampleAttempts : list Attempt :=
  [Errors 12; Errors 8; Silent; Opens 40].

End Gateway.

(** * Properties *)


Ltac proj :=
  cbn [config ws connected messageHandlers eventHandlers accumulatedResponse
       timers promises reactions microtasks next_timer next_promise next_uuid
       outbox set_ws set_connected set_messageHandlers set_eventHandlers
       set_accumulatedResponse set_timers set_promises set_reactions
       set_microtasks set_next_timer set_next_promise set_next_uuid set_outbox
       fst snd new_promise setTimeout randomUUID clearTimeout].
Tactic Notation "proj" "in" hyp(H) :=
  cbn [config ws connected messageHandlers eventHandlers accumulatedResponse
       timers promises reactions microtasks next_timer next_promise next_uuid
       outbox set_ws set_connected set_messageHandlers set_eventHandlers
       set_accumulatedResponse set_timers set_promises set_reactions
       set_microtasks set_next_timer set_next_promise set_next_uuid set_outbox
       fst snd new_promise setTimeout randomUUID clearTimeout] in H.

(** ** Well-formed states and stability of settled promises *)

Lemma uuid_inj m n : uuid m = uuid n → m = n.
Proof.
  unfold uuid. intros H. apply (inj (String.app "uuid-")) in H.
  by apply (inj pretty) in H.
Qed.

Lemma good_refl st : good st st.
Proof. intros H. split; [done | by intros p o]. Qed.

Lemma good_trans st1 st2 st3 : good st1 st2 → good st2 st3 → good st1 st3.
Proof.
  intros H12 H23 H1. destruct (H12 H1) as [H2 S12]. destruct (H23 H2) as [H3 S23].
  split; [done |]. intros p o Hp Ho. eauto.
Qed.

Lemma good_same st st' :
  promises st' = promises st → reactions st' = reactions st →
  timers st' = timers st → messageHandlers st' = messageHandlers st →
  eventHandlers st' = eventHandlers st →
  next_promise st' = next_promise st → next_timer st' = next_timer st →
  next_uuid st' = next_uuid st → good st st'.
Proof.
  intros Hp Hr Ht Hm He Hnp Hnt Hnu [W1 W2 W3 W4 W5]. split.
  - split; intros x; rewrite ?Hp, ?Hr, ?Ht, ?Hm, ?He, ?Hnp, ?Hnt, ?Hnu; eauto.
  - intros p o. by rewrite Hp.
Qed.

Lemma good_new_promise st : good st (new_promise st).2.
Proof.
  intros [W1 W2 W3 W4 W5]. simpl. split.
  - split; simpl; intros x Hx; eauto with lia.
    rewrite lookup_insert_ne by lia. auto with lia.
  - intros p o Hp _. simpl.
    rewrite lookup_insert_ne; [done |]. intros <-.
    rewrite W1 in Hp by lia. done.
Qed.

Lemma good_settle p o st : good st (settle p o st).
Proof.
  intros [W1 W2 W3 W4 W5]. unfold settle.
  destruct (promises st !! p) as [[| |]|] eqn:Hp; try by apply good_refl.
  assert (Hlt : (p < next_promise st)%nat).
  { destruct (decide (p < next_promise st)%nat); [done |].
    rewrite W1 in Hp by lia. done. }
  destruct (reactions st !! p); simpl; split.
  - split; simpl; intros x Hx; eauto.
    + rewrite lookup_insert_ne by lia. auto.
    + rewrite lookup_delete_ne by lia. auto.
  - intros p' o' Hp' Ho'. simpl. rewrite lookup_insert_ne; [done | congruence].
  - split; simpl; intros x Hx; eauto.
    rewrite lookup_insert_ne by lia. auto.
  - intros p' o' Hp' Ho'. simpl. rewrite lookup_insert_ne; [done | congruence].
Qed.

Lemma good_await p k st : good st (await p k st).
Proof.
  intros [W1 W2 W3 W4 W5]. unfold await.
  destruct (promises st !! p) as [[| |]|] eqn:Hp;
    try (by apply good_refl); try (by apply good_same).
  assert (Hlt : (p < next_promise st)%nat).
  { destruct (decide (p < next_promise st)%nat); [done |].
    rewrite W1 in Hp by lia. done. }
  split; [| by intros p' o'].
  split; simpl; intros x Hx; eauto.
  rewrite lookup_insert_ne by lia. auto.
Qed.

Lemma good_setTimeout cb delay now st : good st (setTimeout cb delay now st).2.
Proof.
  intros [W1 W2 W3 W4 W5]. split; [| by intros p o].
  split; simpl; intros x Hx; eauto with lia.
  rewrite lookup_insert_ne by lia. auto with lia.
Qed.

Lemma good_clearTimeout t st : good st (clearTimeout t st).
Proof.
  intros [W1 W2 W3 W4 W5]. split; [| by intros p o].
  split; simpl; intros x Hx; eauto.
  rewrite lookup_delete. case_decide; auto.
Qed.

Lemma good_randomUUID st : good st (randomUUID st).2.
Proof.
  intros [W1 W2 W3 W4 W5]. split; [| by intros p o].
  split; simpl; intros x Hx; eauto with lia.
Qed.

Lemma good_register_handler n h st :
  (n < next_uuid st)%nat →
  good st (set_messageHandlers (<[uuid n := h]> (messageHandlers st)) st).
Proof.
  intros Hn [W1 W2 W3 W4 W5]. split; [| by intros p o].
  split; simpl; intros x Hx; eauto.
  rewrite lookup_insert_ne; [auto |]. intros E%uuid_inj. lia.
Qed.

Lemma good_delete_handler k st :
  good st (set_messageHandlers (delete k (messageHandlers st)) st).
Proof.
  intros [W1 W2 W3 W4 W5]. split; [| by intros p o].
  split; simpl; intros x Hx; eauto.
  rewrite lookup_delete. case_decide; auto.
Qed.

Lemma good_delete_eventHandler r m st :
  m = eventHandlers st → good st (set_eventHandlers (delete r m) st).
Proof.
  intros -> [W1 W2 W3 W4 W5]. split; [| by intros p o].
  split; simpl; auto. intros r' h. rewrite lookup_delete.
  case_decide; [done | apply W5].
Qed.

Lemma good_register_eventHandler r h m st :
  truthy r = true → m = eventHandlers st →
  good st (set_eventHandlers (<[r := h]> m) st).
Proof.
  intros Hr -> [W1 W2 W3 W4 W5]. split; [| by intros p o].
  split; simpl; auto. intros r' h'. rewrite lookup_insert.
  case_decide; [by subst | apply W5].
Qed.

Lemma good_set_accumulatedResponse s st : good st (set_accumulatedResponse s st).
Proof. by apply good_same. Qed.

Lemma good_set_outbox o st : good st (set_outbox o st).
Proof. by apply good_same. Qed.

Lemma good_set_microtasks q st : good st (set_microtasks q st).
Proof. by apply good_same. Qed.

Lemma good_sendRequest method params timeoutMs now st :
  good st (sendRequest method params timeoutMs now st).2.
Proof.
  unfold sendRequest.
  pose proof (good_new_promise st) as G1.
  destruct (new_promise st) as [p st1].
  destruct (negb (ws st1 && connected st1)).
  { eapply good_trans; [exact G1 | apply good_settle]. }
  pose proof (good_randomUUID st1) as G2.
  destruct (randomUUID st1) as [messageId st2] eqn:E2.
  pose proof (good_setTimeout (RequestTimeout messageId method p) timeoutMs now st2) as G3.
  destruct (setTimeout _ timeoutMs now st2) as [timeout st3] eqn:E3.
  injection E2 as <- <-. injection E3 as <- <-.
  eapply good_trans; [| apply good_set_outbox].
  eapply good_trans; [| apply good_register_handler; simpl; lia].
  eauto using good_trans.
Qed.

Lemma good_resetSession now st : good st (resetSession now st).2.
Proof.
  unfold resetSession.
  pose proof (good_new_promise st) as G1.
  destruct (new_promise st) as [self st1].
  pose proof (good_sendRequest "sessions.reset"
    (SessionsResetParams (cfg_sessionKey (config st1))) requestTimeoutDefault now st1) as G2.
  destruct (sendRequest _ _ _ now st1) as [q st2]. simpl in *.
  eapply good_trans; [| apply good_await]. eauto using good_trans.
Qed.

Lemma good_getSessionTokens now st : good st (getSessionTokens now st).2.
Proof.
  unfold getSessionTokens.
  pose proof (good_new_promise st) as G1.
  destruct (new_promise st) as [self st1].
  pose proof (good_sendRequest "sessions.list"
    (SessionsListParams "main") requestTimeoutDefault now st1) as G2.
  destruct (sendRequest _ _ _ now st1) as [q st2]. simpl in *.
  eapply good_trans; [| apply good_await]. eauto using good_trans.
Qed.

Lemma good_waitForAgent runId now st :
  truthy runId = true → good st (waitForAgent runId now st).2.
Proof.
  intros Hr. unfold waitForAgent.
  pose proof (good_new_promise st) as G1.
  destruct (new_promise st) as [w st1].
  pose proof (good_setTimeout (AgentWaitTimeout runId w)
    (agentWaitTimeoutMs (config st1)) now st1) as G2.
  destruct (setTimeout _ _ now st1) as [timeout st2].
  match goal with |- context [sendRequest ?m ?a ?t now ?s] =>
    pose proof (good_sendRequest m a t now s) as G3;
    destruct (sendRequest m a t now s) as [q st3] end.
  simpl in *.
  eapply good_trans; [| apply good_await].
  eapply good_trans; [| exact G3].
  eapply good_trans; [| by apply good_register_eventHandler].
  eauto using good_trans.
Qed.

Lemma good_sendPrompt prompt now st : good st (sendPrompt prompt now st).2.
Proof.
  unfold sendPrompt.
  pose proof (good_new_promise st) as G1.
  destruct (new_promise st) as [self st1].
  pose proof (good_getSessionTokens now st1) as G2.
  destruct (getSessionTokens now st1) as [g st2]. simpl in *.
  eapply good_trans; [| apply good_await]. eauto using good_trans.
Qed.

Lemma good_call_msg_handler h response st : good st (call_msg_handler h response st).
Proof.
  unfold call_msg_handler, resolve, reject.
  destruct (negb (ok response));
    (eapply good_trans; [apply good_clearTimeout | apply good_settle]).
Qed.

Lemma good_run_timer cb st : good st (run_timer cb st).
Proof.
  destruct cb as [messageId method p | runId w]; simpl; unfold reject.
  - eapply good_trans; [apply good_delete_handler | apply good_settle].
  - eapply good_trans; [by apply good_delete_eventHandler | apply good_settle].
Qed.

Lemma good_fire_timer t cb st :
  good st (run_timer cb (set_timers (delete t (timers st)) st)).
Proof.
  eapply good_trans; [apply (good_clearTimeout t) | apply good_run_timer].
Qed.

Lemma good_append_block st block : good st (append_block st block).
Proof.
  unfold append_block, append_response.
  repeat case_match; try apply good_refl; apply good_set_accumulatedResponse.
Qed.

Lemma good_append_blocks blocks : ∀ st, good st (foldl append_block st blocks).
Proof.
  induction blocks as [| b blocks IH]; intros st; simpl; [apply good_refl |].
  eapply good_trans; [apply good_append_block | apply IH].
Qed.

Lemma good_chatHandler ev st : good st (chatHandler ev st).
Proof.
  unfold chatHandler, append_response.
  repeat case_match;
    first [apply good_refl | apply good_set_accumulatedResponse | apply good_append_blocks].
Qed.

Lemma good_call_ev_handler h : ∀ ev st, good st (completed (call_ev_handler h ev st)).
Proof.
  revert h. fix IH 1. intros [runId timeout w | [h' |]] ev st; simpl.
  - unfold resolve, reject. repeat case_match; simpl; try apply good_refl.
    + eapply good_trans; [| apply good_settle].
      eapply good_trans; [apply good_clearTimeout | by apply good_delete_eventHandler].
    + eapply good_trans; [| apply good_settle].
      eapply good_trans; [apply good_clearTimeout | by apply good_delete_eventHandler].
  - eapply good_trans; [apply good_chatHandler | apply IH].
  - apply good_chatHandler.
Qed.

Lemma good_handleFrame frame st : good st (completed (handleFrame frame st)).
Proof.
  unfold handleFrame.
  destruct (String.eqb (f_type frame) "res" && truthy (f_id frame)).
  { destruct (messageHandlers st !! f_id frame) as [handler |]; simpl; [| apply good_refl].
    eapply good_trans; [apply good_call_msg_handler | apply good_delete_handler]. }
  destruct (String.eqb (f_type frame) "event" && truthy (f_event frame));
    [| apply good_refl].
  assert (G1 : good st (completed (handle_chat frame st))).
  { unfold handle_chat. repeat case_match; simpl; try apply good_refl.
    apply good_call_ev_handler. }
  destruct (handle_chat frame st) as [st1 | st1]; simpl in G1; [| exact G1].
  eapply good_trans; [exact G1 |].
  unfold handle_agent. repeat case_match; simpl; try apply good_refl.
  apply good_call_ev_handler.
Qed.

Lemma good_run_reaction now k o st : good st (run_reaction now k o st).
Proof.
  destruct k; simpl; unfold resolve, reject.
  - destruct o; [apply good_refl | |].
    + eapply good_trans; [| apply good_settle].
      eapply good_trans; [apply good_clearTimeout | by apply good_delete_eventHandler].
    + destruct (eventHandlers st !! runId); [| apply good_refl].
      eapply good_trans; [| apply good_settle].
      eapply good_trans; [apply good_clearTimeout | by apply good_delete_eventHandler].
  - destruct o; first [apply good_refl | apply good_settle].
  - destruct o; first [apply good_refl | apply good_settle].
  - destruct o; [apply good_refl | | apply good_settle].
    match goal with |- context [sendRequest ?m ?a ?t now ?s] =>
      pose proof (good_sendRequest m a t now s) as G;
      destruct (sendRequest m a t now s) as [q st3] end.
    eapply good_trans; [| apply good_await].
    eapply good_trans; [| exact G].
    eapply good_trans; [apply (good_set_accumulatedResponse "") |].
    eapply good_trans; apply good_randomUUID.
  - destruct o; [apply good_refl | | apply good_settle].
    destruct (response_runId v) as [runId |]; [| apply good_settle].
    destruct (truthy runId) eqn:Hr; [| apply good_settle].
    match goal with |- context [waitForAgent runId now ?s] =>
      pose proof (good_waitForAgent runId now s Hr) as G;
      destruct (waitForAgent runId now s) as [w st3] end.
    simpl in *.
    eapply good_trans; [| apply good_await].
    eapply good_trans; [| exact G].
    by apply good_register_eventHandler.
  - destruct o; [apply good_refl | | apply good_settle].
    pose proof (good_getSessionTokens now st) as G.
    destruct (getSessionTokens now st) as [g st1]. simpl in *.
    eapply good_trans; [exact G | apply good_await].
  - destruct o; first [apply good_refl | apply good_settle].
Qed.

Lemma good_disconnect st : good st (disconnect st).
Proof.
  unfold disconnect. intros [W1 W2 W3 W4 W5].
  split; [| intros p o; by destruct (ws st)].
  destruct (ws st); split; simpl; auto. intros r h. by rewrite lookup_empty.
Qed.

Lemma good_step now i st st' : step now i st = Some st' → good st st'.
Proof.
  unfold step. intros H.
  destruct i, (microtasks st) as [| [k o] rest] eqn:Hq; try discriminate.
  - destruct (ws st); [| discriminate]. injection H as <-. apply good_handleFrame.
  - destruct (timers st !! t) as [e |]; [| discriminate].
    destruct (due e <=? now); [| discriminate].
    injection H as <-. apply good_fire_timer.
  - injection H as <-.
    eapply good_trans; [apply (good_set_microtasks rest) | apply good_run_reaction].
  - injection H as <-. apply good_resetSession.
  - injection H as <-. apply good_getSessionTokens.
  - injection H as <-. apply good_sendPrompt.
  - injection H as <-. apply good_disconnect.
Qed.

Lemma good_run trace : ∀ st st', run trace st = Some st' → good st st'.
Proof.
  induction trace as [| [now i] trace IH]; intros st st' H; simpl in H.
  - injection H as <-. apply good_refl.
  - destruct (step now i st) as [st1 |] eqn:E; [| discriminate].
    eapply good_trans; [eapply good_step; exact E | by apply IH].
Qed.

Lemma wf_connected_client cfg : wf (connected_client cfg).
Proof. split; simpl; intros *; by rewrite ?lookup_empty. Qed.

(** Every state the loop reaches from a fresh client is well formed. *)
Lemma reachable_wf cfg trace st :
  run trace (connected_client cfg) = Some st → wf st.
Proof.
  intros H. apply good_run in H. apply H, wf_connected_client.
Qed.

(** Once a promise has settled, nothing the client does later changes its
    outcome. *)
Lemma settled_forever trace st st' p o :
  wf st → promises st !! p = Some o → o ≠ Pending →
  run trace st = Some st' → promises st' !! p = Some o.
Proof.
  intros W Hp Ho H. apply good_run in H. destruct (H W) as [_ S]. by apply S.
Qed.

(** ** Basic facts about the runtime primitives *)

Lemma truthy_uuid n : truthy (uuid n) = true.
Proof. reflexivity. Qed.

Lemma settle_pending p o st :
  promises st !! p = Some Pending →
  settle p o st =
    match reactions st !! p with
    | Some k =>
        set_microtasks (microtasks st ++ [(k, o)])
          (set_reactions (delete p (reactions st))
             (set_promises (<[p := o]> (promises st)) st))
    | None => set_promises (<[p := o]> (promises st)) st
    end.
Proof. intros H. unfold settle. rewrite H. by destruct (reactions st !! p). Qed.

Lemma settle_settled p o o' st :
  promises st !! p = Some o' → o' ≠ Pending → settle p o st = st.
Proof. intros H Ho. unfold settle. rewrite H. by destruct o'. Qed.

Lemma promises_settle p o st :
  promises st !! p = Some Pending → promises (settle p o st) !! p = Some o.
Proof.
  intros H. rewrite settle_pending by done.
  destruct (reactions st !! p); simpl; apply lookup_insert_eq.
Qed.

Lemma eventHandlers_settle p o st : eventHandlers (settle p o st) = eventHandlers st.
Proof. unfold settle. by repeat case_match. Qed.

Lemma messageHandlers_settle p o st :
  messageHandlers (settle p o st) = messageHandlers st.
Proof. unfold settle. by repeat case_match. Qed.

Lemma timers_settle p o st : timers (settle p o st) = timers st.
Proof. unfold settle. by repeat case_match. Qed.

Lemma accumulatedResponse_settle p o st :
  accumulatedResponse (settle p o st) = accumulatedResponse st.
Proof. unfold settle. by repeat case_match. Qed.

Lemma ws_settle p o st : ws (settle p o st) = ws st.
Proof. unfold settle. by repeat case_match. Qed.

Lemma connected_settle p o st : connected (settle p o st) = connected st.
Proof. unfold settle. by repeat case_match. Qed.

Lemma config_settle p o st : config (settle p o st) = config st.
Proof. unfold settle. by repeat case_match. Qed.


Lemma microtasks_settle p o st :
  microtasks (settle p o st)
  = match promises st !! p, reactions st !! p with
    | Some Pending, Some k => microtasks st ++ [(k, o)]
    | _, _ => microtasks st
    end.
Proof. unfold settle. by repeat case_match. Qed.

Lemma microtasks_settle_unawaited p o st :
  reactions st !! p = None → microtasks (settle p o st) = microtasks st.
Proof. intros H. rewrite microtasks_settle, H. by repeat case_match. Qed.

Lemma microtasks_settle_awaited p o k st :
  promises st !! p = Some Pending → reactions st !! p = Some k →
  microtasks (settle p o st) = microtasks st ++ [(k, o)].
Proof. intros Hp H. by rewrite microtasks_settle, Hp, H. Qed.

(** ** Turns of the loop *)

Lemma sendRequest_connected method params timeoutMs now st :
  ws st = true → connected st = true →
  sendRequest method params timeoutMs now st =
  (next_promise st,
   mkClient (config st) true true
     (<[uuid (next_uuid st) :=
          {| mh_timeout := next_timer st; mh_method := method;
             mh_promise := next_promise st |}]> (messageHandlers st))
     (eventHandlers st) (accumulatedResponse st)
     (<[next_timer st :=
          {| due := now + timeoutMs;
             callback := RequestTimeout (uuid (next_uuid st)) method (next_promise st) |}]>
        (timers st))
     (<[next_promise st := Pending]> (promises st))
     (reactions st) (microtasks st) (S (next_timer st)) (S (next_promise st))
     (S (next_uuid st))
     (outbox st ++ [{| req_id := uuid (next_uuid st); req_method := method;
                       req_params := params |}])).
Proof.
  intros Hws Hc. unfold sendRequest. simpl. rewrite Hws, Hc. simpl.
  unfold set_outbox, set_messageHandlers. simpl. by rewrite Hws, Hc.
Qed.

Lemma sendRequest_disconnected method params timeoutMs now st :
  ws st && connected st = false →
  sendRequest method params timeoutMs now st =
  (next_promise st,
   reject (next_promise st) "Not connected to OpenClaw gateway" (new_promise st).2).
Proof. intros H. unfold sendRequest. simpl. by rewrite H. Qed.

Lemma step_message now frame st :
  idle st → step now (Message frame) st = Some (completed (handleFrame frame st)).
Proof. intros [Hq Hws]. unfold step. by rewrite Hq, Hws. Qed.

Lemma step_timer now t e st :
  microtasks st = [] → timers st !! t = Some e → due e ≤ now →
  step now (TimerFires t) st
  = Some (run_timer (callback e) (set_timers (delete t (timers st)) st)).
Proof.
  intros Hq Ht Hd. unfold step. rewrite Hq, Ht.
  by destruct (Z.leb_spec (due e) now); [| lia].
Qed.

Lemma step_timer_cleared now t st :
  timers st !! t = None → step now (TimerFires t) st = None.
Proof. intros Ht. unfold step. rewrite Ht. by destruct (microtasks st). Qed.

Lemma handleFrame_unknown_response id ok pl err st :
  messageHandlers st !! id = None →
  handleFrame (responseFrame id ok pl err) st = Normal st.
Proof.
  intros H. unfold handleFrame. simpl.
  destruct (truthy id); simpl; [by rewrite H | done].
Qed.

Lemma call_msg_handler_outcome h response st :
  call_msg_handler h response st
  = settle (mh_promise h) (response_outcome (mh_method h) response)
      (clearTimeout (mh_timeout h) st).
Proof. unfold call_msg_handler, response_outcome. by destruct (ok response). Qed.

Lemma handleFrame_response frame h st :
  f_type frame = "res" → truthy (f_id frame) = true →
  messageHandlers st !! f_id frame = Some h →
  handleFrame frame st
  = Normal (set_messageHandlers (delete (f_id frame) (messageHandlers st))
      (settle (mh_promise h) (response_outcome (mh_method h) (to_response frame))
         (clearTimeout (mh_timeout h) st))).
Proof.
  intros Ht Hid Hm. unfold handleFrame. rewrite Ht, Hid, Hm. simpl.
  by rewrite call_msg_handler_outcome, messageHandlers_settle.
Qed.

(** The race between a response and the deadline of a request sent while
    connected. *)
Lemma sendRequest_race method params timeoutMs now st :
  wf st → idle st → connected st = true →
  let messageId := uuid (next_uuid st) in
  let timeout := next_timer st in
  let p := (sendRequest method params timeoutMs now st).1 in
  let st1 := (sendRequest method params timeoutMs now st).2 in
  pending_request st1 messageId method timeout p
  ∧ timers st1 !! timeout
    = Some {| due := now + timeoutMs;
              callback := RequestTimeout messageId method p |}
  ∧ (∀ now1 ok pl err, ∃ st2,
        step now1 (Message (responseFrame messageId ok pl err)) st1 = Some st2
        ∧ promises st2 !! p
          = Some (response_outcome method
                    (to_response (responseFrame messageId ok pl err)))
        ∧ messageHandlers st2 !! messageId = None
        ∧ (∀ now2, step now2 (TimerFires timeout) st2 = None)
        ∧ (∀ now2 ok' pl' err',
             step now2 (Message (responseFrame messageId ok' pl' err')) st2
             = Some st2)
        ∧ (∀ trace st3, run trace st2 = Some st3 →
             promises st3 !! p = promises st2 !! p))
  ∧ (∀ id pl err,
        response_outcome method (to_response (responseFrame id true pl err))
        = Fulfilled (VResponse (to_response (responseFrame id true pl err))))
  ∧ (∀ id pl e, truthy (err_message e) = true →
        response_outcome method (to_response (responseFrame id false pl (Some e)))
        = Rejected (err_message e))
  ∧ (∀ now1, now + timeoutMs ≤ now1 → ∃ st2,
        step now1 (TimerFires timeout) st1 = Some st2
        ∧ promises st2 !! p = Some (Rejected ("Request timeout for " +:+ method))
        ∧ messageHandlers st2 !! messageId = None
        ∧ (∀ now2 ok pl err,
             step now2 (Message (responseFrame messageId ok pl err)) st2
             = Some st2)
        ∧ (∀ trace st3, run trace st2 = Some st3 →
             promises st3 !! p = promises st2 !! p)).
Proof.
  intros W [Hq Hws] Hc messageId timeout p st1.
  pose proof (good_sendRequest method params timeoutMs now st W) as [W1 _].
  fold st1 in W1. subst p st1.
  rewrite sendRequest_connected in * by done. cbn [fst snd] in *.
  set (p := next_promise st) in *.
  match type of W1 with wf ?s => set (st1 := s) in * end.
  assert (I1 : idle st1) by done.
  assert (Hp1 : promises st1 !! p = Some Pending) by apply lookup_insert_eq.
  assert (Hr1 : reactions st1 !! p = None) by (by apply (wf_reactions st W)).
  assert (Hm1 : messageHandlers st1 !! messageId
                = Some {| mh_timeout := timeout; mh_method := method;
                          mh_promise := p |}) by apply lookup_insert_eq.
  assert (Ht1 : timers st1 !! timeout
                = Some {| due := now + timeoutMs;
                          callback := RequestTimeout messageId method p |})
    by apply lookup_insert_eq.
  split_and!; [done | done | | done | |].
  - intros now1 ok pl err. eexists. split; [by apply step_message |].
    set (st2 := completed _).
    assert (E2 : st2 =
      set_messageHandlers (delete messageId (messageHandlers st1))
        (settle p (response_outcome method
                     (to_response (responseFrame messageId ok pl err)))
           (clearTimeout timeout st1))).
    { subst st2. erewrite handleFrame_response; [| done | done | exact Hm1]. reflexivity. }
    assert (W2 : wf st2).
    { eapply (good_step now1 (Message (responseFrame messageId ok pl err)) st1);
        [by apply step_message | done]. }
    assert (Hp2 : promises st2 !! p = Some (response_outcome method
                     (to_response (responseFrame messageId ok pl err)))).
    { rewrite E2. simpl. by apply promises_settle. }
    assert (Hm2 : messageHandlers st2 !! messageId = None).
    { rewrite E2. simpl. apply lookup_delete_eq. }
    assert (I2 : idle st2).
    { rewrite E2. split; simpl; [| by rewrite ws_settle].
      by rewrite microtasks_settle_unawaited by exact Hr1. }
    split_and!; [done | done | | |].
    + intros now2. apply step_timer_cleared. rewrite E2. simpl.
      rewrite timers_settle. simpl. apply lookup_delete_eq.
    + intros now2 ok' pl' err'. rewrite step_message by done.
      by rewrite handleFrame_unknown_response.
    + intros trace st3 Hrun. rewrite Hp2.
      eapply settled_forever; [exact W2 | exact Hp2 | | exact Hrun].
      unfold response_outcome. by destruct ok.
  - intros id pl e He. unfold response_outcome. simpl. by rewrite He.
  - intros now1 Hdue.
    pose proof (step_timer now1 timeout _ st1 (proj1 I1) Ht1 Hdue) as Hstep.
    eexists. split; [exact Hstep |].
    match type of Hstep with _ = Some ?s => set (st2 := s) in * end.
    destruct (good_step _ _ _ _ Hstep W1) as [W2 _].
    assert (Hp2 : promises st2 !! p = Some (Rejected ("Request timeout for " +:+ method))).
    { by apply promises_settle. }
    assert (Hm2 : messageHandlers st2 !! messageId = None).
    { unfold st2. simpl. unfold reject. rewrite messageHandlers_settle.
      apply lookup_delete_eq. }
    assert (I2 : idle st2).
    { unfold st2. simpl. unfold reject. split; [| by rewrite ws_settle].
      by rewrite microtasks_settle_unawaited by exact Hr1. }
    split_and!; [done | done | |].
    + intros now2 ok pl err. rewrite step_message by done.
      by rewrite handleFrame_unknown_response.
    + intros trace st3 Hrun. rewrite Hp2.
      eapply settled_forever; [exact W2 | exact Hp2 | done | exact Hrun].
Qed.

(** C5 (amended).  For every call [sendRequest(method, params, timeoutMs)]
    settlement is exactly once.  Made while connected, the first of
    {matching response arrives, deadline elapses} wins and the other path
    is a no-op.  A response settles the promise per [ok] (an [ok=false]
    response as failure carrying the server's error message), clears the
    deadline timer, which can then never fire, and removes the pending
    entry, so a duplicate response is dropped.  Deadline expiry settles as
    failure ["Request timeout for <method>"] (capital R) and removes the
    pending entry, so a late response with the same id leaves the client
    unchanged.  A call made while not connected registers nothing and
    rejects at once.  Once settled, the outcome never changes. *)
Theorem sendRequest_settles_once method params timeoutMs now st :
  wf st → microtasks st = [] →
  let messageId := uuid (next_uuid st) in
  let timeout := next_timer st in
  let p := (sendRequest method params timeoutMs now st).1 in
  let st1 := (sendRequest method params timeoutMs now st).2 in
  (ws st = true → connected st = true →
     pending_request st1 messageId method timeout p
     ∧ timers st1 !! timeout
       = Some {| due := now + timeoutMs;
                 callback := RequestTimeout messageId method p |}
     ∧ (∀ now1 ok pl err, ∃ st2,
           step now1 (Message (responseFrame messageId ok pl err)) st1 = Some st2
           ∧ promises st2 !! p
             = Some (response_outcome method
                       (to_response (responseFrame messageId ok pl err)))
           ∧ messageHandlers st2 !! messageId = None
           ∧ (∀ now2, step now2 (TimerFires timeout) st2 = None)
           ∧ (∀ now2 ok' pl' err',
                step now2 (Message (responseFrame messageId ok' pl' err')) st2
                = Some st2)
           ∧ (∀ trace st3, run trace st2 = Some st3 →
                promises st3 !! p = promises st2 !! p))
     ∧ (∀ id pl err,
           response_outcome method (to_response (responseFrame id true pl err))
           = Fulfilled (VResponse (to_response (responseFrame id true pl err))))
     ∧ (∀ id pl e, truthy (err_message e) = true →
           response_outcome method
             (to_response (responseFrame id false pl (Some e)))
           = Rejected (err_message e))
     ∧ (∀ now1, now + timeoutMs ≤ now1 → ∃ st2,
           step now1 (TimerFires timeout) st1 = Some st2
           ∧ promises st2 !! p
             = Some (Rejected ("Request timeout for " +:+ method))
           ∧ messageHandlers st2 !! messageId = None
           ∧ (∀ now2 ok pl err,
                step now2 (Message (responseFrame messageId ok pl err)) st2
                = Some st2)
           ∧ (∀ trace st3, run trace st2 = Some st3 →
                promises st3 !! p = promises st2 !! p)))
  ∧ (ws st && connected st = false →
     promises st1 !! p = Some (Rejected "Not connected to OpenClaw gateway")
     ∧ messageHandlers st1 = messageHandlers st
     ∧ timers st1 = timers st
     ∧ outbox st1 = outbox st
     ∧ (∀ trace st3, run trace st1 = Some st3 →
          promises st3 !! p = promises st1 !! p)).
Proof.
  intros W Hq messageId timeout p st1. split.
  - intros Hws Hc.
    exact (sendRequest_race method params timeoutMs now st W (conj Hq Hws) Hc).
  - intros Hd.
    pose proof (good_sendRequest method params timeoutMs now st W) as [W1 _].
    fold st1 in W1. subst p st1.
    rewrite sendRequest_disconnected in * by done. cbn [fst snd] in *.
    assert (Hp : promises (reject (next_promise st) "Not connected to OpenClaw gateway"
                             (new_promise st).2) !! next_promise st
                 = Some (Rejected "Not connected to OpenClaw gateway")).
    { apply promises_settle. simpl. apply lookup_insert_eq. }
    unfold reject in *.
    rewrite messageHandlers_settle, timers_settle.
    split_and!; [exact Hp | done | done | | ].
    + unfold settle. by repeat case_match.
    + intros trace st3 Hrun. rewrite Hp.
      eapply settled_forever; [exact W1 | exact Hp | done | exact Hrun].
Qed.

Lemma sendRequest_settles_once_witness :
  wf (connected_client sampleConfig)
  ∧ microtasks (connected_client sampleConfig) = []
  ∧ ∃ st2,
      step 30000 (TimerFires 0)
        (sendRequest "sessions.list" (SessionsListParams "main") 30000 0
           (connected_client sampleConfig)).2 = Some st2
      ∧ promises st2 !! 0%nat = Some (Rejected "Request timeout for sessions.list").
Proof.
  pose proof (wf_connected_client sampleConfig) as W.
  split; [exact W |]. split; [reflexivity |].
  destruct (sendRequest_settles_once "sessions.list" (SessionsListParams "main")
              30000 0 (connected_client sampleConfig) W eq_refl) as [Hc _].
  destruct (Hc eq_refl eq_refl) as (_ & _ & _ & _ & _ & H).
  destruct (H 30000 ltac:(lia)) as (st2 & Hs & Hp & _).
  exists st2. split; [exact Hs | exact Hp].
Defined.

(** C5, the claim as stated fails: the failure message of an expired
    request starts with a capital letter.  A [chat.send] request that is
    never answered rejects, at its deadline, with ["Request timeout for
    chat.send"], and [sendPrompt] fails with that same message. *)
Lemma request_timeout_message_counterexample :
  (λ st, promises st !! 0%nat)
    <$> step 30000 (TimerFires 0)
          (sendRequest "chat.send" (ChatSendParams "agent:main:test" "hello" "key")
             30000 0 (connected_client sampleConfig)).2
  = Some (Some (Rejected "Request timeout for chat.send"))
  ∧ (λ st, promises st !! 0%nat)
      <$> step 30000 (TimerFires 0)
            (sendRequest "chat.send" (ChatSendParams "agent:main:test" "hello" "key")
               30000 0 (connected_client sampleConfig)).2
    ≠ Some (Some (Rejected "request timeout for chat.send"))
  ∧ observe (λ st, promises st !! 0%nat)
      [ (0, CallSendPrompt "hello");
        (1, Message (okResponse (uuid 0))); (1, Microtask); (1, Microtask);
        (30001, TimerFires 1); (30001, Microtask) ]
      (connected_client sampleConfig)
    = Some (Some (Rejected "Request timeout for chat.send")).
Proof. split_and!; [vm_compute; reflexivity | by vm_compute | vm_compute; reflexivity]. Qed.

Lemma handleFrame_lifecycle runId phase err st :
  handleFrame (lifecycleFrame runId phase err) st
  = if truthy runId then
      match eventHandlers st !! runId with
      | Some handler =>
          call_ev_handler handler
            {| event := "agent";
               ev_payload := f_payload (lifecycleFrame runId phase err);
               ev_data := None |} st
      | None => Normal st
      end
    else Normal st.
Proof. reflexivity. Qed.

Lemma handleFrame_lifecycle_unregistered runId phase err st :
  eventHandlers st !! runId = None →
  handleFrame (lifecycleFrame runId phase err) st = Normal st.
Proof. intros H. rewrite handleFrame_lifecycle, H. by destruct (truthy runId). Qed.

Lemma lifecycle_handler_end runId timeout w err st :
  call_ev_handler (LifecycleHandler runId timeout w)
    {| event := "agent";
       ev_payload := f_payload (lifecycleFrame runId "end" err);
       ev_data := None |} st
  = Normal (resolve w VUnit
      (set_eventHandlers (delete runId (eventHandlers st)) (clearTimeout timeout st))).
Proof. reflexivity. Qed.

Lemma lifecycle_handler_error runId timeout w err st :
  call_ev_handler (LifecycleHandler runId timeout w)
    {| event := "agent";
       ev_payload := f_payload (lifecycleFrame runId "error" err);
       ev_data := None |} st
  = Normal (reject w (or_string err "Agent error")
      (set_eventHandlers (delete runId (eventHandlers st)) (clearTimeout timeout st))).
Proof. reflexivity. Qed.

(** A lifecycle error event rejects an outstanding waiter with the error
    text it carries. *)
Lemma lifecycle_error_rejects now st runId timeout w msg :
  wf st → idle st → waiting st runId timeout w → truthy msg = true →
  ∃ st1,
    step now (Message (lifecycleFrame runId "error" (Some msg))) st = Some st1
    ∧ promises st1 !! w = Some (Rejected msg)
    ∧ eventHandlers st1 !! runId = None.
Proof.
  intros W I [Hh Hp] Hmsg. rewrite step_message by done.
  rewrite handleFrame_lifecycle, (wf_runIds st W _ _ Hh), Hh, lifecycle_handler_error.
  eexists. split; [reflexivity |]. cbn [completed or_string]. rewrite Hmsg.
  split; [by apply promises_settle |].
  unfold reject. rewrite eventHandlers_settle. apply lookup_delete_eq.
Qed.

Lemma step_lifecycle_end now runId timeout w err st :
  wf st → idle st →
  eventHandlers st !! runId = Some (LifecycleHandler runId timeout w) →
  step now (Message (lifecycleFrame runId "end" err)) st
  = Some (resolve w VUnit
      (set_eventHandlers (delete runId (eventHandlers st)) (clearTimeout timeout st))).
Proof.
  intros W I Hh. rewrite step_message by done.
  by rewrite handleFrame_lifecycle, (wf_runIds st W _ _ Hh), Hh, lifecycle_handler_end.
Qed.

(** C1.  For every run id with an outstanding completion waiter, delivery
    of a lifecycle event with phase [end] settles the waiter's promise as
    success, once, and deregisters the run's event handler (and clears the
    deadline timer); the continuation awaiting the waiter, if any, is
    queued exactly once.  The [.then]/[.catch] reaction to a subsequent
    explicit [agent.wait] response, whatever that response is, leaves the
    waiter fulfilled, and so does everything else the client does later:
    there is no second settlement. *)
Theorem lifecycle_end_settles_once now st runId timeout w err :
  wf st → idle st → waiting st runId timeout w →
  ∃ st1,
    step now (Message (lifecycleFrame runId "end" err)) st = Some st1
    ∧ promises st1 !! w = Some (Fulfilled VUnit)
    ∧ eventHandlers st1 !! runId = None
    ∧ timers st1 !! timeout = None
    ∧ reactions st1 !! w = None
    ∧ microtasks st1
      = match reactions st !! w with
        | Some k => [(k, Fulfilled VUnit)]
        | None => []
        end
    ∧ (∀ now' o,
         promises (run_reaction now' (AgentWaitSettled runId timeout w) o st1) !! w
         = Some (Fulfilled VUnit))
    ∧ (∀ trace st2, run trace st1 = Some st2 →
         promises st2 !! w = Some (Fulfilled VUnit)).
Proof.
  intros W I [Hh Hp].
  pose proof (step_lifecycle_end now runId timeout w err st W I Hh) as Hstep.
  eexists. split; [exact Hstep |].
  match type of Hstep with _ = Some ?s => set (st1 := s) in * end.
  destruct (good_step _ _ _ _ Hstep W) as [W1 _].
  assert (Hp1 : promises st1 !! w = Some (Fulfilled VUnit)).
  { by apply promises_settle. }
  assert (He1 : eventHandlers st1 !! runId = None).
  { unfold st1, resolve. rewrite eventHandlers_settle. apply lookup_delete_eq. }
  split_and!; try done.
  - unfold st1, resolve. rewrite timers_settle. apply lookup_delete_eq.
  - unfold st1, resolve. rewrite settle_pending by done. simpl.
    destruct (reactions st !! w) eqn:E; simpl; [apply lookup_delete_eq | done].
  - unfold st1, resolve. rewrite microtasks_settle. simpl. rewrite Hp.
    destruct I as [-> _]. by destruct (reactions st !! w).
  - intros now' o. simpl. destruct o; [done | |].
    + unfold resolve. rewrite (settle_settled _ _ (Fulfilled VUnit)); [done | | done].
      simpl. exact Hp1.
    + by rewrite He1.
  - intros trace st2 Hrun. by eapply settled_forever.
Qed.

Lemma waitingClient_reached :
  run waitingTrace (connected_client sampleConfig) = Some waitingClient.
Proof. vm_compute. reflexivity. Qed.

Lemma wf_waitingClient : wf waitingClient.
Proof. exact (reachable_wf _ _ _ waitingClient_reached). Qed.

Lemma lifecycle_end_settles_once_witness :
  wf waitingClient ∧ idle waitingClient ∧ waiting waitingClient "run-1" 2 4
  ∧ ∃ st1,
      step 5 (Message (lifecycleFrame "run-1" "end" None)) waitingClient = Some st1
      ∧ promises st1 !! 4%nat = Some (Fulfilled VUnit)
      ∧ eventHandlers st1 !! "run-1" = None.
Proof.
  pose proof wf_waitingClient as W.
  assert (I : idle waitingClient) by (split; vm_compute; reflexivity).
  assert (Hw : waiting waitingClient "run-1" 2 4) by (split; vm_compute; reflexivity).
  split; [exact W |]. split; [exact I |]. split; [exact Hw |].
  destruct (lifecycle_end_settles_once 5 waitingClient "run-1" 2 4 None W I Hw)
    as (st1 & Hs & Hp & He & _).
  exists st1. split; [exact Hs |]. split; [exact Hp | exact He].
Defined.

(** The same on the sample run, with the [agent.wait] response arriving
    after the lifecycle end: answered with success or with failure, the
    waiter (promise 4) stays fulfilled and no further reaction is queued. *)
Lemma late_wait_response_example :
  observe (λ st, (promises st !! 4%nat, microtasks st))
    (waitingTrace
     ++ [ (5, Message (lifecycleFrame "run-1" "end" None)); (5, Microtask);
          (6, Message (okResponse (uuid 4))); (6, Microtask) ])
    (connected_client sampleConfig)
  = Some (Some (Fulfilled VUnit), [])
  ∧ observe (λ st, (promises st !! 4%nat, microtasks st))
      (waitingTrace
       ++ [ (5, Message (lifecycleFrame "run-1" "end" None)); (5, Microtask);
            (6, Message (responseFrame (uuid 4) false None None)); (6, Microtask) ])
      (connected_client sampleConfig)
    = Some (Some (Fulfilled VUnit), []).
Proof. split; vm_compute; reflexivity. Qed.

(** C3 (amended).  If the deadline timer of an outstanding waiter fires
    (neither a lifecycle event nor the [agent.wait] response has settled
    the run before), the waiter rejects with the message ["Agent wait
    timeout after <N>ms"] (capital A), [N] being the configured agent-wait
    timeout, and the run's handler is deregistered.  A lifecycle event for
    the run delivered afterwards is dropped: [handleFrame] returns
    normally with the client unchanged, and the rejection stands whatever
    happens later. *)
Theorem agent_wait_deadline now st runId timeout w d :
  wf st → microtasks st = [] → waiting st runId timeout w →
  timers st !! timeout = Some {| due := d; callback := AgentWaitTimeout runId w |} →
  d ≤ now →
  ∃ st1,
    step now (TimerFires timeout) st = Some st1
    ∧ promises st1 !! w = Some (Rejected ("Agent wait timeout after "
               +:+ pretty (agentWaitTimeoutMs (config st)) +:+ "ms"))
    ∧ eventHandlers st1 !! runId = None
    ∧ (∀ phase err, handleFrame (lifecycleFrame runId phase err) st1 = Normal st1)
    ∧ (∀ trace st2, run trace st1 = Some st2 →
         promises st2 !! w = Some (Rejected ("Agent wait timeout after "
               +:+ pretty (agentWaitTimeoutMs (config st)) +:+ "ms"))
         ∧ (eventHandlers st2 !! runId = None →
            ∀ phase err, handleFrame (lifecycleFrame runId phase err) st2 = Normal st2)).
Proof.
  intros W Hq [Hh Hp] Ht Hd.
  pose proof (step_timer now timeout _ st Hq Ht Hd) as Hstep.
  eexists. split; [exact Hstep |].
  match type of Hstep with _ = Some ?s => set (st1 := s) in * end.
  destruct (good_step _ _ _ _ Hstep W) as [W1 _].
  assert (Hp1 : promises st1 !! w = Some (Rejected ("Agent wait timeout after "
               +:+ pretty (agentWaitTimeoutMs (config st)) +:+ "ms"))).
  { by apply promises_settle. }
  assert (He1 : eventHandlers st1 !! runId = None).
  { unfold st1. simpl. unfold reject. rewrite eventHandlers_settle.
    apply lookup_delete_eq. }
  split_and!; try done.
  - intros phase err. by apply handleFrame_lifecycle_unregistered.
  - intros trace st2 Hrun. split; [by eapply settled_forever |].
    intros He2 phase err. by apply handleFrame_lifecycle_unregistered.
Qed.

Lemma agent_wait_deadline_witness :
  wf waitingClient ∧ microtasks waitingClient = []
  ∧ waiting waitingClient "run-1" 2 4
  ∧ timers waitingClient !! 2%nat
    = Some {| due := 900002; callback := AgentWaitTimeout "run-1" 4 |}
  ∧ 900002 ≤ 900002
  ∧ ∃ st1,
      step 900002 (TimerFires 2) waitingClient = Some st1
      ∧ promises st1 !! 4%nat = Some (Rejected "Agent wait timeout after 900000ms")
      ∧ eventHandlers st1 !! "run-1" = None.
Proof.
  pose proof wf_waitingClient as W.
  assert (Hq : microtasks waitingClient = []) by (vm_compute; reflexivity).
  assert (Hw : waiting waitingClient "run-1" 2 4) by (split; vm_compute; reflexivity).
  assert (Ht : timers waitingClient !! 2%nat
    = Some {| due := 900002; callback := AgentWaitTimeout "run-1" 4 |})
    by (vm_compute; reflexivity).
  assert (Hd : 900002 ≤ 900002) by lia.
  split; [exact W |]. split; [exact Hq |]. split; [exact Hw |].
  split; [exact Ht |]. split; [exact Hd |].
  destruct (agent_wait_deadline 900002 waitingClient "run-1" 2 4 900002 W Hq Hw Ht Hd)
    as (st1 & Hs & Hp & He & _).
  exists st1. split; [exact Hs |]. split; [exact Hp | exact He].
Defined.

(** C3, the claim as stated fails: the message of the rejection starts
    with a capital letter. *)
Lemma agent_wait_timeout_message_counterexample :
  observe (λ st, promises st !! 4%nat)
    (waitingTrace ++ [(900002, TimerFires 2)]) (connected_client sampleConfig)
  = Some (Some (Rejected "Agent wait timeout after 900000ms"))
  ∧ observe (λ st, promises st !! 4%nat)
      (waitingTrace ++ [(900002, TimerFires 2)]) (connected_client sampleConfig)
    ≠ Some (Some (Rejected "agent wait timeout after 900000ms")).
Proof. split; [vm_compute; reflexivity | by vm_compute]. Qed.

(** What [waitForAgent] sets up. *)
Lemma waitForAgent_registers runId now st :
  wf st → ws st = true → connected st = true →
  let r := waitForAgent runId now st in
  let N := agentWaitTimeoutMs (config st) in
  waiting r.2 runId (next_timer st) r.1
  ∧ timers r.2 !! next_timer st
    = Some {| due := now + N; callback := AgentWaitTimeout runId r.1 |}
  ∧ pending_request r.2 (uuid (next_uuid st)) "agent.wait" (S (next_timer st))
      (S r.1)
  ∧ timers r.2 !! S (next_timer st)
    = Some {| due := now + (N + agentWaitBufferMs);
              callback := RequestTimeout (uuid (next_uuid st)) "agent.wait" (S r.1) |}
  ∧ reactions r.2 !! S r.1 = Some (AgentWaitSettled runId (next_timer st) r.1)
  ∧ outbox r.2
    = outbox st ++ [{| req_id := uuid (next_uuid st); req_method := "agent.wait";
                       req_params := AgentWaitParams runId N |}]
  ∧ microtasks r.2 = microtasks st.
Proof.
  intros W Hws Hc. unfold waitForAgent.
  simpl. rewrite sendRequest_connected by done. simpl.
  unfold await. simpl. rewrite lookup_insert_eq. simpl.
  split_and!; try done.
  - split; simpl; [apply lookup_insert_eq |].
    rewrite lookup_insert_ne by lia. apply lookup_insert_eq.
  - rewrite lookup_insert_ne by lia. apply lookup_insert_eq.
  - split; simpl; apply lookup_insert_eq.
  - apply lookup_insert_eq.
  - apply lookup_insert_eq.
Qed.

(** C2, the claim as stated fails.  After [sharedRunTrace] no handler is
    registered for ["run-1"] and the first waiter (promise 8) is still
    pending; no lifecycle event was ever delivered.  When the response to
    its [agent.wait] request (["uuid-8"]) then arrives, the waiter is
    resolved as success all the same: the success path consults no
    registry. *)
Lemma wait_response_unguarded_counterexample :
  observe (λ st, (eventHandlers st !! "run-1", promises st !! 8%nat))
    sharedRunTrace (connected_client sampleConfig)
  = Some (None, Some Pending)
  ∧ observe (λ st, promises st !! 8%nat)
      (sharedRunTrace ++ [(7, Message (okResponse (uuid 8))); (7, Microtask)])
      (connected_client sampleConfig)
    = Some (Some (Fulfilled VUnit)).
Proof. split; vm_compute; reflexivity. Qed.

Lemma step_microtask now k o rest st :
  microtasks st = (k, o) :: rest →
  step now Microtask st = Some (run_reaction now k o (set_microtasks rest st)).
Proof. intros H. unfold step. by rewrite H. Qed.

(** C2 (amended).  When the response to the explicit [agent.wait] request
    arrives with success, the waiter's reaction cancels the deadline,
    deregisters the run's handler and resolves the waiter, without
    consulting the handler registry: a pending waiter is fulfilled whether
    or not a handler is registered for the run at that moment.  What keeps
    the waiter from settling twice is the promise itself: a waiter that has
    already settled keeps its outcome and nothing further is queued. *)
Theorem agent_wait_success_unguarded now st messageId t q runId timeout w pl err :
  wf st → idle st → truthy messageId = true →
  pending_request st messageId "agent.wait" t q →
  reactions st !! q = Some (AgentWaitSettled runId timeout w) →
  q ≠ w →
  ∃ st2,
    run [(now, Message (responseFrame messageId true pl err)); (now, Microtask)] st
    = Some st2
    ∧ eventHandlers st2 !! runId = None
    ∧ timers st2 !! timeout = None
    ∧ (promises st !! w = Some Pending →
       promises st2 !! w = Some (Fulfilled VUnit))
    ∧ (∀ o, promises st !! w = Some o → o ≠ Pending →
       promises st2 !! w = Some o ∧ microtasks st2 = []).
Proof.
  intros W I Hid [Hm Hq] Hr Hne.
  pose proof (step_message now (responseFrame messageId true pl err) st I) as H1.
  erewrite handleFrame_response in H1 by done.
  match type of H1 with _ = Some ?s => set (st1 := s) in * end.
  assert (Hq1 : microtasks st1
    = [(AgentWaitSettled runId timeout w,
        Fulfilled (VResponse (to_response (responseFrame messageId true pl err))))]).
  { unfold st1. simpl.
    rewrite (microtasks_settle_awaited q _ (AgentWaitSettled runId timeout w)
               (clearTimeout t st)) by done.
    simpl. by destruct I as [-> _]. }
  pose proof (step_microtask now _ _ _ st1 Hq1) as H2.
  match type of H2 with _ = Some ?s => set (st2 := s) in * end.
  exists st2. split.
  { cbn [run]. rewrite H1. cbn [run]. by rewrite H2. }
  assert (Hw1 : promises st1 !! w = promises st !! w).
  { unfold st1. simpl.
    rewrite (settle_pending q _ (clearTimeout t st)) by done. simpl.
    rewrite Hr. simpl. by rewrite lookup_insert_ne. }
  split_and!.
  - unfold st2. simpl. unfold resolve. rewrite eventHandlers_settle.
    apply lookup_delete_eq.
  - unfold st2. simpl. unfold resolve. rewrite timers_settle.
    apply lookup_delete_eq.
  - intros Hp. apply promises_settle.
    transitivity (promises st1 !! w); [reflexivity | by rewrite Hw1].
  - intros o Hp Ho. unfold st2. cbn [run_reaction]. unfold resolve.
    rewrite (settle_settled _ _ o); [| | done].
    + split; [| reflexivity].
      transitivity (promises st1 !! w); [reflexivity | by rewrite Hw1].
    + transitivity (promises st1 !! w); [reflexivity | by rewrite Hw1].
Qed.

Lemma agent_wait_success_unguarded_witness :
  wf waitingClient ∧ idle waitingClient ∧ truthy (uuid 4) = true
  ∧ pending_request waitingClient (uuid 4) "agent.wait" 3 5
  ∧ reactions waitingClient !! 5%nat = Some (AgentWaitSettled "run-1" 2 4)
  ∧ 5%nat ≠ 4%nat
  ∧ promises waitingClient !! 4%nat = Some Pending
  ∧ ∃ st2,
      run [(6, Message (responseFrame (uuid 4) true None None)); (6, Microtask)]
        waitingClient = Some st2
      ∧ promises st2 !! 4%nat = Some (Fulfilled VUnit).
Proof.
  pose proof wf_waitingClient as W.
  assert (I : idle waitingClient) by (split; vm_compute; reflexivity).
  assert (Hid : truthy (uuid 4) = true) by reflexivity.
  assert (Hpr : pending_request waitingClient (uuid 4) "agent.wait" 3 5)
    by (split; vm_compute; reflexivity).
  assert (Hr : reactions waitingClient !! 5%nat = Some (AgentWaitSettled "run-1" 2 4))
    by (vm_compute; reflexivity).
  assert (Hne : 5%nat ≠ 4%nat) by lia.
  assert (Hp : promises waitingClient !! 4%nat = Some Pending)
    by (vm_compute; reflexivity).
  split; [exact W |]. split; [exact I |]. split; [exact Hid |].
  split; [exact Hpr |]. split; [exact Hr |]. split; [exact Hne |].
  split; [exact Hp |].
  destruct (agent_wait_success_unguarded 6 waitingClient (uuid 4) 3 5 "run-1" 2 4
              None None W I Hid Hpr Hr Hne) as (st2 & Hs & _ & _ & Hf & _).
  exists st2. split; [exact Hs | exact (Hf Hp)].
Defined.

(** The failure path does consult the registry: a rejected [agent.wait]
    request is propagated to the waiter only while a handler is registered
    for the run; otherwise the reaction changes nothing. *)
Lemma agent_wait_failure_guarded now runId timeout w err st :
  (eventHandlers st !! runId = None →
     run_reaction now (AgentWaitSettled runId timeout w) (Rejected err) st = st)
  ∧ (is_Some (eventHandlers st !! runId) → promises st !! w = Some Pending →
     promises (run_reaction now (AgentWaitSettled runId timeout w) (Rejected err) st) !! w
     = Some (Rejected err)).
Proof.
  split.
  - intros H. simpl. by rewrite H.
  - intros [h H] Hp. simpl. rewrite H. by apply promises_settle.
Qed.

Lemma resetSession_connected now st :
  ws st = true → connected st = true →
  resetSession now st
  = (next_promise st,
     awaiting_request "sessions.reset"
       (SessionsResetParams (cfg_sessionKey (config st))) now
       (ResetSessionAwait (next_promise st)) st).
Proof.
  intros Hws Hc. unfold resetSession. simpl.
  rewrite sendRequest_connected by done. simpl.
  unfold await. simpl. by rewrite lookup_insert_eq.
Qed.

Lemma getSessionTokens_connected now st :
  ws st = true → connected st = true →
  getSessionTokens now st
  = (next_promise st,
     awaiting_request "sessions.list" (SessionsListParams "main") now
       (GetSessionTokensAwait (next_promise st)) st).
Proof.
  intros Hws Hc. unfold getSessionTokens. simpl.
  rewrite sendRequest_connected by done. simpl.
  unfold await. simpl. by rewrite lookup_insert_eq.
Qed.

(** The awaited request settles by a response frame: the continuation is
    queued with the request's outcome. *)
Lemma awaiting_request_response method params now k st now1 ok pl err :
  wf st → idle st →
  let st1 := awaiting_request method params now k st in
  let frame := responseFrame (uuid (next_uuid st)) ok pl err in
  ∃ st2,
    step now1 (Message frame) st1 = Some st2
    ∧ microtasks st2 = [(k, response_outcome method (to_response frame))]
    ∧ promises st2 !! next_promise st = Some Pending
    ∧ reactions st2 !! next_promise st = None
    ∧ config st2 = config st
    ∧ accumulatedResponse st2 = accumulatedResponse st.
Proof.
  intros W [Hq Hws] st1 frame.
  assert (I1 : idle st1) by done.
  pose proof (step_message now1 frame st1 I1) as H1.
  erewrite handleFrame_response in H1; [| done | done | apply lookup_insert_eq].
  eexists. split; [exact H1 |]. simpl.
  rewrite (settle_pending (S (next_promise st))) by apply lookup_insert_eq.
  simpl. rewrite lookup_insert_eq. simpl. rewrite Hq.
  split_and!; try done.
  - rewrite lookup_insert_ne by lia. rewrite lookup_insert_ne by lia.
    apply lookup_insert_eq.
  - rewrite lookup_delete_ne by lia. rewrite lookup_insert_ne by lia.
    by apply (wf_reactions st W).
Qed.

(** The awaited request settles by its deadline. *)
Lemma awaiting_request_timeout method params now k st now1 :
  wf st → idle st → now + requestTimeoutDefault ≤ now1 →
  let st1 := awaiting_request method params now k st in
  ∃ st2,
    step now1 (TimerFires (next_timer st)) st1 = Some st2
    ∧ microtasks st2 = [(k, Rejected ("Request timeout for " +:+ method))]
    ∧ promises st2 !! next_promise st = Some Pending
    ∧ reactions st2 !! next_promise st = None
    ∧ config st2 = config st
    ∧ accumulatedResponse st2 = accumulatedResponse st.
Proof.
  intros W [Hq Hws] Hd st1.
  assert (Ht : timers st1 !! next_timer st
    = Some {| due := now + requestTimeoutDefault;
              callback := RequestTimeout (uuid (next_uuid st)) method
                            (S (next_promise st)) |}) by apply lookup_insert_eq.
  pose proof (step_timer now1 _ _ st1 Hq Ht Hd) as H1.
  eexists. split; [exact H1 |]. simpl. unfold reject.
  rewrite (settle_pending (S (next_promise st))) by apply lookup_insert_eq.
  simpl. rewrite lookup_insert_eq. simpl. rewrite Hq.
  split_and!; try done.
  - rewrite lookup_insert_ne by lia. rewrite lookup_insert_ne by lia.
    apply lookup_insert_eq.
  - rewrite lookup_delete_ne by lia. rewrite lookup_insert_ne by lia.
    by apply (wf_reactions st W).
Qed.

Lemma response_outcome_settled method response :
  response_outcome method response ≠ Pending.
Proof. unfold response_outcome. by destruct (ok response). Qed.

Lemma resetSession_resumes now self o rest st :
  microtasks st = (ResetSessionAwait self, o) :: rest → o ≠ Pending →
  promises st !! self = Some Pending →
  ∃ st', step now Microtask st = Some st'
         ∧ promises st' !! self = Some (Fulfilled VUnit).
Proof.
  intros Hq Ho Hp. rewrite (step_microtask _ _ _ _ _ Hq).
  eexists. split; [done |]. simpl.
  destruct o; [done | |]; by apply promises_settle.
Qed.

(** C10.  [resetSession] never rejects: whether the underlying
    [sessions.reset] request is answered (with [ok] true or false, any
    payload and error), runs into its timeout, or cannot be sent because
    the client is not connected, the promise returned by [resetSession] is
    fulfilled. *)
Theorem resetSession_never_rejects now st :
  wf st → microtasks st = [] →
  let self := (resetSession now st).1 in
  let st1 := (resetSession now st).2 in
  (ws st = true → connected st = true →
     (∀ now1 ok pl err, ∃ st3,
        run [(now1, Message (responseFrame (uuid (next_uuid st)) ok pl err));
             (now1, Microtask)] st1 = Some st3
        ∧ promises st3 !! self = Some (Fulfilled VUnit))
     ∧ (∀ now1, now + requestTimeoutDefault ≤ now1 → ∃ st3,
        run [(now1, TimerFires (next_timer st)); (now1, Microtask)] st1 = Some st3
        ∧ promises st3 !! self = Some (Fulfilled VUnit)))
  ∧ (ws st && connected st = false → ∃ st3,
        step now Microtask st1 = Some st3
        ∧ promises st3 !! self = Some (Fulfilled VUnit)).
Proof.
  intros W Hq self st1. split.
  - intros Hws Hc. subst self st1. rewrite resetSession_connected by done.
    cbn [fst snd]. split.
    + intros now1 ok pl err.
      destruct (awaiting_request_response "sessions.reset"
        (SessionsResetParams (cfg_sessionKey (config st))) now
        (ResetSessionAwait (next_promise st)) st now1 ok pl err W (conj Hq Hws))
        as (st2 & H1 & Hq2 & Hp2 & _).
      destruct (resetSession_resumes now1 _ _ _ st2 Hq2
        (response_outcome_settled _ _) Hp2) as (st3 & H2 & Hp3).
      exists st3. split; [| done]. cbn [run]. rewrite H1. cbn [run]. by rewrite H2.
    + intros now1 Hd.
      destruct (awaiting_request_timeout "sessions.reset"
        (SessionsResetParams (cfg_sessionKey (config st))) now
        (ResetSessionAwait (next_promise st)) st now1 W (conj Hq Hws) Hd)
        as (st2 & H1 & Hq2 & Hp2 & _).
      destruct (resetSession_resumes now1 _ _ _ st2 Hq2 ltac:(done) Hp2)
        as (st3 & H2 & Hp3).
      exists st3. split; [| done]. cbn [run]. rewrite H1. cbn [run]. by rewrite H2.
  - intros Hd. subst self st1. unfold resetSession. simpl.
    rewrite sendRequest_disconnected by done. simpl.
    apply (resetSession_resumes now _ (Rejected "Not connected to OpenClaw gateway") []);
      [| done |].
    + unfold await, reject. simpl.
      rewrite promises_settle by apply lookup_insert_eq.
      simpl. rewrite microtasks_settle_unawaited; simpl; [by rewrite Hq |].
      apply (wf_reactions st W). lia.
    + unfold await, reject. simpl.
      rewrite promises_settle by apply lookup_insert_eq. simpl.
      rewrite settle_pending by apply lookup_insert_eq. simpl.
      rewrite (wf_reactions st W) by lia. simpl.
      rewrite lookup_insert_ne by lia. rewrite lookup_insert_ne by lia.
      apply lookup_insert_eq.
Qed.

Lemma resetSession_never_rejects_witness :
  wf (connected_client sampleConfig)
  ∧ microtasks (connected_client sampleConfig) = []
  ∧ ∃ st3,
      run [(7, Message (responseFrame (uuid 0) false None
                          (Some {| err_message := "no such session";
                                   err_code := None |})));
           (7, Microtask)]
        (resetSession 0 (connected_client sampleConfig)).2 = Some st3
      ∧ promises st3 !! 0%nat = Some (Fulfilled VUnit).
Proof.
  pose proof (wf_connected_client sampleConfig) as W.
  split; [exact W |]. split; [reflexivity |].
  destruct (resetSession_never_rejects 0 (connected_client sampleConfig) W eq_refl)
    as [H _].
  destruct (H eq_refl eq_refl) as [Hres _].
  exact (Hres 7 false None
           (Some {| err_message := "no such session"; err_code := None |})).
Defined.

Lemma getSessionTokens_resumes now self o rest st :
  microtasks st = (GetSessionTokensAwait self, o) :: rest → o ≠ Pending →
  promises st !! self = Some Pending →
  ∃ st', step now Microtask st = Some st'
         ∧ promises st' !! self
           = Some (Fulfilled (VTokens (session_tokens (cfg_sessionKey (config st)) o))).
Proof.
  intros Hq Ho Hp. rewrite (step_microtask _ _ _ _ _ Hq).
  eexists. split; [done |]. simpl.
  destruct o; [done | |]; by apply promises_settle.
Qed.

(** The snapshot computed from a successful listing. *)
Lemma session_tokens_listing key id pl err :
  session_tokens key
    (response_outcome "sessions.list" (to_response (responseFrame id true pl err)))
  = match List.find (λ s, String.eqb (sessionKey s) key)
            (default [] (pl ≫= p_sessions)) with
    | Some session =>
        {| total := or_zero (totalTokens session);
           input := or_zero (inputTokens session);
           output := or_zero (outputTokens session);
           cacheCreation := cacheCreationTokens session;
           cacheRead := cacheReadTokens session |}
    | None => zeroTokens
    end.
Proof. reflexivity. Qed.

Lemma session_tokens_failed key method id pl err :
  session_tokens key
    (response_outcome method (to_response (responseFrame id false pl err)))
  = zeroTokens.
Proof. reflexivity. Qed.

(** Outcome of [getSessionTokens] for each way its request can settle. *)
Lemma getSessionTokens_outcomes now st :
  wf st → microtasks st = [] →
  let self := (getSessionTokens now st).1 in
  let st1 := (getSessionTokens now st).2 in
  let key := cfg_sessionKey (config st) in
  (ws st = true → connected st = true →
     (∀ now1 ok pl err, ∃ st3,
        run [(now1, Message (responseFrame (uuid (next_uuid st)) ok pl err));
             (now1, Microtask)] st1 = Some st3
        ∧ promises st3 !! self
          = Some (Fulfilled (VTokens (session_tokens key
              (response_outcome "sessions.list"
                 (to_response (responseFrame (uuid (next_uuid st)) ok pl err)))))))
     ∧ (∀ now1, now + requestTimeoutDefault ≤ now1 → ∃ st3,
        run [(now1, TimerFires (next_timer st)); (now1, Microtask)] st1 = Some st3
        ∧ promises st3 !! self = Some (Fulfilled (VTokens zeroTokens))))
  ∧ (ws st && connected st = false → ∃ st3,
        step now Microtask st1 = Some st3
        ∧ promises st3 !! self = Some (Fulfilled (VTokens zeroTokens))).
Proof.
  intros W Hq self st1 key. split.
  - intros Hws Hc. subst self st1. rewrite getSessionTokens_connected by done.
    cbn [fst snd]. split.
    + intros now1 ok pl err.
      destruct (awaiting_request_response "sessions.list"
        (SessionsListParams "main") now
        (GetSessionTokensAwait (next_promise st)) st now1 ok pl err W (conj Hq Hws))
        as (st2 & H1 & Hq2 & Hp2 & _ & Hc2 & _).
      destruct (getSessionTokens_resumes now1 _ _ _ st2 Hq2
        (response_outcome_settled _ _) Hp2) as (st3 & H2 & Hp3).
      exists st3. split; [| by rewrite Hp3, Hc2].
      cbn [run]. rewrite H1. cbn [run]. by rewrite H2.
    + intros now1 Hd.
      destruct (awaiting_request_timeout "sessions.list"
        (SessionsListParams "main") now
        (GetSessionTokensAwait (next_promise st)) st now1 W (conj Hq Hws) Hd)
        as (st2 & H1 & Hq2 & Hp2 & _).
      destruct (getSessionTokens_resumes now1 _ _ _ st2 Hq2 ltac:(done) Hp2)
        as (st3 & H2 & Hp3).
      exists st3. split; [| done]. cbn [run]. rewrite H1. cbn [run]. by rewrite H2.
  - intros Hd. subst self st1. unfold getSessionTokens. simpl.
    rewrite sendRequest_disconnected by done. simpl.
    apply (getSessionTokens_resumes now _
             (Rejected "Not connected to OpenClaw gateway") []); [| done |].
    + unfold await, reject. simpl.
      rewrite promises_settle by apply lookup_insert_eq.
      simpl. rewrite microtasks_settle_unawaited; simpl; [by rewrite Hq |].
      apply (wf_reactions st W). lia.
    + unfold await, reject. simpl.
      rewrite promises_settle by apply lookup_insert_eq. simpl.
      rewrite settle_pending by apply lookup_insert_eq. simpl.
      rewrite (wf_reactions st W) by lia. simpl.
      rewrite lookup_insert_ne by lia. rewrite lookup_insert_ne by lia.
      apply lookup_insert_eq.
Qed.

(** C8.  [getSessionTokens] returns the token counters of the first session
    in the [sessions.list] response whose [sessionKey] equals the
    configured session key (an absent or zero counter reads as 0, the two
    cache counters are passed through), and returns the all-zero snapshot
    [{total: 0, input: 0, output: 0}], not a failure, when no session
    matches and when the query fails: an [ok=false] response, a timeout,
    or a client that is not connected. *)
Theorem getSessionTokens_snapshot now st :
  wf st → microtasks st = [] →
  let self := (getSessionTokens now st).1 in
  let st1 := (getSessionTokens now st).2 in
  let key := cfg_sessionKey (config st) in
  let listed now1 pl err :=
    run [(now1, Message (responseFrame (uuid (next_uuid st)) true pl err));
         (now1, Microtask)] st1 in
  (ws st = true → connected st = true →
     (∀ now1 pl err sessions session,
        pl ≫= p_sessions = Some sessions →
        List.find (λ s, String.eqb (sessionKey s) key) sessions = Some session →
        ∃ st3, listed now1 pl err = Some st3
          ∧ promises st3 !! self
            = Some (Fulfilled (VTokens
                {| total := or_zero (totalTokens session);
                   input := or_zero (inputTokens session);
                   output := or_zero (outputTokens session);
                   cacheCreation := cacheCreationTokens session;
                   cacheRead := cacheReadTokens session |})))
     ∧ (∀ now1 pl err,
        List.find (λ s, String.eqb (sessionKey s) key)
          (default [] (pl ≫= p_sessions)) = None →
        ∃ st3, listed now1 pl err = Some st3
          ∧ promises st3 !! self = Some (Fulfilled (VTokens zeroTokens)))
     ∧ (∀ now1 pl err, ∃ st3,
        run [(now1, Message (responseFrame (uuid (next_uuid st)) false pl err));
             (now1, Microtask)] st1 = Some st3
        ∧ promises st3 !! self = Some (Fulfilled (VTokens zeroTokens)))
     ∧ (∀ now1, now + requestTimeoutDefault ≤ now1 → ∃ st3,
        run [(now1, TimerFires (next_timer st)); (now1, Microtask)] st1 = Some st3
        ∧ promises st3 !! self = Some (Fulfilled (VTokens zeroTokens))))
  ∧ (ws st && connected st = false → ∃ st3,
        step now Microtask st1 = Some st3
        ∧ promises st3 !! self = Some (Fulfilled (VTokens zeroTokens))).
Proof.
  intros W Hq self st1 key listed.
  destruct (getSessionTokens_outcomes now st W Hq) as [Hconn Hdis].
  split; [| exact Hdis]. intros Hws Hc.
  destruct (Hconn Hws Hc) as [Hres Htime]. split_and!; [| | | exact Htime].
  - intros now1 pl err sessions session Hpl Hfind.
    destruct (Hres now1 true pl err) as (st3 & Hrun & Hp).
    exists st3. split; [exact Hrun |].
    fold self in Hp. rewrite Hp, session_tokens_listing, Hpl. simpl.
    fold key. by rewrite Hfind.
  - intros now1 pl err Hfind.
    destruct (Hres now1 true pl err) as (st3 & Hrun & Hp).
    exists st3. split; [exact Hrun |].
    fold self in Hp. rewrite Hp, session_tokens_listing. fold key. by rewrite Hfind.
  - intros now1 pl err.
    destruct (Hres now1 false pl err) as (st3 & Hrun & Hp).
    exists st3. split; [exact Hrun | exact Hp].
Qed.

Lemma getSessionTokens_snapshot_witness :
  wf (connected_client sampleConfig)
  ∧ microtasks (connected_client sampleConfig) = []
  ∧ ∃ st3,
      run [(3, Message (responseFrame (uuid 0) true
                          (Some (sessionsPayload [otherSession; sampleSession]))
                          None));
           (3, Microtask)]
        (getSessionTokens 0 (connected_client sampleConfig)).2 = Some st3
      ∧ promises st3 !! 0%nat
        = Some (Fulfilled (VTokens
            {| total := 1200; input := 1000; output := 200;
               cacheCreation := Some 50; cacheRead := None |})).
Proof.
  pose proof (wf_connected_client sampleConfig) as W.
  split; [exact W |]. split; [reflexivity |].
  destruct (getSessionTokens_snapshot 0 (connected_client sampleConfig) W eq_refl)
    as [H _].
  destruct (H eq_refl eq_refl) as [Hmatch _].
  exact (Hmatch 3 (Some (sessionsPayload [otherSession; sampleSession])) None
           [otherSession; sampleSession] sampleSession eq_refl eq_refl).
Defined.




(** The chat handler itself extracts and appends the text. *)
Lemma chatHandler_accumulates st :
  accumulatedResponse st = "" →
  accumulatedResponse
    (foldl (λ s e, chatHandler
              {| event := "chat"; ev_payload := f_payload (chatFrame "run-1" e.1.2 e.2);
                 ev_data := f_payload (chatFrame "run-1" e.1.2 e.2) |} s)
       st helloDeltas)
  = "Hello, world".
Proof. intros H. simpl. unfold chatHandler, append_response. simpl. by rewrite H. Qed.








(** [(after || 0) - (before || 0) || undefined]: the field is omitted
    exactly when the difference is zero. *)
Lemma cache_delta_cases a b :
  (cache_delta a b = None ↔ or_zero a = or_zero b)
  ∧ (∀ d, cache_delta a b = Some d ↔ (d = or_zero a - or_zero b ∧ d ≠ 0)).
Proof.
  unfold cache_delta.
  destruct (Z.eqb_spec (or_zero a - or_zero b) 0) as [E | E]; split.
  - split; [lia | done].
  - intros d. split; [done | lia].
  - split; [done | lia].
  - intros d. split; [intros [= <-]; done | intros [-> _]; done].
Qed.




(** C4 (defect in the code).  The three deltas ["Hel"], ["lo, "],
    ["world"] arrive for the run while [sendPrompt] awaits it, and the text
    [sendPrompt] returns is empty, not ["Hello, world"]: [waitForAgent]
    stores its lifecycle listener under the run id and thereby replaces
    the chat wrapper [sendPrompt] registered under the same key just
    before, so no chat event ever reaches [chatHandler]. *)
Theorem sendPrompt_drops_deltas :
  observe (λ st, prompt_result (promises st !! 0%nat)) helloTrace
    (connected_client sampleConfig)
  = Some (Some {| response := ""; tokens := zeroTokens; timeMs := 6 |})
  ∧ observe (λ st, eventHandlers st !! "run-1") waitingTrace
      (connected_client sampleConfig)
    = Some (Some (LifecycleHandler "run-1" 2 4)).
Proof. split; vm_compute; reflexivity. Qed.

(** ** Device identity and signature payload *)

Import Identity.

Lemma append_assoc (a b c : string) : (a +:+ b) +:+ c = a +:+ (b +:+ c).
Proof.
  induction a as [| x a IH]; [reflexivity |].
  change (String x ((a +:+ b) +:+ c) = String x (a +:+ (b +:+ c))).
  by rewrite IH.
Qed.

Lemma hex_lowercase bs : all_chars is_lower_hex (hex bs) = true.
Proof.
  induction bs as [| b bs IH]; [done |].
  cbn [hex all_chars]. rewrite IH. by destruct b.
Qed.

Lemma hex_length bs : String.length (hex bs) = (2 * length bs)%nat.
Proof. induction bs as [| b bs IH]; simpl; [done | rewrite IH; lia]. Qed.

Lemma bytes_eqb_refl a : bytes_eqb a a = true.
Proof.
  induction a as [| x a IH]; simpl; [done |].
  by rewrite (Byte.byte_dec_lb eq_refl), IH.
Qed.

Lemma derivePublicKeyRaw_ed25519 export_spki_der pem raw :
  export_spki_der pem = ED25519_SPKI_PREFIX ++ raw → length raw = 32%nat →
  derivePublicKeyRaw export_spki_der pem = raw.
Proof.
  intros E L. unfold derivePublicKeyRaw. rewrite E.
  rewrite length_app, L. simpl length.
  rewrite Nat.eqb_refl. rewrite take_app_length', drop_app_length' by done.
  by rewrite bytes_eqb_refl.
Qed.

(** The digest has 32 bytes. *)
Lemma sha256_length m : length (SHA256.sha256 m) = 32%nat.
Proof. reflexivity. Qed.

(** The digests of FIPS 180-4's one-block and two-block sample messages
    and of the empty message. *)
Lemma sha256_samples :
  hex (SHA256.sha256 (String.list_byte_of_string "abc"))
  = "ba7816bf8f01cfea414140de5dae2223b00361a396177a9cb410ff61f20015ad"
  ∧ hex (SHA256.sha256
           (String.list_byte_of_string
              "abcdbcdecdefdefgefghfghighijhijkijkljklmklmnlmnomnopnopq"))
    = "248d6a61d20638b8e5c026930c3e6039a33ce45964ff2167f6ecedd419db06c1"
  ∧ hex (SHA256.sha256 [])
    = "e3b0c44298fc1c149afbf4c8996fb92427ae41e4649b934ca495991b7852b855".
Proof. split_and!; vm_compute; reflexivity. Qed.

(** C7.  [deviceId] is a function of the public key alone: for an Ed25519
    key, whose SPKI export is the 12-byte algorithm identifier followed by
    the raw 32-byte key, it equals the lowercase hex SHA-256 digest of that
    raw key (the envelope stripped), 64 characters; the private key does
    not enter, and any two derivations from the same exported public key
    give the same [deviceId]. *)
Theorem deviceId_from_public_key export_spki_der publicKeyPem privateKeyPem raw :
  export_spki_der publicKeyPem = ED25519_SPKI_PREFIX ++ raw →
  length raw = 32%nat →
  let identity := generateDeviceIdentity export_spki_der publicKeyPem privateKeyPem in
  deviceId identity = hex (SHA256.sha256 raw)
  ∧ all_chars is_lower_hex (deviceId identity) = true
  ∧ String.length (deviceId identity) = 64%nat
  ∧ (∀ privateKeyPem',
       deviceId (generateDeviceIdentity export_spki_der publicKeyPem privateKeyPem')
       = deviceId identity)
  ∧ (∀ publicKeyPem' privateKeyPem',
       export_spki_der publicKeyPem' = export_spki_der publicKeyPem →
       deviceId (generateDeviceIdentity export_spki_der publicKeyPem' privateKeyPem')
       = deviceId identity).
Proof.
  intros E L identity. subst identity. cbn [generateDeviceIdentity deviceId].
  rewrite (derivePublicKeyRaw_ed25519 _ _ _ E L).
  split_and!; [done | apply hex_lowercase | | done |].
  - by rewrite hex_length, sha256_length.
  - intros pem' _ E'. f_equal. f_equal.
    apply derivePublicKeyRaw_ed25519; [by rewrite E' | done].
Qed.

Lemma deviceId_from_public_key_witness :
  toy_export "PUBLIC" = ED25519_SPKI_PREFIX ++ replicate 32 Byte.x07
  ∧ length (replicate 32 Byte.x07) = 32%nat
  ∧ deviceId (generateDeviceIdentity toy_export "PUBLIC" "PRIVATE")
    = "4bb06f8e4e3a7715d201d573d0aa423762e55dabd61a2c02278fa56cc6d294e0".
Proof.
  split; [reflexivity |]. split; [reflexivity |].
  destruct (deviceId_from_public_key toy_export "PUBLIC" "PRIVATE"
              (replicate 32 Byte.x07) eq_refl eq_refl) as [H _].
  rewrite H. vm_compute. reflexivity.
Defined.

(** C6, the claim as stated fails when the challenge carries the empty
    string as nonce: a nonce was supplied, yet the signed payload is the
    version 1 payload of eight fields. *)
Lemma empty_nonce_counterexample :
  signPayload sampleIdentity tokenConfig 1700000000000 (Some "")
  = "v1|ab12|openclaw-control-ui|ui|operator|operator.read,operator.write,operator.admin|1700000000000|secret"
  ∧ claimed_signPayload sampleIdentity tokenConfig 1700000000000 (Some "")
    = "v2|ab12|openclaw-control-ui|ui|operator|operator.read,operator.write,operator.admin|1700000000000|secret|"
  ∧ signPayload sampleIdentity tokenConfig 1700000000000 (Some "")
    ≠ claimed_signPayload sampleIdentity tokenConfig 1700000000000 (Some "").
Proof. split_and!; [vm_compute; reflexivity | vm_compute; reflexivity | by vm_compute]. Qed.

(** C6 (amended).  The connect-request signature is computed over the
    pipe-joined ordered tuple version, deviceId, clientId, clientMode,
    role, comma-joined scopes, epoch-millis signedAt, authToken.  Version
    is ["v2"], with the nonce appended as a final ninth field, exactly when
    the challenge supplied a non-empty nonce ([String c rest]); with no
    nonce, and also with the empty string as nonce, version is ["v1"] and
    there is no nonce field. *)
Theorem connect_signature_payload ed25519_sign identity cfg connectId signedAt
    nonce c rest :
  let common :=
    deviceId identity
    +:+ "|openclaw-control-ui|ui|operator|operator.read,operator.write,operator.admin|"
    +:+ pretty signedAt +:+ "|" +:+ or_string (gatewayToken cfg) "" in
  dev_signature
    (cf_device (sendConnectRequest ed25519_sign identity cfg connectId signedAt nonce))
  = base64UrlEncode
      (ed25519_sign (privateKeyPem identity)
         (String.list_byte_of_string (signPayload identity cfg signedAt nonce)))
  ∧ signPayload identity cfg signedAt nonce
    = join "|" (payloadParts identity cfg signedAt nonce)
  ∧ signPayload identity cfg signedAt (Some (String c rest))
    = "v2|" +:+ common +:+ "|" +:+ String c rest
  ∧ length (payloadParts identity cfg signedAt (Some (String c rest))) = 9%nat
  ∧ signPayload identity cfg signedAt None = "v1|" +:+ common
  ∧ length (payloadParts identity cfg signedAt None) = 8%nat
  ∧ signPayload identity cfg signedAt (Some "") = "v1|" +:+ common
  ∧ length (payloadParts identity cfg signedAt (Some "")) = 8%nat
  ∧ signPayload identity cfg signedAt (Some (String c rest))
    = claimed_signPayload identity cfg signedAt (Some (String c rest))
  ∧ signPayload identity cfg signedAt None
    = claimed_signPayload identity cfg signedAt None.
Proof.
  intros common. subst common.
  split_and!; try reflexivity;
    unfold signPayload, payloadParts;
    cbn [join app truthy String.eqb negb];
    by rewrite !append_assoc.
Qed.

(** ** Frames that address nothing *)

(** X1.  A frame that names no pending request and no registered run
    leaves the client as it is, whatever else it contains, also when
    [handleFrame] throws on it. *)
Theorem handleFrame_unaddressed frame st :
  messageHandlers st !! f_id frame = None →
  chat_runId frame ≫= (λ r, eventHandlers st !! r) = None →
  lifecycle_runId frame ≫= (λ r, eventHandlers st !! r) = None →
  completed (handleFrame frame st) = st.
Proof.
  unfold chat_runId, lifecycle_runId, handleFrame, handle_chat, handle_agent.
  intros Hm Hc Hl. rewrite Hm.
  destruct (String.eqb (f_type frame) "res" && truthy (f_id frame)); [done |].
  destruct (String.eqb (f_type frame) "event" && truthy (f_event frame)); [| done].
  destruct (f_payload frame) as [pl |]; simpl in *.
  - rewrite Hc.
    destruct (String.eqb (f_event frame) "chat"); simpl;
      (destruct (String.eqb (f_event frame) "agent" && is_str (p_stream pl) "lifecycle");
       [| done]);
      (destruct (p_data pl) as [d |]; simpl in *; [| done]);
      (destruct (lc_runId d) as [r |]; simpl in *; [| done]);
      rewrite Hl; by destruct (truthy r).
  - destruct (String.eqb (f_event frame) "chat"); simpl;
      by destruct (String.eqb (f_event frame) "agent").
Qed.

Lemma handleFrame_unaddressed_witness :
  messageHandlers waitingClient !! f_id (lifecycleFrame "run-2" "end" None) = None
  ∧ chat_runId (lifecycleFrame "run-2" "end" None)
      ≫= (λ r, eventHandlers waitingClient !! r) = None
  ∧ lifecycle_runId (lifecycleFrame "run-2" "end" None)
      ≫= (λ r, eventHandlers waitingClient !! r) = None
  ∧ completed (handleFrame (lifecycleFrame "run-2" "end" None) waitingClient)
    = waitingClient.
Proof.
  assert (H1 : messageHandlers waitingClient
                 !! f_id (lifecycleFrame "run-2" "end" None) = None)
    by (vm_compute; reflexivity).
  assert (H2 : chat_runId (lifecycleFrame "run-2" "end" None)
                 ≫= (λ r, eventHandlers waitingClient !! r) = None)
    by (vm_compute; reflexivity).
  assert (H3 : lifecycle_runId (lifecycleFrame "run-2" "end" None)
                 ≫= (λ r, eventHandlers waitingClient !! r) = None)
    by (vm_compute; reflexivity).
  split; [exact H1 |]. split; [exact H2 |]. split; [exact H3 |].
  exact (handleFrame_unaddressed _ _ H1 H2 H3).
Defined.

(** ** Lifecycle events other than [end] *)

Lemma lifecycle_handler_other runId timeout w phase err st :
  String.eqb phase "end" = false → String.eqb phase "error" = false →
  call_ev_handler (LifecycleHandler runId timeout w)
    {| event := "agent";
       ev_payload := f_payload (lifecycleFrame runId phase err);
       ev_data := None |} st
  = Normal st.
Proof. intros H1 H2. cbn. by rewrite H1, H2. Qed.

(** X2.  For a run with an outstanding waiter, a lifecycle event with
    phase [error] rejects the waiter with the error text of the event, or
    with ["Agent error"] when the text is missing or empty, deregisters
    the handler and clears the deadline timer, and the rejection stands.
    A lifecycle event with any phase other than [end] and [error] changes
    nothing: the waiter keeps waiting. *)
Theorem lifecycle_error_rejects_waiter now st runId timeout w :
  wf st → idle st → waiting st runId timeout w →
  (∀ err, ∃ st1,
     step now (Message (lifecycleFrame runId "error" err)) st = Some st1
     ∧ promises st1 !! w
       = Some (Rejected (match err with
                         | Some (String c rest) => String c rest
                         | _ => "Agent error"
                         end))
     ∧ eventHandlers st1 !! runId = None
     ∧ timers st1 !! timeout = None
     ∧ (∀ trace st2, run trace st1 = Some st2 →
          promises st2 !! w = promises st1 !! w))
  ∧ (∀ phase err, phase ≠ "end" → phase ≠ "error" →
     step now (Message (lifecycleFrame runId phase err)) st = Some st).
Proof.
  intros W I [Hh Hp]. split.
  - intros err. rewrite step_message by done.
    rewrite handleFrame_lifecycle, (wf_runIds st W _ _ Hh), Hh, lifecycle_handler_error.
    cbn [completed].
    match goal with |- ∃ st1, Some ?s = Some st1 ∧ _ => set (st1 := s) end.
    exists st1. split; [done |].
    assert (Hmsg : or_string err "Agent error"
                   = match err with
                     | Some (String c rest) => String c rest
                     | _ => "Agent error"
                     end) by (by destruct err as [[| c rest] |]).
    assert (Hp1 : promises st1 !! w
                  = Some (Rejected (or_string err "Agent error"))).
    { by apply promises_settle. }
    assert (W1 : wf st1).
    { assert (Hs : step now (Message (lifecycleFrame runId "error" err)) st = Some st1).
      { rewrite step_message by done.
        by rewrite handleFrame_lifecycle, (wf_runIds st W _ _ Hh), Hh,
          lifecycle_handler_error. }
      by destruct (good_step _ _ _ _ Hs W). }
    rewrite <- Hmsg. split_and!; [exact Hp1 | | |].
    + unfold st1, reject. rewrite eventHandlers_settle. apply lookup_delete_eq.
    + unfold st1, reject. rewrite timers_settle. apply lookup_delete_eq.
    + intros trace st2 Hrun. rewrite Hp1.
      by eapply settled_forever.
  - intros phase err H1 H2. rewrite step_message by done.
    rewrite handleFrame_lifecycle, (wf_runIds st W _ _ Hh), Hh.
    rewrite lifecycle_handler_other; [done | |];
      by apply String.eqb_neq.
Qed.

Lemma lifecycle_error_rejects_waiter_witness :
  wf waitingClient ∧ idle waitingClient ∧ waiting waitingClient "run-1" 2 4
  ∧ ∃ st1,
      step 5 (Message (lifecycleFrame "run-1" "error" (Some "model overloaded")))
        waitingClient = Some st1
      ∧ promises st1 !! 4%nat = Some (Rejected "model overloaded").
Proof.
  pose proof wf_waitingClient as W.
  assert (I : idle waitingClient) by (split; vm_compute; reflexivity).
  assert (Hw : waiting waitingClient "run-1" 2 4) by (split; vm_compute; reflexivity).
  split; [exact W |]. split; [exact I |]. split; [exact Hw |].
  destruct (lifecycle_error_rejects_waiter 5 waitingClient "run-1" 2 4 W I Hw)
    as [He _].
  destruct (He (Some "model overloaded")) as (st1 & Hs & Hp & _).
  exists st1. split; [exact Hs | exact Hp].
Defined.

(** ** The failure path of the explicit wait *)

(** X3.  When the explicit [agent.wait] request is answered with
    [ok = false], the waiter's [.catch] reaction looks at the handler
    registry: while a handler is registered for the run, a pending waiter
    is rejected with the server's error message (["agent.wait failed"] when
    there is none), the handler is deregistered and the deadline is
    cleared; when no handler is registered for the run the failure is
    swallowed and the waiter, the registry and the deadline timer stay as
    they are. *)
Theorem agent_wait_failure_guarded_by_registry now st messageId t q runId timeout w
    pl err :
  wf st → idle st → truthy messageId = true →
  pending_request st messageId "agent.wait" t q →
  reactions st !! q = Some (AgentWaitSettled runId timeout w) →
  q ≠ w → t ≠ timeout →
  ∃ st2,
    run [(now, Message (responseFrame messageId false pl err)); (now, Microtask)] st
    = Some st2
    ∧ (is_Some (eventHandlers st !! runId) → promises st !! w = Some Pending →
       promises st2 !! w
       = Some (Rejected (or_string (err_message <$> err) "agent.wait failed"))
       ∧ eventHandlers st2 !! runId = None
       ∧ timers st2 !! timeout = None)
    ∧ (eventHandlers st !! runId = None →
       promises st2 !! w = promises st !! w
       ∧ eventHandlers st2 = eventHandlers st
       ∧ timers st2 !! timeout = timers st !! timeout
       ∧ microtasks st2 = []).
Proof.
  intros W I Hid [Hm Hq] Hr Hne Hnt.
  pose proof (step_message now (responseFrame messageId false pl err) st I) as H1.
  erewrite handleFrame_response in H1 by done.
  match type of H1 with _ = Some ?s => set (st1 := s) in * end.
  set (msg := or_string (err_message <$> err) "agent.wait failed").
  assert (Hq1 : microtasks st1
    = [(AgentWaitSettled runId timeout w, Rejected msg)]).
  { unfold st1. simpl.
    rewrite (microtasks_settle_awaited q _ (AgentWaitSettled runId timeout w)
               (clearTimeout t st)) by done.
    simpl. by destruct I as [-> _]. }
  pose proof (step_microtask now _ _ _ st1 Hq1) as H2.
  match type of H2 with _ = Some ?s => set (st2 := s) in * end.
  exists st2. split.
  { cbn [run]. rewrite H1. cbn [run]. by rewrite H2. }
  assert (Hw1 : promises st1 !! w = promises st !! w).
  { unfold st1. simpl.
    rewrite (settle_pending q _ (clearTimeout t st)) by done. simpl.
    rewrite Hr. simpl. by rewrite lookup_insert_ne. }
  assert (He1 : eventHandlers st1 = eventHandlers st).
  { unfold st1. simpl. by rewrite eventHandlers_settle. }
  assert (Ht1 : timers st1 !! timeout = timers st !! timeout).
  { unfold st1. simpl. rewrite timers_settle. simpl. by rewrite lookup_delete_ne. }
  split.
  - intros [h Hh] Hp.
    assert (E2 : st2 = reject w msg
              (set_eventHandlers (delete runId (eventHandlers (set_microtasks [] st1)))
                 (clearTimeout timeout (set_microtasks [] st1)))).
    { unfold st2. cbn [run_reaction].
      replace (eventHandlers (set_microtasks [] st1) !! runId) with (Some h); [done |].
      change (eventHandlers (set_microtasks [] st1)) with (eventHandlers st1).
      by rewrite He1. }
    rewrite E2. split_and!.
    + apply promises_settle.
      transitivity (promises st1 !! w); [reflexivity | by rewrite Hw1].
    + unfold reject. rewrite eventHandlers_settle. apply lookup_delete_eq.
    + unfold reject. rewrite timers_settle. apply lookup_delete_eq.
  - intros Hn.
    assert (E2 : st2 = set_microtasks [] st1).
    { unfold st2. cbn [run_reaction].
      replace (eventHandlers (set_microtasks [] st1) !! runId)
        with (@None EvHandler); [done |].
      change (eventHandlers (set_microtasks [] st1)) with (eventHandlers st1).
      by rewrite He1. }
    rewrite E2. split_and!; [exact Hw1 | exact He1 | exact Ht1 | reflexivity].
Qed.

Lemma agent_wait_failure_guarded_by_registry_witness :
  wf waitingClient ∧ idle waitingClient ∧ truthy (uuid 4) = true
  ∧ pending_request waitingClient (uuid 4) "agent.wait" 3 5
  ∧ reactions waitingClient !! 5%nat = Some (AgentWaitSettled "run-1" 2 4)
  ∧ 5%nat ≠ 4%nat ∧ 3%nat ≠ 2%nat
  ∧ is_Some (eventHandlers waitingClient !! "run-1")
  ∧ promises waitingClient !! 4%nat = Some Pending
  ∧ ∃ st2,
      run [(6, Message (responseFrame (uuid 4) false None
                          (Some {| err_message := "run aborted"; err_code := None |})));
           (6, Microtask)] waitingClient = Some st2
      ∧ promises st2 !! 4%nat = Some (Rejected "run aborted").
Proof.
  pose proof wf_waitingClient as W.
  assert (I : idle waitingClient) by (split; vm_compute; reflexivity).
  assert (Hid : truthy (uuid 4) = true) by reflexivity.
  assert (Hpr : pending_request waitingClient (uuid 4) "agent.wait" 3 5)
    by (split; vm_compute; reflexivity).
  assert (Hr : reactions waitingClient !! 5%nat = Some (AgentWaitSettled "run-1" 2 4))
    by (vm_compute; reflexivity).
  assert (Hne : 5%nat ≠ 4%nat) by lia.
  assert (Hnt : 3%nat ≠ 2%nat) by lia.
  assert (Hh : is_Some (eventHandlers waitingClient !! "run-1"))
    by (exists (LifecycleHandler "run-1" 2 4); vm_compute; reflexivity).
  assert (Hp : promises waitingClient !! 4%nat = Some Pending)
    by (vm_compute; reflexivity).
  split; [exact W |]. split; [exact I |]. split; [exact Hid |].
  split; [exact Hpr |]. split; [exact Hr |]. split; [exact Hne |].
  split; [exact Hnt |]. split; [exact Hh |]. split; [exact Hp |].
  destruct (agent_wait_failure_guarded_by_registry 6 waitingClient (uuid 4) 3 5
              "run-1" 2 4 None
              (Some {| err_message := "run aborted"; err_code := None |})
              W I Hid Hpr Hr Hne Hnt) as (st2 & Hs & Hf & _).
  exists st2. split; [exact Hs |].
  destruct (Hf Hh Hp) as [Hrej _]. exact Hrej.
Defined.

(** ** [disconnect] *)

(** X4.  [disconnect] empties both handler registries and marks the
    client as not connected, but settles nothing and clears no timer: a
    request that is pending at that moment stays pending and fails only
    when its own deadline arrives, with the timeout message.  Requests
    made afterwards are rejected at once and write nothing to the socket.
    Disconnecting again changes nothing. *)
Theorem disconnect_abandons_request method params timeoutMs now st :
  wf st → idle st → connected st = true →
  let p := (sendRequest method params timeoutMs now st).1 in
  let st1 := (sendRequest method params timeoutMs now st).2 in
  let st2 := disconnect st1 in
  messageHandlers st2 = ∅ ∧ eventHandlers st2 = ∅
  ∧ ws st2 = false ∧ connected st2 = false
  ∧ promises st2 !! p = Some Pending
  ∧ timers st2 = timers st1
  ∧ (∀ now1, now + timeoutMs ≤ now1 → ∃ st3,
       step now1 (TimerFires (next_timer st)) st2 = Some st3
       ∧ promises st3 !! p = Some (Rejected ("Request timeout for " +:+ method)))
  ∧ (∀ method' params' timeoutMs' now1,
       let r := sendRequest method' params' timeoutMs' now1 st2 in
       promises r.2 !! r.1 = Some (Rejected "Not connected to OpenClaw gateway")
       ∧ outbox r.2 = outbox st2)
  ∧ disconnect st2 = st2.
Proof.
  intros W [Hq Hws] Hc p st1 st2. subst p st1 st2.
  rewrite sendRequest_connected by done. cbn [fst snd].
  match goal with |- context [disconnect ?s] => set (st1 := s) end.
  assert (E : disconnect st1
              = set_connected false
                  (set_ws false (set_eventHandlers ∅ (set_messageHandlers ∅ st1))))
    by reflexivity.
  rewrite E. clear E.
  match goal with |- context [set_connected false ?s] => set (st2 := set_connected false s) end.
  split_and!; try reflexivity.
  - unfold st2, st1. proj. apply lookup_insert_eq.
  - intros now1 Hd.
    assert (Ht : timers st2 !! next_timer st
      = Some {| due := now + timeoutMs;
                callback := RequestTimeout (uuid (next_uuid st)) method
                              (next_promise st) |}).
    { unfold st2, st1. proj. apply lookup_insert_eq. }
    assert (Hq2 : microtasks st2 = []) by done.
    rewrite (step_timer now1 _ _ st2 Hq2 Ht Hd).
    eexists. split; [reflexivity |].
    cbn [callback run_timer]. apply promises_settle. unfold st2, st1. proj.
    apply lookup_insert_eq.
  - intros method' params' timeoutMs' now1.
    rewrite sendRequest_disconnected by done. cbn [fst snd]. split.
    + apply promises_settle. proj. apply lookup_insert_eq.
    + unfold reject, settle. by repeat case_match.
Qed.

Lemma disconnect_abandons_request_witness :
  wf (connected_client sampleConfig) ∧ idle (connected_client sampleConfig)
  ∧ connected (connected_client sampleConfig) = true
  ∧ promises
      (disconnect
         (sendRequest "sessions.list" (SessionsListParams "main") 30000 0
            (connected_client sampleConfig)).2) !! 0%nat
    = Some Pending.
Proof.
  pose proof (wf_connected_client sampleConfig) as W.
  assert (I : idle (connected_client sampleConfig)) by (split; reflexivity).
  split; [exact W |]. split; [exact I |]. split; [reflexivity |].
  destruct (disconnect_abandons_request "sessions.list" (SessionsListParams "main")
              30000 0 (connected_client sampleConfig) W I eq_refl)
    as (_ & _ & _ & _ & Hp & _).
  exact Hp.
Defined.

(** ** Failure paths of [sendPrompt] *)










(** ** Frames written by a successful prompt *)





(** ** The registry never holds the chat wrapper between turns *)

Lemma calm_refl st : calm st st.
Proof. split; [done | done | by intros p r]. Qed.

Lemma calm_trans st1 st2 st3 : calm st1 st2 → calm st2 st3 → calm st1 st3.
Proof.
  intros [H1 H2 H3] [G1 G2 G3]. split; [congruence | congruence |].
  intros p r H. auto.
Qed.

Lemma calm_quiet st st' : calm st st' → quiet st → quiet st'.
Proof.
  intros [H1 H2 H3] [Q1 Q2 Q3]. split.
  - rewrite H1. exact Q1.
  - by rewrite H2.
  - intros p r H. eauto.
Qed.

Lemma calm_same st st' :
  eventHandlers st' = eventHandlers st →
  accumulatedResponse st' = accumulatedResponse st →
  promises st' = promises st → calm st st'.
Proof. intros H1 H2 H3. split; [done | done |]. intros p r. by rewrite H3. Qed.

Lemma calm_new_promise st : calm st (new_promise st).2.
Proof.
  split; [done | done |]. intros p r. simpl.
  destruct (decide (p = next_promise st)) as [-> | Hne].
  - by rewrite lookup_insert_eq.
  - by rewrite lookup_insert_ne.
Qed.

Lemma calm_settle p o st :
  (∀ r, o ≠ Fulfilled (VPrompt r)) → calm st (settle p o st).
Proof.
  intros Ho. split.
  - apply eventHandlers_settle.
  - apply accumulatedResponse_settle.
  - intros p' r. unfold settle.
    destruct (promises st !! p) as [[| |] |] eqn:Hp; try done.
    assert (H : ∀ m : gmap nat Settled,
              <[p := o]> m !! p' = Some (Fulfilled (VPrompt r)) →
              m !! p' = Some (Fulfilled (VPrompt r))).
    { intros m. destruct (decide (p' = p)) as [-> | Hne].
      - rewrite lookup_insert_eq. intros [= E]. by destruct (Ho r).
      - by rewrite lookup_insert_ne. }
    destruct (reactions st !! p); simpl; apply H.
Qed.

Lemma calm_await p k st : calm st (await p k st).
Proof. unfold await. repeat case_match; by apply calm_same. Qed.

Lemma calm_sendRequest method params timeoutMs now st :
  calm st (sendRequest method params timeoutMs now st).2.
Proof.
  unfold sendRequest.
  destruct (ws st && connected st) eqn:E; simpl; rewrite E; simpl.
  - eapply calm_trans; [apply (calm_new_promise st) |]. by apply calm_same.
  - eapply calm_trans; [apply (calm_new_promise st) |]. by apply calm_settle.
Qed.

Lemma calm_resetSession now st : calm st (resetSession now st).2.
Proof.
  unfold resetSession.
  pose proof (calm_new_promise st) as H1.
  destruct (new_promise st) as [self st1].
  pose proof (calm_sendRequest "sessions.reset"
                (SessionsResetParams (cfg_sessionKey (config st1)))
                requestTimeoutDefault now st1) as H2.
  destruct (sendRequest _ _ _ now st1) as [q st2]. cbn [fst snd] in *.
  eauto using calm_trans, calm_await.
Qed.

Lemma calm_getSessionTokens now st : calm st (getSessionTokens now st).2.
Proof.
  unfold getSessionTokens.
  pose proof (calm_new_promise st) as H1.
  destruct (new_promise st) as [self st1].
  pose proof (calm_sendRequest "sessions.list" (SessionsListParams "main")
                requestTimeoutDefault now st1) as H2.
  destruct (sendRequest _ _ _ now st1) as [q st2]. cbn [fst snd] in *.
  eauto using calm_trans, calm_await.
Qed.

Lemma calm_sendPrompt prompt now st : calm st (sendPrompt prompt now st).2.
Proof.
  unfold sendPrompt.
  pose proof (calm_new_promise st) as H1.
  destruct (new_promise st) as [self st1].
  pose proof (calm_getSessionTokens now st1) as H2.
  destruct (getSessionTokens now st1) as [g st2]. cbn [fst snd] in *.
  eauto using calm_trans, calm_await.
Qed.

Lemma quiet_delete_eventHandler r st :
  quiet st → quiet (set_eventHandlers (delete r (eventHandlers st)) st).
Proof.
  intros [Q1 Q2 Q3]. split; [| done | done].
  intros r' h. simpl. rewrite lookup_delete. case_decide; [done | apply Q1].
Qed.

Lemma quiet_register_lifecycle r t w m st :
  quiet st → (∀ r' h, r' ≠ r → m !! r' = Some h → eventHandlers st !! r' = Some h) →
  quiet (set_eventHandlers (<[r := LifecycleHandler r t w]> m) st).
Proof.
  intros [Q1 Q2 Q3] Hm. split; [| done | done].
  intros r' h. simpl. destruct (decide (r' = r)) as [-> | Hne].
  - rewrite lookup_insert_eq. intros [= <-]. eauto.
  - rewrite lookup_insert_ne by done. intros H. eauto.
Qed.

Lemma calm_clearTimeout t st : calm st (clearTimeout t st).
Proof. by apply calm_same. Qed.

Lemma quiet_call_lifecycle r t w ev st :
  quiet st → quiet (completed (call_ev_handler (LifecycleHandler r t w) ev st)).
Proof.
  intros Q. cbn [call_ev_handler].
  destruct (String.eqb (event ev) "agent" && _); [| done].
  destruct (ev_payload ev ≫= p_data) as [data |]; [| done].
  destruct (String.eqb (phase data) "end").
  - cbn [completed]. eapply calm_quiet; [by apply calm_settle |].
    apply (quiet_delete_eventHandler r (clearTimeout t st)).
    eapply calm_quiet; [apply calm_clearTimeout | done].
  - destruct (String.eqb (phase data) "error"); [| done].
    cbn [completed]. eapply calm_quiet; [by apply calm_settle |].
    apply (quiet_delete_eventHandler r (clearTimeout t st)).
    eapply calm_quiet; [apply calm_clearTimeout | done].
Qed.

Lemma quiet_handleFrame frame st : quiet st → quiet (completed (handleFrame frame st)).
Proof.
  intros Q. unfold handleFrame.
  destruct (String.eqb (f_type frame) "res" && truthy (f_id frame)).
  { destruct (messageHandlers st !! f_id frame) as [h |]; [| done].
    cbn [completed]. eapply calm_quiet; [| exact Q].
    rewrite call_msg_handler_outcome.
    set (s1 := clearTimeout (mh_timeout h) st).
    set (s2 := settle _ _ s1).
    apply (calm_trans st s1); [apply calm_clearTimeout |].
    apply (calm_trans s1 s2); [| by apply calm_same].
    apply calm_settle. intros r. unfold response_outcome. by destruct (ok _). }
  destruct (String.eqb (f_type frame) "event" && truthy (f_event frame)); [| done].
  assert (Q1 : quiet (completed (handle_chat frame st))
               ∧ (∀ st1, handle_chat frame st = Throw st1 →
                    handle_chat frame st = Throw st1)).
  { split; [| done]. unfold handle_chat.
    destruct (String.eqb (f_event frame) "chat"); [| done].
    destruct (f_payload frame) as [chatEvent |]; [| done].
    destruct (p_runId chatEvent ≫= _) as [h |] eqn:Hh; [| done].
    destruct (p_runId chatEvent) as [r |]; [| done]. simpl in Hh.
    destruct (quiet_handlers st Q r h Hh) as (t & w & ->).
    by apply quiet_call_lifecycle. }
  destruct Q1 as [Q1 _].
  destruct (handle_chat frame st) as [st1 | st1]; cbn [completed] in *; [| done].
  unfold handle_agent.
  destruct (String.eqb (f_event frame) "agent" && _); [| done].
  destruct (f_payload frame ≫= p_data) as [d |]; [| done].
  destruct (lc_runId d) as [r |]; [| done].
  destruct (truthy r); [| done].
  destruct (eventHandlers st1 !! r) as [h |] eqn:Hh; [| done].
  destruct (quiet_handlers st1 Q1 r h Hh) as (t & w & ->).
  by apply quiet_call_lifecycle.
Qed.

Lemma quiet_run_timer cb st : quiet st → quiet (run_timer cb st).
Proof.
  intros Q. destruct cb as [messageId method p | runId w]; cbn [run_timer].
  - eapply calm_quiet; [| exact Q].
    set (s1 := set_messageHandlers _ st).
    apply (calm_trans st s1); [by apply calm_same | by apply calm_settle].
  - eapply calm_quiet; [by apply calm_settle |].
    by apply quiet_delete_eventHandler.
Qed.

Lemma eventHandlers_sendRequest method params timeoutMs now st :
  eventHandlers (sendRequest method params timeoutMs now st).2 = eventHandlers st.
Proof. apply calm_sendRequest. Qed.

Lemma quiet_waitForAgent r m now st :
  quiet st → (∀ r' h, r' ≠ r → m !! r' = Some h → eventHandlers st !! r' = Some h) →
  quiet (waitForAgent r now (set_eventHandlers m st)).2.
Proof.
  intros [Q1 Q2 Q3] Hm. unfold waitForAgent. cbn [new_promise setTimeout].
  match goal with |- context [sendRequest ?a ?b ?c ?d ?s] =>
    pose proof (calm_sendRequest a b c d s) as H4;
    destruct (sendRequest a b c d s) as [q s4]
  end.
  cbn [fst snd] in *.
  eapply calm_quiet; [apply calm_await |].
  eapply calm_quiet; [exact H4 |].
  split; proj.
  - intros r' h. destruct (decide (r' = r)) as [-> | Hne].
    + rewrite lookup_insert_eq. intros [= <-]. eauto.
    + rewrite lookup_insert_ne by done. intros H. eauto.
  - exact Q2.
  - intros p res H. apply (Q3 p res).
    destruct (decide (p = next_promise st)) as [-> | Hne].
    + by rewrite lookup_insert_eq in H.
    + by rewrite lookup_insert_ne in H.
Qed.

Lemma quiet_run_reaction now k o st : quiet st → quiet (run_reaction now k o st).
Proof.
  intros Q. destruct k; cbn [run_reaction].
  - (* the reaction of waitForAgent *)
    destruct o as [| v | err]; [done | |].
    + eapply calm_quiet; [by apply calm_settle |].
      apply (quiet_delete_eventHandler runId (clearTimeout timeout st)).
      eapply calm_quiet; [apply calm_clearTimeout | done].
    + destruct (eventHandlers st !! runId); [| done].
      eapply calm_quiet; [by apply calm_settle |].
      apply (quiet_delete_eventHandler runId (clearTimeout timeout st)).
      eapply calm_quiet; [apply calm_clearTimeout | done].
  - destruct o; [done | |]; (eapply calm_quiet; [by apply calm_settle | done]).
  - destruct o; [done | |]; (eapply calm_quiet; [by apply calm_settle | done]).
  - destruct o as [| v | err]; [done | |].
    + cbn [randomUUID].
      match goal with |- context [sendRequest ?a ?b ?c ?d ?s] =>
        pose proof (calm_sendRequest a b c d s) as H4;
        destruct (sendRequest a b c d s) as [q s4]
      end.
      cbn [fst snd] in *.
      eapply calm_quiet; [apply calm_await |].
      eapply calm_quiet; [exact H4 |].
      destruct Q as [Q1 Q2 Q3]. by split.
    + eapply calm_quiet; [by apply calm_settle | done].
  - destruct o as [| v | err]; [done | |].
    + destruct (response_runId v) as [runId |];
        [| eapply calm_quiet; [by apply calm_settle | done]].
      destruct (truthy runId);
        [| eapply calm_quiet; [by apply calm_settle | done]].
      pose proof (quiet_waitForAgent runId
                    (<[runId := ChatWrapper (eventHandlers st !! runId)]>
                       (eventHandlers st)) now st Q) as H.
      destruct (waitForAgent runId now _) as [w s1]. cbn [fst snd] in *.
      eapply calm_quiet; [apply calm_await |].
      apply H. intros r' h Hne. by rewrite lookup_insert_ne.
    + eapply calm_quiet; [by apply calm_settle | done].
  - destruct o as [| v | err]; [done | |].
    + pose proof (calm_getSessionTokens now st) as H.
      destruct (getSessionTokens now st) as [g s1]. cbn [fst snd] in *.
      eapply calm_quiet; [apply calm_await |].
      eapply calm_quiet; [exact H | done].
    + eapply calm_quiet; [by apply calm_settle | done].
  - destruct o as [| v | err]; [done | |].
    + (* the result is built from the accumulated response *)
      destruct Q as [Q1 Q2 Q3]. unfold resolve, settle.
      destruct (promises st !! self) as [[| |] |] eqn:Hp; try done.
      assert (H : ∀ p r,
                <[self := Fulfilled (VPrompt
                    {| response := accumulatedResponse st;
                       tokens := token_delta (as_tokens v) startTokens;
                       timeMs := endTime - startTime |})]> (promises st) !! p
                = Some (Fulfilled (VPrompt r)) → response r = "").
      { intros p r. destruct (decide (p = self)) as [-> | Hne].
        - rewrite lookup_insert_eq. by intros [= <-].
        - rewrite lookup_insert_ne by done. apply Q3. }
      destruct (reactions st !! self); by split.
    + eapply calm_quiet; [by apply calm_settle | done].
Qed.

Lemma quiet_disconnect st : quiet st → quiet (disconnect st).
Proof.
  intros [Q1 Q2 Q3]. unfold disconnect. destruct (ws st); [| by split].
  split; [| done | done]. intros r h. simpl. by rewrite lookup_empty.
Qed.

Lemma quiet_step now i st st' : quiet st → step now i st = Some st' → quiet st'.
Proof.
  intros Q. unfold step.
  destruct i, (microtasks st) as [| [k o] rest] eqn:Hq; try done.
  - destruct (ws st); [| done]. intros [= <-]. by apply quiet_handleFrame.
  - destruct (timers st !! t) as [e |]; [| done].
    destruct (due e <=? now); [| done]. intros [= <-].
    apply quiet_run_timer. apply (calm_quiet st); [by apply calm_same | done].
  - intros [= <-]. apply quiet_run_reaction.
    apply (calm_quiet st); [by apply calm_same | done].
  - intros [= <-]. eapply calm_quiet; [apply calm_resetSession | done].
  - intros [= <-]. eapply calm_quiet; [apply calm_getSessionTokens | done].
  - intros [= <-]. eapply calm_quiet; [apply calm_sendPrompt | done].
  - intros [= <-]. by apply quiet_disconnect.
Qed.

Lemma quiet_run trace : ∀ st st', quiet st → run trace st = Some st' → quiet st'.
Proof.
  induction trace as [| [now i] trace IH]; intros st st' Q; cbn [run].
  - by intros [= <-].
  - destruct (step now i st) as [st1 |] eqn:E; [| done].
    apply IH. by eapply quiet_step.
Qed.

Lemma quiet_connected_client cfg : quiet (connected_client cfg).
Proof. split; [| done |]; intros *; simpl; by rewrite lookup_empty. Qed.

(** X8.  Whatever a connected client is asked to do and whatever arrives
    from the gateway, between two turns of the event loop every registered
    event handler is the lifecycle listener of [waitForAgent] for its own
    run id (the chat wrapper that [sendPrompt] registers is replaced in the
    same turn), the accumulated response is empty, and every result that a
    [sendPrompt] call has returned carries the empty string as response
    text. *)
Theorem chat_text_never_accumulates cfg trace st :
  run trace (connected_client cfg) = Some st →
  (∀ r h, eventHandlers st !! r = Some h → ∃ t w, h = LifecycleHandler r t w)
  ∧ accumulatedResponse st = ""
  ∧ (∀ p r, promises st !! p = Some (Fulfilled (VPrompt r)) → response r = "").
Proof.
  intros H.
  destruct (quiet_run trace _ _ (quiet_connected_client cfg) H) as [Q1 Q2 Q3].
  done.
Qed.

Lemma chat_text_never_accumulates_witness :
  run waitingTrace (connected_client sampleConfig) = Some waitingClient
  ∧ accumulatedResponse waitingClient = "".
Proof.
  split; [exact waitingClient_reached |].
  destruct (chat_text_never_accumulates sampleConfig waitingTrace waitingClient
              waitingClient_reached) as (_ & Ha & _).
  exact Ha.
Defined.

(** ** The handshake *)

Lemma same_socket_refl st : same_socket st st.
Proof. by split. Qed.

Lemma same_socket_trans st1 st2 st3 :
  same_socket st1 st2 → same_socket st2 st3 → same_socket st1 st3.
Proof. intros [] []. split; congruence. Qed.

Lemma same_socket_settle p o st : same_socket st (settle p o st).
Proof. split; [apply config_settle | apply ws_settle | apply connected_settle]. Qed.

Lemma same_socket_append_block st block : same_socket st (append_block st block).
Proof.
  unfold append_block. destruct (String.eqb _ _); [| apply same_socket_refl].
  destruct (block_text block) as [t |]; [| apply same_socket_refl].
  destruct (truthy t); by split.
Qed.

Lemma same_socket_append_blocks blocks :
  ∀ st, same_socket st (foldl append_block st blocks).
Proof.
  induction blocks as [| b blocks IH]; intros st; simpl; [apply same_socket_refl |].
  eapply same_socket_trans; [apply (same_socket_append_block st b) | apply IH].
Qed.

Lemma same_socket_chatHandler ev st : same_socket st (chatHandler ev st).
Proof.
  unfold chatHandler.
  destruct (String.eqb (event ev) "chat"); [| apply same_socket_refl].
  destruct (ev_data ev) as [chatEvent |]; [| apply same_socket_refl].
  destruct (String.eqb (p_state chatEvent) "delta"); [| apply same_socket_refl].
  destruct (p_message chatEvent) as [[s | [[s | blocks |] |]] |];
    try apply same_socket_refl.
  - destruct (truthy s); by split.
  - destruct (truthy s); by split.
  - apply same_socket_append_blocks.
Qed.

Lemma same_socket_call_ev_handler h :
  ∀ ev st, same_socket st (completed (call_ev_handler h ev st)).
Proof.
  revert h. fix IH 1. intros [runId timeout w | [h' |]] ev st; cbn [call_ev_handler].
  - destruct (String.eqb (event ev) "agent" && _); [| apply same_socket_refl].
    destruct (ev_payload ev ≫= p_data) as [data |]; [| apply same_socket_refl].
    destruct (String.eqb (phase data) "end").
    { cbn [completed]. eapply same_socket_trans; [| apply same_socket_settle].
      by split. }
    destruct (String.eqb (phase data) "error"); [| apply same_socket_refl].
    cbn [completed]. eapply same_socket_trans; [| apply same_socket_settle].
    by split.
  - eapply same_socket_trans; [apply same_socket_chatHandler | apply IH].
  - apply same_socket_chatHandler.
Qed.

Lemma same_socket_handleFrame frame st :
  same_socket st (completed (handleFrame frame st)).
Proof.
  unfold handleFrame.
  destruct (String.eqb (f_type frame) "res" && truthy (f_id frame)).
  { destruct (messageHandlers st !! f_id frame) as [h |]; [| apply same_socket_refl].
    cbn [completed]. rewrite call_msg_handler_outcome.
    set (s1 := settle _ _ _).
    apply (same_socket_trans st s1); [| by split].
    apply (same_socket_trans st (clearTimeout (mh_timeout h) st)); [by split |].
    apply same_socket_settle. }
  destruct (String.eqb (f_type frame) "event" && truthy (f_event frame));
    [| apply same_socket_refl].
  assert (G1 : same_socket st (completed (handle_chat frame st))).
  { unfold handle_chat. repeat case_match; try apply same_socket_refl.
    apply same_socket_call_ev_handler. }
  destruct (handle_chat frame st) as [st1 | st1]; cbn [completed] in G1; [| exact G1].
  eapply same_socket_trans; [exact G1 |].
  unfold handle_agent. repeat case_match; try apply same_socket_refl.
  apply same_socket_call_ev_handler.
Qed.

Ltac hproj :=
  cbn [Handshake.client Handshake.identity Handshake.connectId
       Handshake.handshakeComplete Handshake.challengeReceived Handshake.deadline
       Handshake.outcome Handshake.sent Handshake.closing Handshake.set_client
       Handshake.set_handshakeComplete Handshake.set_challengeReceived
       Handshake.set_sent Handshake.set_closing Handshake.clear_deadline
       config ws connected set_connected set_ws negb andb] in *.

Ltac handshake_goal :=
  first [ done
        | timeout 10 (intuition congruence)
        | by (intros;
              match goal with
              | Harm : ∀ d : Z, _ = Some d → _, H : _ = Some _ |- _ =>
                  destruct (Harm _ H) as (? & ? & ?)
              end)
        | timeout 10 (firstorder congruence) ].

Ltac handshake_cases :=
  unfold Handshake.settle_outcome; hproj;
  try match goal with
      | |- context [match Handshake.outcome ?c with _ => _ end] =>
          destruct (Handshake.outcome c) eqn:?
      end;
  split; hproj;
  try match goal with H : Handshake.outcome _ = _ |- _ => rewrite ?H end;
  handshake_goal.

Section Handshake_facts.

Variable sign : string → list byte → list byte.
Variable cfg : RunnerConfig.
Variable ident : Identity.DeviceIdentity.
Variable t0 : Z.

Lemma connecting_connect :
  connecting cfg ident t0 (Handshake.connect ident t0 (Handshake.new_client cfg)).
Proof.
  unfold Handshake.connect, Handshake.new_client. cbn [randomUUID set_ws next_uuid].
  split; hproj; try done; intuition congruence.
Qed.

Lemma connecting_on_message now frame nonce c :
  connecting cfg ident t0 c →
  connecting cfg ident t0 (Handshake.on_message sign now frame nonce c).
Proof.
  intros H. unfold Handshake.on_message.
  destruct (negb (Handshake.challengeReceived c) && _ && _) eqn:E1.
  { (* the first challenge *)
    destruct H as [Hcfg Hws Hid Hcid Htm Harm Hful Hcon Hclo Hsent].
    unfold Handshake.sendConnectRequest. hproj. rewrite Hws.
    split; hproj; done. }
  destruct (negb (Handshake.handshakeComplete c) && _ && _) eqn:E2.
  { destruct H as [Hcfg Hws Hid Hcid Htm Harm Hful Hcon Hclo Hsent].
    destruct (f_ok frame); handshake_cases. }
  pose proof (same_socket_handleFrame frame (Handshake.client c)) as [S1 S2 S3].
  destruct H as [Hcfg Hws Hid Hcid Htm Harm Hful Hcon Hclo Hsent].
  split; hproj; try done; try congruence.
  - intros d Hd. rewrite S3. by apply Harm.
  - by rewrite S3.
Qed.

Lemma connecting_step now e c c' :
  connecting cfg ident t0 c → Handshake.step sign now e c = Some c' →
  connecting cfg ident t0 c'.
Proof.
  intros H. destruct e as [| frame nonce | | msg | code |]; cbn [Handshake.step].
  - by intros [= <-].
  - intros [= <-]. by apply connecting_on_message.
  - by intros [= <-].
  - intros [= <-]. destruct H as [Hcfg Hws Hid Hcid Htm Harm Hful Hcon Hclo Hsent].
    unfold Handshake.on_error. handshake_cases.
  - intros [= <-]. destruct H as [Hcfg Hws Hid Hcid Htm Harm Hful Hcon Hclo Hsent].
    unfold Handshake.on_close. hproj.
    destruct (Handshake.handshakeComplete c) eqn:E; hproj; handshake_cases.
  - destruct (Handshake.deadline c) as [d |] eqn:Hd; [| done].
    destruct (d <=? now); [| done]. intros [= <-].
    destruct H as [Hcfg Hws Hid Hcid Htm Harm Hful Hcon Hclo Hsent].
    destruct (Harm d Hd) as (-> & Hh & Hc).
    unfold Handshake.on_timeout. hproj. rewrite Hc, Hws. hproj.
    handshake_cases.
Qed.

Lemma connecting_run trace : ∀ c c',
  connecting cfg ident t0 c → Handshake.run sign trace c = Some c' →
  connecting cfg ident t0 c'.
Proof.
  induction trace as [| [now e] trace IH]; intros c c' H; cbn [Handshake.run].
  - by intros [= <-].
  - destruct (Handshake.step sign now e c) as [c1 |] eqn:E; [| done].
    apply IH. by eapply connecting_step.
Qed.

Lemma sent_settle_outcome o c :
  Handshake.sent (Handshake.settle_outcome o c) = Handshake.sent c
  ∧ Handshake.challengeReceived (Handshake.settle_outcome o c)
    = Handshake.challengeReceived c.
Proof. unfold Handshake.settle_outcome. by destruct (Handshake.outcome c). Qed.

Lemma sent_step now e c c1 :
  ws (Handshake.client c) = true → Handshake.identity c = ident →
  config (Handshake.client c) = cfg → Handshake.connectId c = uuid 0 →
  Handshake.step sign now e c = Some c1 →
  (Handshake.sent c1, Handshake.challengeReceived c1)
  = match first_challenge [(now, e)] with
    | Some (t, nonce) =>
        if Handshake.challengeReceived c
        then (Handshake.sent c, true)
        else (Handshake.sent c
              ++ [Identity.sendConnectRequest sign ident cfg (uuid 0) t nonce], true)
    | None => (Handshake.sent c, Handshake.challengeReceived c)
    end.
Proof.
  intros Hws Hid Hcfg Hcid.
  destruct e as [| frame nonce | | msg | code |]; cbn [Handshake.step first_challenge].
  - by intros [= <-].
  - intros [= <-]. unfold Handshake.on_message.
    destruct (String.eqb (f_type frame) "event"
              && String.eqb (f_event frame) "connect.challenge") eqn:E.
    + destruct (Handshake.challengeReceived c) eqn:Ec; cbn [negb andb].
      * apply andb_true_iff in E as [E1 E2].
        destruct (negb (Handshake.handshakeComplete c) && _ && _) eqn:E3.
        { apply andb_true_iff in E3 as [E3 _]. apply andb_true_iff in E3 as [_ E3].
          apply String.eqb_eq in E1, E3. congruence. }
        hproj. by rewrite Ec.
      * rewrite <- andb_assoc, E. cbn [andb].
        unfold Handshake.sendConnectRequest. hproj. rewrite Hws. hproj.
        by rewrite Hid, Hcfg, Hcid.
    + rewrite <- andb_assoc, E, andb_false_r.
      destruct (negb (Handshake.handshakeComplete c) && _ && _).
      * destruct (f_ok frame);
          match goal with |- context [Handshake.settle_outcome ?o ?x] =>
            destruct (sent_settle_outcome o x) as [-> ->]
          end; reflexivity.
      * reflexivity.
  - by intros [= <-].
  - intros [= <-]. unfold Handshake.on_error.
    match goal with |- context [Handshake.settle_outcome ?o ?x] =>
      destruct (sent_settle_outcome o x) as [-> ->]
    end. reflexivity.
  - intros [= <-]. unfold Handshake.on_close. hproj.
    destruct (negb (Handshake.handshakeComplete c)); [| reflexivity].
    match goal with |- context [Handshake.settle_outcome ?o ?x] =>
      destruct (sent_settle_outcome o x) as [-> ->]
    end. reflexivity.
  - destruct (Handshake.deadline c) as [d |]; [| done].
    destruct (d <=? now); [| done]. intros [= <-].
    unfold Handshake.on_timeout. hproj.
    destruct (negb (connected (Handshake.client c))); [| reflexivity].
    match goal with |- context [Handshake.settle_outcome ?o ?x] =>
      destruct (sent_settle_outcome o x) as [-> ->]
    end.
    by destruct (ws (Handshake.client c)).
Qed.

Lemma first_challenge_cons now e trace :
  first_challenge ((now, e) :: trace)
  = match first_challenge [(now, e)] with
    | Some x => Some x
    | None => first_challenge trace
    end.
Proof.
  destruct e; cbn [first_challenge]; try reflexivity.
  by destruct (_ && _).
Qed.

Lemma sent_run trace : ∀ c c',
  connecting cfg ident t0 c → Handshake.run sign trace c = Some c' →
  Handshake.sent c'
  = if Handshake.challengeReceived c then Handshake.sent c
    else Handshake.sent c
         ++ match first_challenge trace with
            | Some (t, nonce) =>
                [Identity.sendConnectRequest sign ident cfg (uuid 0) t nonce]
            | None => []
            end.
Proof.
  induction trace as [| [now e] trace IH]; intros c c' H; cbn [Handshake.run].
  - intros [= <-]. cbn [first_challenge]. rewrite app_nil_r.
    by destruct (Handshake.challengeReceived c).
  - destruct (Handshake.step sign now e c) as [c1 |] eqn:E; [| done].
    intros Hrun.
    pose proof (connecting_step _ _ _ _ H E) as H1.
    rewrite (IH c1 c' H1 Hrun).
    pose proof (sent_step now e c c1 (hs_ws _ _ _ _ H) (hs_identity _ _ _ _ H)
                  (hs_config _ _ _ _ H) (hs_connectId _ _ _ _ H) E) as Hs.
    rewrite first_challenge_cons.
    destruct (first_challenge [(now, e)]) as [[t nonce] |].
    + destruct (Handshake.challengeReceived c); injection Hs as -> ->; reflexivity.
    + injection Hs as -> ->. reflexivity.
Qed.

End Handshake_facts.

(** X13.  A handshake on a fresh client: the gateway's challenge is
    answered with one signed connect request (carrying the challenge's
    nonce and the clock reading of its arrival), and the [ok] response to
    that request fulfils [connect], clears the timer and marks the client
    connected.  The client is then the connected client the methods start
    from (with one id taken from the supply), and from then on the message
    listener hands every frame to [handleFrame] and touches nothing
    else. *)
Theorem handshake_completes sign cfg ident t0 t1 t2 nonce pl err :
  let c0 := Handshake.connect ident t0 (Handshake.new_client cfg) in
  let c2 :=
    {| Handshake.client := set_next_uuid 1 (connected_client cfg);
       Handshake.identity := ident; Handshake.connectId := uuid 0;
       Handshake.handshakeComplete := true; Handshake.challengeReceived := true;
       Handshake.deadline := None; Handshake.outcome := Fulfilled VUnit;
       Handshake.sent :=
         [Identity.sendConnectRequest sign ident cfg (uuid 0) t1 nonce];
       Handshake.closing := false |} in
  Handshake.run sign
    [ (t1, Handshake.Open);
      (t1, Handshake.Data Handshake.challengeFrame nonce);
      (t2, Handshake.Data (responseFrame (uuid 0) true pl err) None) ] c0
  = Some c2
  ∧ wf (Handshake.client c2)
  ∧ (∀ now frame nonce',
       Handshake.step sign now (Handshake.Data frame nonce') c2
       = Some (Handshake.set_client
                 (completed (handleFrame frame (Handshake.client c2))) c2)).
Proof.
  intros c0 c2. split; [reflexivity |]. split.
  - split; cbn; intros *; by rewrite ?lookup_empty.
  - intros now frame nonce'. reflexivity.
Qed.

(** X14.  Whatever the socket delivers during and after the handshake, at
    most one connect request is written, and it answers the first
    challenge: it is the request signed over that challenge's nonce at the
    clock reading of its arrival.  Later challenges are not answered. *)
Theorem connect_request_answers_first_challenge sign cfg ident t0 trace c :
  Handshake.run sign trace (Handshake.connect ident t0 (Handshake.new_client cfg))
  = Some c →
  Handshake.sent c
  = match first_challenge trace with
    | Some (t, nonce) => [Identity.sendConnectRequest sign ident cfg (uuid 0) t nonce]
    | None => []
    end.
Proof.
  intros H.
  exact (sent_run sign cfg ident t0 trace _ _ (connecting_connect cfg ident t0) H).
Qed.

Lemma connect_request_answers_first_challenge_witness :
  Handshake.sent
    <$> Handshake.run toy_sign
          [ (1, Handshake.Data Handshake.challengeFrame (Some "n1"));
            (2, Handshake.Data Handshake.challengeFrame (Some "n2")) ]
          (Handshake.connect sampleIdentity 0 (Handshake.new_client sampleConfig))
  = Some [Identity.sendConnectRequest toy_sign sampleIdentity sampleConfig (uuid 0) 1
            (Some "n1")].
Proof.
  destruct (Handshake.run toy_sign
              [ (1, Handshake.Data Handshake.challengeFrame (Some "n1"));
                (2, Handshake.Data Handshake.challengeFrame (Some "n2")) ]
              (Handshake.connect sampleIdentity 0 (Handshake.new_client sampleConfig)))
    as [c |] eqn:E; [| discriminate E].
  cbn [fmap option_fmap option_map]. f_equal.
  exact (connect_request_answers_first_challenge toy_sign sampleConfig sampleIdentity
           0 _ c E).
Defined.

(** X15.  At every point of a handshake started at [t0], whatever the
    socket delivers: the promise of [connect] is pending exactly while the
    connection timer is armed, and the timer is armed for [t0 + 15000]
    only while the handshake is incomplete and the client not connected;
    the promise is fulfilled only by a completed handshake; the client is
    marked connected only after a completed handshake; and the client
    itself closes the socket only when it has rejected with the connection
    timeout. *)
Theorem connect_pending_while_timer_armed sign cfg ident t0 trace c :
  Handshake.run sign trace (Handshake.connect ident t0 (Handshake.new_client cfg))
  = Some c →
  (Handshake.outcome c = Pending ↔ Handshake.deadline c = Some (t0 + 15000))
  ∧ (Handshake.deadline c = Some (t0 + 15000) →
     Handshake.handshakeComplete c = false ∧ connected (Handshake.client c) = false)
  ∧ (∀ v, Handshake.outcome c = Fulfilled v →
       v = VUnit ∧ Handshake.handshakeComplete c = true)
  ∧ (connected (Handshake.client c) = true → Handshake.handshakeComplete c = true)
  ∧ (Handshake.closing c = true →
     Handshake.outcome c = Rejected "Connection timeout after 15 seconds").
Proof.
  intros H.
  destruct (connecting_run sign cfg ident t0 trace _ _ (connecting_connect cfg ident t0) H)
    as [Hcfg Hws Hid Hcid Htm Harm Hful Hcon Hclo Hsent].
  split_and!; try done.
  - split.
    + intros Hp. destruct (Handshake.deadline c) as [d |] eqn:Hd.
      * destruct (Harm d eq_refl) as [-> _]. reflexivity.
      * destruct (proj1 Htm eq_refl). exact Hp.
    + intros Hd. destruct (Handshake.outcome c) eqn:E; [done | |].
      * assert (Handshake.deadline c = None) by (apply Htm; congruence). congruence.
      * assert (Handshake.deadline c = None) by (apply Htm; congruence). congruence.
  - intros Hd. by destruct (Harm _ Hd) as (_ & ? & ?).
Qed.

Lemma connect_pending_while_timer_armed_witness :
  ∃ c,
    Handshake.run toy_sign
      [ (1, Handshake.Data Handshake.challengeFrame (Some "n1"));
        (15000, Handshake.Timeout) ]
      (Handshake.connect sampleIdentity 0 (Handshake.new_client sampleConfig))
    = Some c
    ∧ Handshake.outcome c = Rejected "Connection timeout after 15 seconds"
    ∧ (Handshake.outcome c = Pending ↔ Handshake.deadline c = Some (0 + 15000)).
Proof.
  assert (E : ∃ c,
    Handshake.run toy_sign
      [ (1, Handshake.Data Handshake.challengeFrame (Some "n1"));
        (15000, Handshake.Timeout) ]
      (Handshake.connect sampleIdentity 0 (Handshake.new_client sampleConfig))
    = Some c
    ∧ Handshake.outcome c = Rejected "Connection timeout after 15 seconds").
  { eexists. split; reflexivity. }
  destruct E as (c & E & Ho). exists c. split; [exact E |]. split; [exact Ho |].
  exact (proj1 (connect_pending_while_timer_armed toy_sign sampleConfig sampleIdentity
                  0 _ c E)).
Defined.

Lemma connect_pending_armed sign cfg ident t0 trace c :
  Handshake.run sign trace (Handshake.connect ident t0 (Handshake.new_client cfg))
  = Some c →
  Handshake.outcome c = Pending →
  Handshake.deadline c = Some (t0 + 15000)
  ∧ Handshake.handshakeComplete c = false
  ∧ connected (Handshake.client c) = false
  ∧ ws (Handshake.client c) = true
  ∧ Handshake.connectId c = uuid 0.
Proof.
  intros H Hp.
  destruct (connecting_run sign cfg ident t0 trace _ _ (connecting_connect cfg ident t0) H)
    as [Hcfg Hws Hid Hcid Htm Harm Hful Hcon Hclo Hsent].
  destruct (Handshake.deadline c) as [d |] eqn:Hd.
  - destruct (Harm d eq_refl) as (-> & ? & ?). done.
  - destruct (proj1 Htm eq_refl). exact Hp.
Qed.

(** X16.  While [connect] is pending, each way the handshake can fail
    rejects it with its own message and disarms the timer: an [ok = false]
    response to the connect request with the server's error message
    (["Connect handshake failed"] when there is none), a socket error with
    that error, a close of the socket with the close code, and the timer,
    no earlier than 15 s after the call, with the connection timeout, in
    which case the client closes the socket. *)
Theorem connect_failures sign cfg ident t0 trace c now :
  Handshake.run sign trace (Handshake.connect ident t0 (Handshake.new_client cfg))
  = Some c →
  Handshake.outcome c = Pending →
  (∀ pl err nonce,
     let c' := Handshake.on_message sign now (responseFrame (uuid 0) false pl err)
                 nonce c in
     Handshake.outcome c'
     = Rejected (or_string (err_message <$> err) "Connect handshake failed")
     ∧ Handshake.deadline c' = None)
  ∧ (∀ msg,
       Handshake.outcome (Handshake.on_error msg c) = Rejected msg
       ∧ Handshake.deadline (Handshake.on_error msg c) = None)
  ∧ (∀ code,
       Handshake.outcome (Handshake.on_close code c)
       = Rejected ("Connection closed before handshake (code: "
                   +:+ pretty code +:+ ")")
       ∧ Handshake.deadline (Handshake.on_close code c) = None)
  ∧ (now < t0 + 15000 → Handshake.step sign now Handshake.Timeout c = None)
  ∧ (t0 + 15000 ≤ now →
     ∃ c', Handshake.step sign now Handshake.Timeout c = Some c'
           ∧ Handshake.outcome c' = Rejected "Connection timeout after 15 seconds"
           ∧ Handshake.closing c' = true
           ∧ Handshake.deadline c' = None).
Proof.
  intros H Hp.
  destruct (connect_pending_armed sign cfg ident t0 trace c H Hp) as (Hd & Hh & Hc & Hws & Hid).
  split_and!.
  - intros pl err nonce c'. subst c'. unfold Handshake.on_message.
    cbn [responseFrame f_type f_event f_id f_ok f_error String.eqb Ascii.eqb
         Bool.eqb andb].
    rewrite andb_false_r. rewrite Hh, Hid, String.eqb_refl.
    cbn [negb andb]. unfold Handshake.settle_outcome. hproj. by rewrite Hp.
  - intros msg. unfold Handshake.on_error, Handshake.settle_outcome. hproj.
    by rewrite Hp.
  - intros code. unfold Handshake.on_close, Handshake.settle_outcome. hproj.
    rewrite Hh. hproj. by rewrite Hp.
  - intros Hlt. cbn [Handshake.step]. rewrite Hd.
    destruct (Z.leb_spec (t0 + 15000) now); [lia | done].
  - intros Hle. cbn [Handshake.step]. rewrite Hd.
    destruct (Z.leb_spec (t0 + 15000) now); [| lia].
    eexists. split; [reflexivity |].
    unfold Handshake.on_timeout, Handshake.settle_outcome. hproj.
    rewrite Hc, Hws. hproj. by rewrite Hp.
Qed.

Lemma connect_failures_witness :
  ∃ c,
    Handshake.run toy_sign [(1, Handshake.Data Handshake.challengeFrame (Some "n1"))]
      (Handshake.connect sampleIdentity 0 (Handshake.new_client sampleConfig))
    = Some c
    ∧ Handshake.outcome c = Pending
    ∧ Handshake.outcome (Handshake.on_close 1006 c)
      = Rejected "Connection closed before handshake (code: 1006)".
Proof.
  assert (E : ∃ c,
    Handshake.run toy_sign [(1, Handshake.Data Handshake.challengeFrame (Some "n1"))]
      (Handshake.connect sampleIdentity 0 (Handshake.new_client sampleConfig))
    = Some c
    ∧ Handshake.outcome c = Pending).
  { eexists. split; reflexivity. }
  destruct E as (c & E & Hp). exists c. split; [exact E |]. split; [exact Hp |].
  destruct (connect_failures toy_sign sampleConfig sampleIdentity 0 _ c 2 E Hp)
    as (_ & _ & Hc & _).
  exact (proj1 (Hc 1006)).
Defined.

(** ** The service name and the command line *)

Lemma append_cons c (a b : string) : String c a +:+ b = String c (a +:+ b).
Proof. reflexivity. Qed.

Lemma append_nil_l (b : string) : "" +:+ b = b.
Proof. reflexivity. Qed.

Lemma split_nonempty sep s : Runner.split sep s ≠ [].
Proof.
  induction s as [| c s IH]; cbn [Runner.split]; [done |].
  destruct (Runner.split sep s) as [| p ps]; [done |].
  by destruct (Ascii.eqb c sep).
Qed.

Lemma split_cons sep c s :
  Runner.split sep (String c s)
  = if Ascii.eqb c sep then "" :: Runner.split sep s
    else match Runner.split sep s with
         | p :: ps => String c p :: ps
         | [] => []
         end.
Proof.
  cbn [Runner.split]. pose proof (split_nonempty sep s).
  destruct (Runner.split sep s) as [| p ps]; [done |].
  by destruct (Ascii.eqb c sep).
Qed.

Lemma split_head sep s :
  ∃ ps, Runner.split sep s = Runner.before sep s :: ps.
Proof.
  induction s as [| c s [ps IH]]; [by exists [] |].
  rewrite split_cons. cbn [Runner.before].
  destruct (Ascii.eqb c sep); [by eexists |].
  rewrite IH. by eexists.
Qed.

Lemma split_app sep a rest :
  Runner.contains sep a = false →
  Runner.split sep (a +:+ String sep rest) = a :: Runner.split sep rest.
Proof.
  induction a as [| c a IH]; cbn [Runner.contains]; intros H.
  - rewrite append_nil_l, split_cons. by rewrite Ascii.eqb_refl.
  - apply orb_false_iff in H as [Hc Ha].
    rewrite append_cons, split_cons, Hc, (IH Ha). reflexivity.
Qed.

Lemma split_plain sep a :
  Runner.contains sep a = false → Runner.split sep a = [a].
Proof.
  induction a as [| c a IH]; cbn [Runner.contains]; intros H; [done |].
  apply orb_false_iff in H as [Hc Ha].
  by rewrite split_cons, Hc, (IH Ha).
Qed.

Lemma split_snoc sep s n :
  Runner.contains sep n = false →
  Runner.split sep (s +:+ String sep n) = Runner.split sep s ++ [n].
Proof.
  intros Hn. induction s as [| c s IH].
  - rewrite append_nil_l, split_cons, Ascii.eqb_refl, (split_plain _ _ Hn).
    reflexivity.
  - rewrite append_cons, !split_cons, IH.
    destruct (Ascii.eqb c sep); [done |].
    pose proof (split_nonempty sep s).
    by destruct (Runner.split sep s).
Qed.

Lemma join_split sep s :
  Identity.join (String sep "") (Runner.split sep s) = s.
Proof.
  induction s as [| c s IH]; [done |].
  rewrite split_cons.
  destruct (Ascii.eqb_spec c sep) as [-> | Hne].
  - pose proof (split_nonempty sep s).
    destruct (Runner.split sep s) as [| p ps] eqn:E; [done |].
    change (Identity.join (String sep "") ("" :: p :: ps))
      with ("" +:+ String sep "" +:+ Identity.join (String sep "") (p :: ps)).
    by rewrite IH.
  - pose proof (split_nonempty sep s).
    destruct (Runner.split sep s) as [| p [| q ps]] eqn:E; [done | |].
    + cbn [Identity.join] in *. by rewrite IH.
    + change (Identity.join (String sep "") (String c p :: q :: ps))
        with (String c (p +:+ String sep "" +:+ Identity.join (String sep "") (q :: ps))).
      f_equal. exact IH.
Qed.

(** X17.  The service name that [setVS7Mode] restarts is the container
    name without its first and its last dash-separated part: for a name
    [project-service-number] whose project and number contain no dash it is
    [service], dashes included.  A container name with fewer than three
    parts gives the empty service name. *)
Theorem serviceName_strips_project_and_number :
  (∀ project service number,
     Runner.contains "-" project = false → Runner.contains "-" number = false →
     Runner.serviceName (project +:+ "-" +:+ service +:+ "-" +:+ number) = service)
  ∧ (∀ a b,
     Runner.contains "-" a = false → Runner.contains "-" b = false →
     Runner.serviceName a = "" ∧ Runner.serviceName (a +:+ "-" +:+ b) = "")
  ∧ Runner.serviceName "openclaw-openclaw-gateway-1" = "openclaw-gateway".
Proof.
  split_and!; [| | reflexivity].
  - intros project service number Hp Hn. unfold Runner.serviceName.
    change (project +:+ "-" +:+ service +:+ "-" +:+ number)
      with (project +:+ String "-" (service +:+ String "-" number)).
    rewrite (split_app _ _ _ Hp), (split_snoc _ _ _ Hn).
    unfold Runner.slice_inner. cbn [length drop].
    rewrite length_app. cbn [length].
    replace (S (length (Runner.split "-" service) + 1) - 2)%nat
      with (length (Runner.split "-" service)) by lia.
    rewrite drop_0, take_app_length. apply join_split.
  - intros a b Ha Hb. unfold Runner.serviceName. split.
    + by rewrite (split_plain _ _ Ha).
    + change (a +:+ "-" +:+ b) with (a +:+ String "-" b).
      by rewrite (split_app _ _ _ Ha), (split_plain _ _ Hb).
Qed.

Lemma serviceName_strips_project_and_number_witness :
  Runner.contains "-" "openclaw" = false ∧ Runner.contains "-" "1" = false
  ∧ Runner.serviceName ("openclaw" +:+ "-" +:+ "openclaw-gateway" +:+ "-" +:+ "1")
    = "openclaw-gateway".
Proof.
  split; [reflexivity |]. split; [reflexivity |].
  destruct serviceName_strips_project_and_number as [H _].
  exact (H "openclaw" "openclaw-gateway" "1" eq_refl eq_refl).
Defined.

Lemma argValue_flag flag v :
  Runner.contains "=" flag = false →
  Runner.argValue (flag +:+ String "=" v) = Runner.before "=" v.
Proof.
  intros H. unfold Runner.argValue. rewrite (split_app _ _ _ H).
  destruct (split_head "=" v) as [ps ->]. reflexivity.
Qed.

Lemma parseArgs_app load a0 xs ys :
  Runner.parseArgs load a0 (xs ++ ys)
  = Runner.parseArgs load a0 xs ≫= λ a, Runner.parseArgs load a ys.
Proof.
  revert a0. induction xs as [| x xs IH]; intros a0; cbn [app Runner.parseArgs].
  - reflexivity.
  - destruct (Runner.parseArg load a0 x); [apply IH | reflexivity].
Qed.

Lemma parseArg_test_id load a v :
  Runner.parseArg load a ("--test-id=" +:+ v)
  = Some (Runner.mkArgs [Runner.before "=" v] (Runner.gatewayUrl a)
            (Runner.dockerContainer a) (Runner.configPath a) (Runner.gatewayToken a)).
Proof.
  change (Runner.parseArg load a ("--test-id=" +:+ v))
    with (Some (Runner.mkArgs [Runner.argValue ("--test-id" +:+ String "=" v)]
                  (Runner.gatewayUrl a) (Runner.dockerContainer a)
                  (Runner.configPath a) (Runner.gatewayToken a))).
  by rewrite (argValue_flag "--test-id" v eq_refl).
Qed.

(** X18.  [main] reads its options left to right: each recognised
    argument replaces the value of its own option and leaves the others as
    the earlier arguments set them, so the last occurrence wins; the value
    taken is the text between the first and the second [=] of the argument,
    so a value that contains [=] is cut there; [--test-ids] splits its
    value at commas and yields at least one id, also for an empty value. *)
Theorem parseArgs_last_wins load a0 args a v :
  Runner.parseArgs load a0 args = Some a →
  let value := Runner.before "=" v in
  let parsed arg := Runner.parseArgs load a0 (args ++ [arg]) in
  parsed ("--test-id=" +:+ v)
  = Some (Runner.mkArgs [value] (Runner.gatewayUrl a) (Runner.dockerContainer a)
            (Runner.configPath a) (Runner.gatewayToken a))
  ∧ parsed ("--test-ids=" +:+ v)
    = Some (Runner.mkArgs (Runner.split "," value) (Runner.gatewayUrl a)
              (Runner.dockerContainer a) (Runner.configPath a) (Runner.gatewayToken a))
  ∧ Runner.split "," value ≠ []
  ∧ parsed ("--category=" +:+ v)
    = (ids ← load value;
       Some (Runner.mkArgs ids (Runner.gatewayUrl a) (Runner.dockerContainer a)
               (Runner.configPath a) (Runner.gatewayToken a)))
  ∧ parsed ("--gateway-url=" +:+ v)
    = Some (Runner.mkArgs (Runner.testIds a) value (Runner.dockerContainer a)
              (Runner.configPath a) (Runner.gatewayToken a))
  ∧ parsed ("--docker=" +:+ v)
    = Some (Runner.mkArgs (Runner.testIds a) (Runner.gatewayUrl a) value
              (Runner.configPath a) (Runner.gatewayToken a))
  ∧ parsed ("--config=" +:+ v)
    = Some (Runner.mkArgs (Runner.testIds a) (Runner.gatewayUrl a)
              (Runner.dockerContainer a) value (Runner.gatewayToken a))
  ∧ parsed ("--token=" +:+ v)
    = Some (Runner.mkArgs (Runner.testIds a) (Runner.gatewayUrl a)
              (Runner.dockerContainer a) (Runner.configPath a) (Some value)).
Proof.
  intros H value parsed. subst parsed value. cbv beta.
  rewrite !parseArgs_app, H. cbn [mbind option_bind Runner.parseArgs].
  assert (V : ∀ flag, Runner.contains "=" flag = false →
                Runner.argValue (flag +:+ String "=" v) = Runner.before "=" v)
    by (intros; by apply argValue_flag).
  pose proof (V "--test-id" eq_refl) as V1.
  pose proof (V "--test-ids" eq_refl) as V2.
  pose proof (V "--category" eq_refl) as V3.
  pose proof (V "--gateway-url" eq_refl) as V4.
  pose proof (V "--docker" eq_refl) as V5.
  pose proof (V "--config" eq_refl) as V6.
  pose proof (V "--token" eq_refl) as V7.
  split_and!.
  - exact (parseArg_test_id load a v).
  - change (Runner.parseArg load a ("--test-ids=" +:+ v))
      with (Some (Runner.mkArgs
                    (Runner.split "," (Runner.argValue ("--test-ids" +:+ String "=" v)))
                    (Runner.gatewayUrl a) (Runner.dockerContainer a)
                    (Runner.configPath a) (Runner.gatewayToken a))).
    by rewrite V2.
  - apply split_nonempty.
  - change (Runner.parseArg load a ("--category=" +:+ v))
      with (ids ← load (Runner.argValue ("--category" +:+ String "=" v));
            Some (Runner.mkArgs ids (Runner.gatewayUrl a) (Runner.dockerContainer a)
                    (Runner.configPath a) (Runner.gatewayToken a))).
    rewrite V3. by destruct (load _).
  - change (Runner.parseArg load a ("--gateway-url=" +:+ v))
      with (Some (Runner.mkArgs (Runner.testIds a)
                    (Runner.argValue ("--gateway-url" +:+ String "=" v))
                    (Runner.dockerContainer a) (Runner.configPath a)
                    (Runner.gatewayToken a))).
    by rewrite V4.
  - change (Runner.parseArg load a ("--docker=" +:+ v))
      with (Some (Runner.mkArgs (Runner.testIds a) (Runner.gatewayUrl a)
                    (Runner.argValue ("--docker" +:+ String "=" v))
                    (Runner.configPath a) (Runner.gatewayToken a))).
    by rewrite V5.
  - change (Runner.parseArg load a ("--config=" +:+ v))
      with (Some (Runner.mkArgs (Runner.testIds a) (Runner.gatewayUrl a)
                    (Runner.dockerContainer a)
                    (Runner.argValue ("--config" +:+ String "=" v))
                    (Runner.gatewayToken a))).
    by rewrite V6.
  - change (Runner.parseArg load a ("--token=" +:+ v))
      with (Some (Runner.mkArgs (Runner.testIds a) (Runner.gatewayUrl a)
                    (Runner.dockerContainer a) (Runner.configPath a)
                    (Some (Runner.argValue ("--token" +:+ String "=" v))))).
    by rewrite V7.
Qed.

Lemma parseArgs_last_wins_witness :
  Runner.parseArgs (λ _, None) Runner.defaultArgs ["--token=first"]
  = Some (Runner.mkArgs [] "ws://localhost:18789" "openclaw-openclaw-gateway-1"
            "../data/openclaw-config/openclaw.json" (Some "first"))
  ∧ Runner.parseArgs (λ _, None) Runner.defaultArgs
      (["--token=first"] ++ ["--token=" +:+ "c2VjcmV0=="])
    = Some (Runner.mkArgs [] "ws://localhost:18789" "openclaw-openclaw-gateway-1"
              "../data/openclaw-config/openclaw.json" (Some "c2VjcmV0")).
Proof.
  assert (H : Runner.parseArgs (λ _, None) Runner.defaultArgs ["--token=first"]
    = Some (Runner.mkArgs [] "ws://localhost:18789" "openclaw-openclaw-gateway-1"
              "../data/openclaw-config/openclaw.json" (Some "first")))
    by reflexivity.
  split; [exact H |].
  destruct (parseArgs_last_wins (λ _, None) Runner.defaultArgs ["--token=first"] _
              "c2VjcmV0==" H) as (_ & _ & _ & _ & _ & _ & _ & Ht).
  exact Ht.
Defined.

Lemma parseArg_keeps_testIds load a arg a' :
  selects_tests arg = false → Runner.parseArg load a arg = Some a' →
  Runner.testIds a' = Runner.testIds a.
Proof.
  unfold selects_tests, Runner.parseArg. intros H.
  apply orb_false_iff in H as [H H3]. apply orb_false_iff in H as [H1 H2].
  rewrite H1, H2, H3. cbv iota.
  repeat (match goal with
          | |- context [Runner.startsWith ?p arg] =>
              destruct (Runner.startsWith p arg)
          end; cbv iota; [intros [= <-]; reflexivity |]).
  intros [= <-]. reflexivity.
Qed.

Lemma parseArgs_keeps_testIds load args : ∀ a a',
  Forall (λ arg, selects_tests arg = false) args →
  Runner.parseArgs load a args = Some a' →
  Runner.testIds a' = Runner.testIds a.
Proof.
  induction args as [| arg args IH]; intros a a' HF; cbn [Runner.parseArgs].
  - by intros [= <-].
  - apply Forall_cons in HF as [H HF].
    destruct (Runner.parseArg load a arg) as [a1 |] eqn:E; [| done].
    intros Hp. rewrite (IH a1 a' HF Hp).
    by eapply parseArg_keeps_testIds.
Qed.

Lemma parseArgs_total load args : ∀ a,
  Forall (λ arg, selects_tests arg = false) args →
  is_Some (Runner.parseArgs load a args).
Proof.
  induction args as [| arg args IH]; intros a HF; cbn [Runner.parseArgs]; [by eexists |].
  apply Forall_cons in HF as [H HF].
  assert (E : is_Some (Runner.parseArg load a arg)).
  { unfold selects_tests in H. unfold Runner.parseArg.
    apply orb_false_iff in H as [H H3]. apply orb_false_iff in H as [H1 H2].
    rewrite H1, H2, H3. cbv iota.
    repeat (match goal with
            | |- context [Runner.startsWith ?p arg] =>
                destruct (Runner.startsWith p arg)
            end; cbv iota; [by eexists |]).
    by eexists. }
  destruct E as [a1 ->]. by apply IH.
Qed.

(** X19.  When no argument selects tests (none starts with [--test-id=],
    [--test-ids=] or [--category=]), [main] prints its usage and exits,
    whatever other options are given.  An argument [--test-id=...] at the
    end always starts the runner, with a single test id that is the empty
    string when the value is empty; the gateway token is the one of the
    last [--token=] argument unless that is missing or empty, in which
    case the environment's token is used. *)
Theorem startup_usage load env args :
  (Forall (λ arg, selects_tests arg = false) args →
   Runner.startup load env args = Runner.Usage)
  ∧ (∀ a v, Runner.parseArgs load Runner.defaultArgs args = Some a →
     Runner.startup load env (args ++ ["--test-id=" +:+ v])
     = Runner.Start
         (Runner.mkArgs [Runner.before "=" v] (Runner.gatewayUrl a)
            (Runner.dockerContainer a) (Runner.configPath a)
            (match Runner.gatewayToken a with
             | Some (String c rest) => Some (String c rest)
             | _ => env
             end))).
Proof.
  split.
  - intros HF. unfold Runner.startup.
    destruct (parseArgs_total load args Runner.defaultArgs HF) as [a E].
    rewrite E, (parseArgs_keeps_testIds load args _ _ HF E). reflexivity.
  - intros a v H. unfold Runner.startup.
    rewrite parseArgs_app, H. cbn [mbind option_bind Runner.parseArgs].
    rewrite parseArg_test_id.
    cbn [Runner.testIds Runner.gatewayUrl Runner.dockerContainer Runner.configPath
         Runner.gatewayToken].
    by destruct (Runner.gatewayToken a) as [[| c rest] |].
Qed.

Lemma startup_usage_witness :
  Forall (λ arg, selects_tests arg = false) ["--docker=box-gw-1"; "--verbose"]
  ∧ Runner.startup (λ _, None) (Some "env-token") ["--docker=box-gw-1"; "--verbose"]
    = Runner.Usage.
Proof.
  assert (H : Forall (λ arg, selects_tests arg = false)
                ["--docker=box-gw-1"; "--verbose"])
    by (repeat constructor).
  split; [exact H |].
  destruct (startup_usage (λ _, None) (Some "env-token")
              ["--docker=box-gw-1"; "--verbose"]) as [Hu _].
  exact (Hu H).
Defined.

(** ** The configuration update *)

Section Config_facts.
Import VS7Config.

Lemma field_set_eq k v fields : lookup_field k (set_field k v fields) = Some v.
Proof.
  induction fields as [| [k' v'] rest IH]; cbn [set_field lookup_field].
  - by rewrite String.eqb_refl.
  - destruct (String.eqb k' k) eqn:E; cbn [lookup_field]; by rewrite E.
Qed.

Lemma field_set_ne k k' v fields :
  k' ≠ k → lookup_field k' (set_field k v fields) = lookup_field k' fields.
Proof.
  intros Hne. induction fields as [| [k0 v0] rest IH]; cbn [set_field lookup_field].
  - destruct (String.eqb_spec k k'); [congruence | done].
  - destruct (String.eqb_spec k0 k) as [-> | Hk]; cbn [lookup_field].
    + destruct (String.eqb_spec k k'); [congruence | done].
    + destruct (String.eqb k0 k'); [done | exact IH].
Qed.

Lemma field_set_set k v1 v2 fields :
  set_field k v2 (set_field k v1 fields) = set_field k v2 fields.
Proof.
  induction fields as [| [k' v'] rest IH]; cbn [set_field].
  - by rewrite String.eqb_refl.
  - destruct (String.eqb k' k) eqn:E; cbn [set_field]; rewrite E; [done |].
    by rewrite IH.
Qed.

Lemma field_set_comm k k' v v' fields :
  k ≠ k' → is_Some (lookup_field k fields) →
  set_field k v (set_field k' v' fields) = set_field k' v' (set_field k v fields).
Proof.
  intros Hne. induction fields as [| [k0 v0] rest IH]; cbn [lookup_field set_field].
  - by intros [? ?].
  - destruct (String.eqb_spec k0 k) as [-> | Hk].
    + intros _. destruct (String.eqb_spec k k'); [congruence |].
      cbn [set_field]. rewrite String.eqb_refl.
      destruct (String.eqb_spec k k'); [congruence | done].
    + intros H. destruct (String.eqb_spec k0 k') as [-> | Hk'].
      * cbn [set_field]. destruct (String.eqb_spec k' k); [congruence |].
        by rewrite String.eqb_refl.
      * cbn [set_field]. destruct (String.eqb_spec k0 k); [congruence |].
        destruct (String.eqb_spec k0 k'); [congruence |].
        by rewrite IH.
Qed.

Lemma field_delete_eq k fields : lookup_field k (delete_field k fields) = None.
Proof.
  induction fields as [| [k' v'] rest IH]; cbn [delete_field lookup_field]; [done |].
  destruct (String.eqb k' k) eqn:E; [done |]. cbn [lookup_field]. by rewrite E.
Qed.

Lemma field_delete_ne k k' fields :
  k' ≠ k → lookup_field k' (delete_field k fields) = lookup_field k' fields.
Proof.
  intros Hne. induction fields as [| [k0 v0] rest IH]; cbn [delete_field lookup_field];
    [done |].
  destruct (String.eqb_spec k0 k) as [-> | Hk]; cbn [lookup_field].
  - destruct (String.eqb_spec k k'); [congruence | done].
  - destruct (String.eqb k0 k'); [done | exact IH].
Qed.

Lemma field_delete_delete k fields :
  delete_field k (delete_field k fields) = delete_field k fields.
Proof.
  induction fields as [| [k' v'] rest IH]; cbn [delete_field]; [done |].
  destruct (String.eqb k' k) eqn:E; [done |]. cbn [delete_field]. by rewrite E, IH.
Qed.

Lemma field_delete_set k k' v fields :
  k ≠ k' →
  delete_field k (set_field k' v fields) = set_field k' v (delete_field k fields).
Proof.
  intros Hne. induction fields as [| [k0 v0] rest IH]; cbn [delete_field set_field].
  - destruct (String.eqb_spec k' k); [congruence | done].
  - destruct (String.eqb_spec k0 k') as [-> | Hk'].
    + cbn [delete_field]. destruct (String.eqb_spec k' k); [congruence |].
      cbn [set_field]. by rewrite String.eqb_refl.
    + cbn [delete_field]. destruct (String.eqb_spec k0 k); [done |].
      cbn [set_field]. destruct (String.eqb_spec k0 k'); [congruence |].
      by rewrite IH.
Qed.

Lemma composite_truthy c : composite c → truthy_json (Some c) = true.
Proof. by destruct c. Qed.

Lemma child_of_set k c fields :
  composite c → child_of k (set_field k c fields) = c.
Proof.
  intros H. unfold child_of. rewrite field_set_eq. by rewrite composite_truthy.
Qed.

Lemma child_of_set_ne k k' c fields :
  k' ≠ k → child_of k' (set_field k c fields) = child_of k' fields.
Proof. intros H. unfold child_of. by rewrite field_set_ne. Qed.

Lemma assign_absorbs k x1 x2 : absorbs (assign k x2) (assign k x1).
Proof.
  intros [| | | | items | fields] y; cbn [assign]; try done.
  - by intros [= <-].
  - intros [= <-]. cbn [assign]. by rewrite field_set_set.
Qed.

Lemma assign_composite k x : yields_composite (assign k x).
Proof. intros [| | | | items | fields] y; cbn [assign]; try done; by intros [= <-]. Qed.

Lemma ensure_composite k G : yields_composite (ensure k G).
Proof.
  intros [| | | | items | fields] y; cbn [ensure]; try done.
  - destruct (G (JObj [])); [| done]. by intros [= <-].
  - destruct (G (child_of k fields)); [| done]. by intros [= <-].
Qed.

Lemma ensure_absorbs k G1 G2 :
  absorbs G2 G1 → yields_composite G1 → absorbs (ensure k G2) (ensure k G1).
Proof.
  intros HA HC [| | | | items | fields] y; cbn [ensure]; try done.
  - destruct (G1 (JObj [])); [| done]. by intros [= <-].
  - destruct (G1 (child_of k fields)) as [c1 |] eqn:E1; [| done].
    intros [= <-]. cbn [ensure mbind option_bind].
    rewrite (child_of_set _ _ _ (HC _ _ E1)), (HA _ _ E1).
    destruct (G2 (child_of k fields)); [| done]. cbn. by rewrite field_set_set.
Qed.

Lemma ensure_path_absorbs path : ∀ G1 G2,
  absorbs G2 G1 → yields_composite G1 →
  absorbs (ensure_path path G2) (ensure_path path G1)
  ∧ yields_composite (ensure_path path G1).
Proof.
  induction path as [| k path IH]; intros G1 G2 HA HC; cbn [ensure_path]; [done |].
  destruct (IH G1 G2 HA HC) as [IA IC].
  split; [by apply ensure_absorbs | apply ensure_composite].
Qed.

Lemma get_path_falsy p c :
  p ≠ [] → truthy_json (Some c) = false → get_path p c = None.
Proof. destruct p; [done |]. by destruct c. Qed.

Lemma get_path_child_of k fields p :
  p ≠ [] → get_path p (child_of k fields) = lookup_field k fields ≫= get_path p.
Proof.
  intros Hp. unfold child_of.
  destruct (lookup_field k fields) as [c |]; cbn [mbind option_bind].
  - destruct (truthy_json (Some c)) eqn:E; [done |].
    rewrite (get_path_falsy p c Hp E). by destruct p.
  - by destruct p.
Qed.

Lemma ensure_preserves k G P :
  (∀ p, P p → p ≠ []) → preserves G P → preserves (ensure k G) (below k P).
Proof.
  intros HP HG [| | | | items | fields] y; cbn [ensure]; try done.
  - destruct (G (JObj [])); [| done]. by intros [= <-].
  - destruct (G (child_of k fields)) as [c |] eqn:E; [| done].
    intros [= <-] [| a p] Hp; [done |]. cbn [get_path].
    destruct (decide (a = k)) as [-> | Hne].
    + destruct Hp as [? | Hp]; [done |].
      rewrite field_set_eq. cbn. rewrite (HG _ _ E _ Hp).
      by apply get_path_child_of, HP.
    + by rewrite field_set_ne.
Qed.

Lemma below_nonempty k P p : below k P p → p ≠ [].
Proof. by destruct p. Qed.

Lemma assign_preserves k x : preserves (assign k x) (below k (λ _, False)).
Proof.
  intros [| | | | items | fields] y; cbn [assign]; try done.
  - by intros [= <-].
  - intros [= <-] [| a p] Hp; [done |]. cbn [get_path].
    destruct Hp as [Hne | []]. by rewrite field_set_ne.
Qed.

Lemma off_spec path : ∀ p, off path p = true → off_prop path p.
Proof.
  induction path as [| k path IH]; intros [| a p]; cbn [off off_prop below]; try done.
  intros [H | H]%orb_true_iff.
  - left. intros ->. by rewrite String.eqb_refl in H.
  - right. by apply IH.
Qed.

Lemma off_prop_nonempty path p : off_prop path p → p ≠ [].
Proof. destruct path; [done |]. apply below_nonempty. Qed.

Lemma ensure_path_assign_preserves path k x :
  preserves (ensure_path path (assign k x)) (off_prop (path ++ [k])).
Proof.
  induction path as [| k0 path IH]; cbn [ensure_path app off_prop].
  - apply assign_preserves.
  - apply ensure_preserves; [apply off_prop_nonempty | exact IH].
Qed.

(** What the update along a path of objects puts there. *)
Lemma ensure_path_assign_sets path k x : ∀ v,
  objects_along path v →
  ∃ out, ensure_path path (assign k x) v = Some out
         ∧ get_path (path ++ [k]) out = Some x.
Proof.
  induction path as [| k0 path IH]; intros [| | | | items | fields] Hv; try done;
    cbn [ensure_path ensure assign app get_path].
  - eexists. split; [done |]. cbn [get_path]. by rewrite field_set_eq.
  - assert (Hc : objects_along path (child_of k0 fields)).
    { cbn [objects_along] in Hv. unfold child_of.
      destruct (lookup_field k0 fields) as [c |]; [| by destruct path].
      destruct (truthy_json (Some c)); [by apply Hv | by destruct path]. }
    destruct (IH _ Hc) as (c & -> & Hget). cbn [mbind option_bind].
    eexists. split; [done |]. cbn [get_path]. by rewrite field_set_eq.
Qed.

Lemma written_obj enabled fields :
  written enabled (Some (JObj fields))
  = a ← ensure_path ["defaults"; "contextManagement"]
         (assign "enabled" (JBool enabled)) (child_of "agents" fields);
    g ← gatewayBody (child_of "gateway" fields);
    Some (JObj (set_field "gateway" g (set_field "agents" a fields))).
Proof.
  unfold written, setContextManagement, openGateway.
  change (default (JObj []) (Some (JObj fields))) with (JObj fields).
  cbn [ensure_path ensure].
  destruct (ensure "defaults" _ _) as [a |]; cbn [mbind option_bind ensure]; [| done].
  by rewrite child_of_set_ne.
Qed.

Lemma objects_along_child k path fields :
  objects_along (k :: path) (JObj fields) → objects_along path (child_of k fields).
Proof.
  cbn [objects_along]. unfold child_of.
  destruct (lookup_field k fields) as [c |]; [| by destruct path].
  destruct (truthy_json (Some c)); [by intros H; apply H | by destruct path].
Qed.

Lemma off_cons k path a p :
  off (k :: path) (a :: p) = true → a = k → off path p = true.
Proof.
  cbn [off]. intros H ->. by rewrite String.eqb_refl in H.
Qed.

(** X20. Starting from a configuration in which every container on the
    way to [agents.defaults.contextManagement] and to [gateway.controlUi]
    is an object (or is missing or falsy), and in particular from a
    missing or unreadable file, [setVS7Mode] writes a configuration with
    [agents.defaults.contextManagement.enabled] equal to the requested
    mode, without [gateway.auth], with
    [gateway.controlUi.dangerouslyDisableDeviceAuth] true, and with every
    setting off these three paths as it was. *)
Theorem setVS7Mode_writes enabled parsed :
  objects_along ["agents"; "defaults"; "contextManagement"]
    (default (JObj []) parsed) →
  objects_along ["gateway"; "controlUi"] (default (JObj []) parsed) →
  ∃ out,
    written enabled parsed = Some out
    ∧ get_path enabledPath out = Some (JBool enabled)
    ∧ get_path authPath out = None
    ∧ get_path deviceAuthPath out = Some (JBool true)
    ∧ ∀ p, off enabledPath p = true → off authPath p = true →
           off deviceAuthPath p = true →
           get_path p out = get_path p (default (JObj []) parsed).
Proof.
  assert (Hw : written enabled parsed
               = written enabled (Some (default (JObj []) parsed)))
    by (by destruct parsed).
  rewrite Hw. clear Hw.
  destruct (default (JObj []) parsed) as [| | | | items | fields]; try done.
  change (default (JObj []) (Some (JObj fields))) with (JObj fields).
  intros HA%objects_along_child HG%objects_along_child.
  rewrite written_obj.
  destruct (ensure_path_assign_sets _ "enabled" (JBool enabled) _ HA)
    as (a & Ea & Ha).
  pose proof (ensure_path_assign_preserves _ _ _ _ _ Ea) as Pa.
  rewrite Ea. cbn [mbind option_bind]. unfold gatewayBody.
  destruct (child_of "gateway" fields) as [| | | | gi | gf] eqn:Eg; try done.
  cbn [delete_prop mbind option_bind].
  change (ensure "controlUi") with (ensure_path ["controlUi"]).
  assert (HC : objects_along ["controlUi"] (JObj (delete_field "auth" gf))).
  { cbn [objects_along] in HG |- *. by rewrite field_delete_ne. }
  destruct (ensure_path_assign_sets _ "dangerouslyDisableDeviceAuth" (JBool true)
              _ HC) as (g & Eg' & Hg).
  pose proof (ensure_path_assign_preserves _ _ _ _ _ Eg') as Pg.
  rewrite Eg'. cbn [mbind option_bind].
  eexists. split; [done |]. unfold enabledPath, authPath, deviceAuthPath.
  split_and!.
  - cbn [get_path]. rewrite field_set_ne, field_set_eq by done. exact Ha.
  - cbn [get_path]. rewrite field_set_eq. cbn [mbind option_bind].
    change (get_path ["auth"] g = None).
    rewrite (Pg ["auth"]) by (cbn; by left).
    cbn [get_path]. by rewrite field_delete_eq.
  - cbn [get_path]. rewrite field_set_eq. exact Hg.
  - intros [| k p] H1 H2 H3; [done |]. cbn [get_path].
    destruct (decide (k = "gateway")) as [-> | Hk].
    + rewrite field_set_eq. cbn [mbind option_bind].
      pose proof (off_cons _ _ _ _ H2 eq_refl) as H2'.
      pose proof (off_cons _ _ _ _ H3 eq_refl) as H3'.
      rewrite (Pg p) by (by apply (off_spec ["controlUi"; _])).
      assert (Hp : p ≠ []) by (by destruct p).
      rewrite <- (get_path_child_of _ _ _ Hp), Eg.
      destruct p as [| k' p]; [done |]. cbn [get_path].
      rewrite field_delete_ne; [done |].
      intros ->. cbn in H2'. done.
    + rewrite field_set_ne by done.
      destruct (decide (k = "agents")) as [-> | Hk'].
      * rewrite field_set_eq. cbn [mbind option_bind].
        pose proof (off_cons _ _ _ _ H1 eq_refl) as H1'.
        rewrite (Pa p) by (by apply (off_spec ["defaults"; _; _])).
        apply get_path_child_of. by destruct p.
      * by rewrite field_set_ne.
Qed.

Lemma setVS7Mode_writes_witness :
  ∃ out,
    written true (Some storedConfig) = Some out
    ∧ get_path enabledPath out = Some (JBool true)
    ∧ get_path authPath out = None
    ∧ get_path deviceAuthPath out = Some (JBool true)
    ∧ ∀ p, off enabledPath p = true → off authPath p = true →
           off deviceAuthPath p = true →
           get_path p out = get_path p (default (JObj []) (Some storedConfig)).
Proof.
  apply (setVS7Mode_writes true (Some storedConfig)); vm_compute; intros;
    first [exact I | discriminate].
Defined.

Lemma gatewayBody_composite : yields_composite gatewayBody.
Proof.
  intros x y. unfold gatewayBody.
  destruct (delete_prop "auth" x) as [x' |]; [| done]. cbn [mbind option_bind].
  apply ensure_composite.
Qed.

Lemma gatewayBody_absorbs : absorbs gatewayBody gatewayBody.
Proof.
  intros [| | | | items | gf] y; unfold gatewayBody;
    cbn [delete_prop mbind option_bind]; try done.
  - by intros [= <-].
  - intros Hy.
    pose proof (ensure_absorbs "controlUi" _ _
                  (assign_absorbs "dangerouslyDisableDeviceAuth" (JBool true) (JBool true))
                  (assign_composite _ _) _ _ Hy) as HE.
    cbn [ensure] in Hy.
    destruct (assign _ _ (child_of "controlUi" (delete_field "auth" gf)))
      as [c |]; [| done].
    injection Hy as <-. cbn [delete_prop mbind option_bind].
    rewrite field_delete_set, field_delete_delete by done. exact HE.
Qed.

(** X21. Running [setVS7Mode] again on the configuration it wrote gives
    what a single run in the second mode gives: the last mode wins,
    whatever the first one was, and a second run in the same mode
    changes nothing. *)
Theorem setVS7Mode_last_mode_wins b1 b2 parsed out1 :
  written b1 parsed = Some out1 →
  written b2 (Some out1) = written b2 parsed
  ∧ written b1 (Some out1) = Some out1.
Proof.
  assert (Hgen : ∀ b b', written b parsed = Some out1 →
                         written b' (Some out1) = written b' parsed).
  { clear b1 b2. intros b1 b2.
    assert (Hw : ∀ b, written b parsed
                      = written b (Some (default (JObj []) parsed)))
      by (by destruct parsed).
    rewrite !Hw. clear Hw.
    destruct (default (JObj []) parsed) as [| | | | items | fields]; try done.
    { by intros [= <-]. }
    rewrite !written_obj.
    set (A b := ensure_path ["defaults"; "contextManagement"]
                  (assign "enabled" (JBool b))).
    destruct (ensure_path_absorbs ["defaults"; "contextManagement"] _ _
                (assign_absorbs "enabled" (JBool b1) (JBool b2))
                (assign_composite _ _)) as [HA HAc].
    fold (A b1) (A b2) in HA, HAc |- *.
    destruct (A b1 (child_of "agents" fields)) as [a1 |] eqn:Ea1;
      cbn [mbind option_bind]; [| done].
    destruct (gatewayBody (child_of "gateway" fields)) as [g1 |] eqn:Eg1;
      cbn [mbind option_bind]; [| done].
    intros [= <-].
    rewrite written_obj. fold (A b2).
    rewrite (child_of_set_ne "gateway" "agents") by done.
    rewrite (child_of_set _ _ _ (HAc _ _ Ea1)), (HA _ _ Ea1).
    rewrite (child_of_set _ _ _ (gatewayBody_composite _ _ Eg1)).
    rewrite (gatewayBody_absorbs _ _ Eg1), Eg1.
    destruct (A b2 (child_of "agents" fields)) as [a2 |]; [| done].
    cbn [mbind option_bind]. do 2 f_equal.
    rewrite (field_set_comm "agents" "gateway") by (done || (rewrite field_set_eq; eauto)).
    by rewrite !field_set_set. }
  intros H. split; [by apply (Hgen b1) |].
  by rewrite (Hgen b1 b1 H).
Qed.

Lemma setVS7Mode_last_mode_wins_witness :
  written true (Some (freshConfig false)) = written true None
  ∧ written false (Some (freshConfig false)) = Some (freshConfig false).
Proof.
  apply (setVS7Mode_last_mode_wins false true None (freshConfig false)).
  reflexivity.
Defined.

Lemma accepts_empty path : accepts path (JObj []) = true.
Proof. by destruct path. Qed.

Lemma accepts_child k path fields :
  accepts (k :: path) (JObj fields) = accepts path (child_of k fields).
Proof.
  cbn [accepts]. unfold child_of. destruct (lookup_field k fields) as [c |].
  - destruct (truthy_json (Some c)); [done | by rewrite accepts_empty].
  - by rewrite accepts_empty.
Qed.

Lemma ensure_path_accepts path k x : ∀ v,
  is_Some (ensure_path path (assign k x) v) ↔ accepts path v = true.
Proof.
  induction path as [| k0 path IH]; intros v.
  - destruct v; cbn [ensure_path assign accepts];
      (split; [try done; by intros [? [=]] | try done; eauto]).
  - destruct v as [| | | | items | fields]; cbn [ensure_path ensure];
      try (split; [by intros [? [=]] | done]).
    + pose proof (proj2 (IH (JObj [])) (accepts_empty path)) as [c ->].
      cbn. split; eauto.
    + rewrite accepts_child, <- IH.
      destruct (ensure_path path (assign k x) (child_of k0 fields)); cbn;
        split; eauto; by intros [? [=]].
Qed.

Lemma gatewayBody_accepts g :
  is_Some (gatewayBody g) ↔ accepts ["controlUi"] g = true.
Proof.
  unfold gatewayBody.
  destruct g as [| | | | items | gf]; cbn [delete_prop mbind option_bind];
    try (cbn [ensure]; split; [by intros [? [=]] | done]);
    try (cbn; split; by eauto).
  change (ensure "controlUi") with (ensure_path ["controlUi"]).
  rewrite ensure_path_accepts. cbn [accepts]. by rewrite field_delete_ne.
Qed.

(** X22. [setVS7Mode] gets as far as writing the file exactly when
    every value it meets on the way to
    [agents.defaults.contextManagement] and to [gateway.controlUi] is an
    object or an array (missing and falsy ones are replaced by [{}]);
    otherwise it fails with a [TypeError] and writes nothing. *)
Theorem setVS7Mode_writes_iff enabled parsed :
  is_Some (written enabled parsed)
  ↔ accepts ["agents"; "defaults"; "contextManagement"] (default (JObj []) parsed)
    && accepts ["gateway"; "controlUi"] (default (JObj []) parsed) = true.
Proof.
  assert (Hw : written enabled parsed
               = written enabled (Some (default (JObj []) parsed)))
    by (by destruct parsed).
  rewrite Hw. clear Hw.
  destruct (default (JObj []) parsed) as [| | | | items | fields];
    try (split; [by intros [? [=]] | done]);
    try (cbn; split; by eauto).
  rewrite written_obj, !accepts_child, andb_true_iff.
  rewrite <- (ensure_path_accepts _ "enabled" (JBool enabled)).
  rewrite <- gatewayBody_accepts.
  destruct (ensure_path _ _ (child_of "agents" fields));
    destruct (gatewayBody (child_of "gateway" fields)); cbn;
    split; eauto; intros H; try destruct H as [[? [=]] [? [=]]];
    try destruct H as [? [=]].
Qed.

End Config_facts.

(** ** The automated runner's client *)

Lemma append_nil_r (s : string) : s +:+ "" = s.
Proof.
  induction s as [| c s IH]; [reflexivity |].
  change (String c (s +:+ "") = String c s). by rewrite IH.
Qed.

Lemma truthy_false s : truthy s = false → s = "".
Proof.
  unfold truthy. intros H. apply negb_false_iff in H. by apply String.eqb_eq.
Qed.

Lemma accumulate_block_text acc block :
  Automated.accumulate_block acc block = acc +:+ Automated.block_text_of block.
Proof.
  unfold Automated.accumulate_block, Automated.block_text_of.
  destruct (String.eqb (block_type block) "text"); [| by rewrite append_nil_r].
  destruct (block_text block) as [t |]; cbn [default from_option id];
    [| by rewrite append_nil_r].
  destruct (truthy t) eqn:E; [done |].
  by rewrite (truthy_false _ E), append_nil_r.
Qed.

Lemma accumulate_blocks_text blocks : ∀ acc,
  foldl Automated.accumulate_block acc blocks
  = acc +:+ foldr (λ block text, Automated.block_text_of block +:+ text) "" blocks.
Proof.
  induction blocks as [| b blocks IH]; intros acc; cbn [foldl foldr].
  - by rewrite append_nil_r.
  - by rewrite IH, accumulate_block_text, append_assoc.
Qed.

Lemma accumulate_text acc m :
  Automated.accumulate acc m = acc +:+ Automated.message_text (Some m).
Proof.
  destruct m as [s | [[s | blocks |] |]]; cbn [Automated.accumulate Automated.message_text];
    try by rewrite append_nil_r.
  - done.
  - destruct (truthy s) eqn:E; [done |]. by rewrite (truthy_false _ E), append_nil_r.
  - apply accumulate_blocks_text.
Qed.

Lemma message_text_falsy m :
  Automated.truthy_message m = false → Automated.message_text m = "".
Proof.
  destruct m as [[s | c] |]; cbn; try done. apply truthy_false.
Qed.

Lemma automated_run_app a b st :
  Automated.run (a ++ b) st = Automated.run a st ≫= Automated.run b.
Proof.
  revert st. induction a as [| [now i] a IH]; intros st; cbn [app Automated.run];
    [done |].
  destruct (Automated.step now i st); cbn; [apply IH | done].
Qed.

(** A chat event for which no handler is registered changes nothing. *)
Lemma on_message_unregistered now ev st :
  Automated.runId ev ≫= (λ r, Automated.eventHandlers st !! r) = None →
  Automated.on_message now (Automated.chatEventFrame ev) st = st.
Proof.
  intros H. unfold Automated.on_message, Automated.chatEventFrame.
  cbn [Automated.ok Automated.id Automated.event Automated.data].
  rewrite bool_decide_eq_false_2 by (by intros [? [=]]).
  cbn [andb]. change (String.eqb "chat" "chat") with true. cbv iota.
  by rewrite H.
Qed.

Lemma run_unregistered events st :
  Automated.eventHandlers st = ∅ →
  Automated.run (Automated.chatEvents events) st = Some st.
Proof.
  intros H. induction events as [| [t ev] events IH]; [done |].
  cbn [Automated.chatEvents map Automated.run Automated.step fst snd].
  rewrite on_message_unregistered; [exact IH |].
  rewrite H. destruct (Automated.runId ev); [apply lookup_empty | done].
Qed.

Lemma sendPrompt_fresh key prompt t0 :
  Automated.sendPrompt prompt t0 (Automated.connected_client key)
  = (0%nat, Automated.promptSent key prompt t0).
Proof. reflexivity. Qed.

Lemma chat_send_response key prompt t0 t1 r err :
  truthy r = true →
  Automated.on_message t1 (Automated.responseFrame (uuid 1) true (Some r) err)
    (Automated.promptSent key prompt t0)
  = Automated.promptRunning key prompt t0 r "" Automated.Waiting (<[r := 0%nat]> ∅).
Proof.
  intros Hr. unfold Automated.on_message, Automated.responseFrame, Automated.promptSent.
  cbn [Automated.ok Automated.id Automated.event Automated.data
       Automated.messageHandlers].
  rewrite bool_decide_eq_true_2 by eauto. rewrite truthy_uuid. cbn [andb].
  rewrite lookup_insert_eq.
  unfold Automated.messageHandler.
  cbn [Automated.ok Automated.result_runId default from_option id negb].
  rewrite Hr. cbn. rewrite delete_insert_eq, delete_empty. reflexivity.
Qed.

Lemma streaming_event key prompt t0 t r text ev :
  truthy r = true → Automated.streaming r ev = true →
  Automated.on_message t (Automated.chatEventFrame ev)
    (Automated.promptRunning key prompt t0 r text Automated.Waiting (<[r := 0%nat]> ∅))
  = Automated.promptRunning key prompt t0 r
      (text +:+ Automated.run_text r [(t, ev)]) Automated.Waiting (<[r := 0%nat]> ∅).
Proof.
  intros Hr Hs. cbn [Automated.run_text]. rewrite append_nil_r.
  unfold Automated.streaming in Hs.
  destruct (decide (Automated.runId ev = Some r)) as [E | E].
  - rewrite bool_decide_eq_true_2 in Hs |- * by done. cbn [negb orb andb] in Hs |- *.
    unfold Automated.on_message, Automated.chatEventFrame.
    cbn [Automated.ok Automated.id Automated.event Automated.data].
    rewrite bool_decide_eq_false_2 by (by intros [? [=]]).
    cbn [andb]. change (String.eqb "chat" "chat") with true. cbv iota.
    rewrite E. cbn [mbind option_bind Automated.promptRunning Automated.eventHandlers].
    rewrite lookup_insert_eq. unfold Automated.eventHandler, Automated.promptRunning.
    cbn [Automated.calls lookup list_lookup Automated.fullResponse].
    apply negb_true_iff in Hs.
    apply orb_false_iff in Hs as [Hs Ha]. apply orb_false_iff in Hs as [Hf He].
    destruct (String.eqb (Automated.state ev) "delta") eqn:Ed; cbn [andb].
    + destruct (Automated.truthy_message (Automated.message ev)) eqn:Em.
      * destruct (Automated.message ev) as [m |] eqn:Emsg; [| done].
        rewrite accumulate_text. reflexivity.
      * rewrite Hf, He, Ha, (message_text_falsy _ Em), append_nil_r. reflexivity.
    + rewrite Hf, He, Ha, append_nil_r. reflexivity.
  - rewrite bool_decide_eq_false_2 by done. cbn [andb]. rewrite append_nil_r.
    apply on_message_unregistered.
    destruct (Automated.runId ev) as [r' |]; [| done]. cbn.
    rewrite lookup_insert_ne by congruence. apply lookup_empty.
Qed.

Lemma run_text_app r a b :
  Automated.run_text r (a ++ b) = Automated.run_text r a +:+ Automated.run_text r b.
Proof.
  induction a as [| [t ev] a IH]; cbn [app Automated.run_text]; [done |].
  by rewrite IH, append_assoc.
Qed.

Lemma streaming_events key prompt t0 r events : ∀ text,
  truthy r = true → Forall (λ e, Automated.streaming r e.2 = true) events →
  Automated.run (Automated.chatEvents events)
    (Automated.promptRunning key prompt t0 r text Automated.Waiting (<[r := 0%nat]> ∅))
  = Some (Automated.promptRunning key prompt t0 r
            (text +:+ Automated.run_text r events) Automated.Waiting
            (<[r := 0%nat]> ∅)).
Proof.
  induction events as [| [t ev] events IH]; intros text Hr HF.
  - cbn. by rewrite append_nil_r.
  - apply Forall_cons in HF as [Hs HF].
    cbn [Automated.chatEvents map Automated.run Automated.step fst snd].
    rewrite (streaming_event _ _ _ _ _ _ _ Hr Hs).
    fold (Automated.chatEvents events). rewrite (IH _ Hr HF).
    change ((t, ev) :: events) with ([(t, ev)] ++ events).
    by rewrite run_text_app, append_assoc.
Qed.

Lemma running_reached key prompt r err t0 t1 early later :
  truthy r = true →
  Forall (λ e, Automated.streaming r e.2 = true) later →
  Automated.run
    ([(t0, Automated.CallSendPrompt prompt)] ++ Automated.chatEvents early
     ++ [(t1, Automated.Message (Automated.responseFrame (uuid 1) true (Some r) err))]
     ++ Automated.chatEvents later)
    (Automated.connected_client key)
  = Some (Automated.promptRunning key prompt t0 r (Automated.run_text r later)
            Automated.Waiting (<[r := 0%nat]> ∅)).
Proof.
  intros Hr HF. cbn [app Automated.run Automated.step].
  rewrite sendPrompt_fresh. cbn [snd]. rewrite !automated_run_app.
  rewrite (run_unregistered early) by reflexivity.
  cbn [mbind option_bind Automated.run Automated.step].
  rewrite (chat_send_response _ _ _ _ _ _ Hr).
  rewrite (streaming_events _ _ _ _ _ _ Hr HF). reflexivity.
Qed.

Lemma on_message_ending key prompt t0 t r text ev :
  truthy r = true → Automated.runId ev = Some r →
  Automated.on_message t (Automated.chatEventFrame ev)
    (Automated.promptRunning key prompt t0 r text Automated.Waiting (<[r := 0%nat]> ∅))
  = Automated.eventHandler 0 t ev
      (Automated.promptRunning key prompt t0 r text Automated.Waiting
         (<[r := 0%nat]> ∅)).
Proof.
  intros Hr E. unfold Automated.on_message, Automated.chatEventFrame.
  cbn [Automated.ok Automated.id Automated.event Automated.data].
  rewrite bool_decide_eq_false_2 by (by intros [? [=]]).
  cbn [andb]. change (String.eqb "chat" "chat") with true. cbv iota.
  rewrite E. cbn [mbind option_bind Automated.promptRunning Automated.eventHandlers].
  by rewrite lookup_insert_eq.
Qed.

Lemma forget_running key prompt t0 r text o :
  truthy r = true →
  Automated.forget (Some r)
    (Automated.promptRunning key prompt t0 r text o (<[r := 0%nat]> ∅))
  = Automated.promptRunning key prompt t0 r text o ∅.
Proof.
  intros Hr. unfold Automated.forget. rewrite Hr.
  unfold Automated.promptRunning, Automated.set_eventHandlers. cbn.
  by rewrite delete_insert_eq, delete_empty.
Qed.

(** X23.  The automated runner's [sendPrompt] on a freshly connected
    client: once the [chat.send] response has named the run, the text of
    every [delta] event of that run is appended in order of arrival, and
    the [final] event resolves the call with that text, the token counts
    of the event's usage (total = input + output, each 0 when missing) and
    the time since the call.  Chat events that arrive before the response,
    events of other runs and events of unknown state contribute nothing.
    Afterwards no handler is registered; the call's timer stays armed. *)
Theorem automated_sendPrompt_streams key prompt r err u t0 t1 t2 early later :
  truthy r = true →
  Forall (λ e, Automated.streaming r e.2 = true) later →
  Automated.run
    ([(t0, Automated.CallSendPrompt prompt)] ++ Automated.chatEvents early
     ++ [(t1, Automated.Message (Automated.responseFrame (uuid 1) true (Some r) err))]
     ++ Automated.chatEvents later
     ++ [(t2, Automated.Message (Automated.chatEventFrame (Automated.finalEvent r u)))])
    (Automated.connected_client key)
  = Some (Automated.promptRunning key prompt t0 r (Automated.run_text r later)
            (Automated.Resolved
               {| Automated.response := Automated.run_text r later;
                  Automated.tokens :=
                    {| Automated.total :=
                         or_zero (u ≫= Automated.input_tokens)
                         + or_zero (u ≫= Automated.output_tokens);
                       Automated.input := u ≫= Automated.input_tokens;
                       Automated.output := u ≫= Automated.output_tokens;
                       Automated.cacheCreation :=
                         u ≫= Automated.cache_creation_input_tokens;
                       Automated.cacheRead := u ≫= Automated.cache_read_input_tokens |};
                  Automated.timeMs := t2 - t0 |})
            ∅).
Proof.
  intros Hr HF.
  rewrite !app_assoc, automated_run_app, <- !app_assoc.
  rewrite (running_reached _ _ _ _ _ _ _ _ Hr HF).
  cbn [mbind option_bind Automated.run Automated.step].
  rewrite (on_message_ending _ _ _ _ _ _ _ Hr) by reflexivity.
  unfold Automated.eventHandler.
  cbn [Automated.promptRunning Automated.calls lookup list_lookup Automated.finalEvent
       Automated.state Automated.message Automated.truthy_message andb
       Automated.call_runId Automated.fullResponse Automated.startTime Automated.usage].
  change (String.eqb "final" "delta") with false.
  change (String.eqb "final" "final") with true. cbv iota. cbn [andb].
  fold (Automated.promptRunning key prompt t0 r (Automated.run_text r later)
          Automated.Waiting (<[r := 0%nat]> ∅)).
  rewrite (forget_running _ _ _ _ _ _ Hr). reflexivity.
Qed.

Lemma automated_sendPrompt_streams_witness :
  Automated.run
    ([(0, Automated.CallSendPrompt "hello")]
     ++ Automated.chatEvents Automated.earlyDeltas
     ++ [(2, Automated.Message
               (Automated.responseFrame (uuid 1) true (Some "run-1") None))]
     ++ Automated.chatEvents Automated.sampleDeltas
     ++ [(9, Automated.Message
               (Automated.chatEventFrame
                  (Automated.finalEvent "run-1" (Some Automated.sampleUsage))))])
    (Automated.connected_client "default")
  = Some (Automated.promptRunning "default" "hello" 0 "run-1" "Hello, world"
            (Automated.Resolved
               {| Automated.response := "Hello, world";
                  Automated.tokens :=
                    {| Automated.total := 150; Automated.input := Some 120;
                       Automated.output := Some 30; Automated.cacheCreation := None;
                       Automated.cacheRead := Some 7 |};
                  Automated.timeMs := 9 |})
            ∅).
Proof.
  assert (HF : Forall (λ e, Automated.streaming "run-1" e.2 = true)
                 Automated.sampleDeltas) by (repeat constructor).
  exact (automated_sendPrompt_streams "default" "hello" "run-1" None
           (Some Automated.sampleUsage) 0 2 9 Automated.earlyDeltas
           Automated.sampleDeltas eq_refl HF).
Defined.

(** *** Calls whose handlers are gone *)















(** *** Every pending call has its timer *)

Lemma advances_refl st : Automated.advances st st.
Proof. split; [done | done |]. intros c call' H. by exists call'. Qed.

Lemma advances_trans st1 st2 st3 :
  Automated.advances st1 st2 → Automated.advances st2 st3 → Automated.advances st1 st3.
Proof.
  intros [L1 T1 C1] [L2 T2 C2]. split; [congruence | congruence |].
  intros c call3 H3. destruct (C2 c call3 H3) as (call2 & H2 & S2 & O2).
  destruct (C1 c call2 H2) as (call1 & H1 & S1 & O1).
  exists call1. split_and!; [done | congruence | auto].
Qed.

Lemma advances_handlers st m e :
  Automated.advances st
    (Automated.set_eventHandlers e (Automated.set_messageHandlers m st)).
Proof. split; [done | done |]. intros c call' H. by exists call'. Qed.

Lemma advances_forget r st : Automated.advances st (Automated.forget r st).
Proof.
  unfold Automated.forget. destruct r as [r |]; [| apply advances_refl].
  destruct (truthy r); [| apply advances_refl].
  split; [done | done |]. intros c call' H. by exists call'.
Qed.

Lemma advances_alter (f : Automated.Call → Automated.Call) c st :
  (∀ call, Automated.startTime (f call) = Automated.startTime call
           ∧ (Automated.outcome (f call) = Automated.Waiting →
              Automated.outcome call = Automated.Waiting)) →
  Automated.advances st (Automated.set_calls (alter f c (Automated.calls st)) st).
Proof.
  intros Hf. split; cbn; [by rewrite length_alter | done |].
  intros c' call' H. destruct (decide (c = c')) as [<- | Hne].
  - rewrite list_lookup_alter_eq in H. revert H.
    destruct (Automated.calls st !! c) as [call |]; cbn; [| done].
    intros [= <-]. exists call. split; [done |]. apply Hf.
  - rewrite list_lookup_alter_ne in H by done. by exists call'.
Qed.

Lemma advances_settle c o st : Automated.advances st (Automated.settle c o st).
Proof.
  apply advances_alter. intros call.
  destruct (Automated.outcome call) eqn:E; cbn; rewrite ?E; by split.
Qed.

Lemma advances_eventHandler c now ev st :
  Automated.advances st (Automated.eventHandler c now ev st).
Proof.
  unfold Automated.eventHandler.
  destruct (Automated.calls st !! c) as [call |] eqn:E; [| apply advances_refl].
  repeat match goal with
         | |- context [if ?b then _ else _] => destruct b
         end;
    try (eapply advances_trans; [apply advances_forget | apply advances_settle]);
    try apply advances_refl.
  destruct (Automated.message ev) as [m |]; [| apply advances_refl].
  split; cbn; [by rewrite length_insert | done |].
  intros c' call' H. destruct (decide (c = c')) as [<- | Hne].
  - rewrite list_lookup_insert_eq in H by (by eapply lookup_lt_Some).
    injection H as <-. by exists call.
  - rewrite list_lookup_insert_ne in H by done. by exists call'.
Qed.

Lemma advances_messageHandler c frame st :
  Automated.advances st (Automated.messageHandler c frame st).
Proof.
  unfold Automated.messageHandler.
  destruct (negb _); [apply advances_settle |].
  assert (H1 : Automated.advances st
                 (Automated.set_calls
                    (alter (Automated.set_call_runId (Automated.result_runId frame)) c
                       (Automated.calls st)) st))
    by (apply advances_alter; by intros call).
  destruct (Automated.result_runId frame) as [r |]; [| exact H1].
  destruct (truthy r); [| exact H1].
  eapply advances_trans; [exact H1 |].
  split; [done | done |]. intros c' call' H. by exists call'.
Qed.

Lemma advances_on_message now frame st :
  Automated.advances st (Automated.on_message now frame st).
Proof.
  unfold Automated.on_message.
  set (st1 := if bool_decide (is_Some (Automated.ok frame)) && truthy (Automated.id frame)
              then _ else _).
  assert (H1 : Automated.advances st st1).
  { subst st1. destruct (_ && _); [| apply advances_refl].
    destruct (Automated.messageHandlers st !! Automated.id frame) as [c |];
      [| apply advances_refl].
    eapply advances_trans; [apply advances_messageHandler |].
    split; [done | done |]. intros c' call' H. by exists call'. }
  destruct (String.eqb (Automated.event frame) "chat"); [| exact H1].
  destruct (Automated.data frame) as [ev |]; [| exact H1].
  destruct (Automated.runId ev ≫= _) as [c |]; [| exact H1].
  eapply advances_trans; [exact H1 | apply advances_eventHandler].
Qed.

Lemma timed_advances st st' :
  Automated.advances st st' → Automated.timed st → Automated.timed st'.
Proof.
  intros [L T C] [P Q]. split.
  - intros c call' H W. destruct (C c call' H) as (call & H0 & S0 & O0).
    rewrite T, S0. by apply P, O0.
  - intros c H. rewrite L. apply Q. by rewrite <- T.
Qed.

Lemma timed_sendPrompt prompt now st :
  Automated.timed st → Automated.timed (Automated.sendPrompt prompt now st).2.
Proof.
  intros [P Q]. unfold Automated.sendPrompt.
  destruct (negb (Automated.ws st) || negb (Automated.connected st)); cbn [snd].
  - split; cbn.
    + intros c call H W. apply lookup_app_Some in H as [H | [Hl H]]; [by apply P |].
      apply list_lookup_singleton_Some in H as [_ <-]. done.
    + intros c H. rewrite length_app. apply Q in H. lia.
  - split; cbn.
    + intros c call H W. apply lookup_app_Some in H as [H | [Hl H]].
      * rewrite lookup_insert_ne; [by apply P |].
        apply lookup_lt_Some in H. lia.
      * apply list_lookup_singleton_Some in H as [Hc <-].
        replace c with (length (Automated.calls st)) by lia.
        by rewrite lookup_insert_eq.
    + intros c H. rewrite length_app. cbn.
      destruct (decide (length (Automated.calls st) = c)) as [<- | Hne]; [lia |].
      rewrite lookup_insert_ne in H by done. apply Q in H. lia.
Qed.

Lemma on_timeout_call c st call :
  Automated.calls st !! c = Some call →
  Automated.calls (Automated.on_timeout c st) !! c
  = Some (match Automated.outcome call with
          | Automated.Waiting =>
              Automated.set_outcome (Automated.Failed "Request timeout") call
          | _ => call
          end).
Proof.
  intros H. unfold Automated.on_timeout. rewrite H.
  unfold Automated.settle. cbn [Automated.set_calls Automated.calls].
  assert (Hf : ∀ r, Automated.calls (Automated.forget r st) = Automated.calls st).
  { intros [r |]; unfold Automated.forget; [| done]. by destruct (truthy r). }
  by rewrite Hf, list_lookup_alter_eq, H.
Qed.

Lemma advances_on_timeout c st : Automated.advances st (Automated.on_timeout c st).
Proof.
  unfold Automated.on_timeout.
  destruct (Automated.calls st !! c); [| apply advances_refl].
  eapply advances_trans; [apply advances_forget | apply advances_settle].
Qed.

Lemma timed_step now i st st' :
  Automated.timed st → Automated.step now i st = Some st' → Automated.timed st'.
Proof.
  intros Ht. destruct i as [prompt | | frame | | c |]; cbn [Automated.step].
  - intros [= <-]. by apply timed_sendPrompt.
  - intros [= <-]. unfold Automated.disconnect.
    destruct (Automated.ws st); [| done]. by destruct Ht.
  - intros [= <-]. eapply timed_advances; [apply advances_on_message | done].
  - by intros [= <-].
  - destruct (Automated.timers st !! c) as [due |] eqn:E; [| done].
    destruct (due <=? now); [| done]. intros [= <-].
    destruct Ht as [P Q].
    assert (Hc : (c < length (Automated.calls st))%nat) by (apply Q; eauto).
    apply lookup_lt_is_Some in Hc as [call Hcall].
    set (st1 := Automated.set_timers (delete c (Automated.timers st)) st).
    destruct (advances_on_timeout c st1) as [L T C].
    split.
    + intros c' call' H W.
      destruct (decide (c = c')) as [<- | Hne].
      * rewrite (on_timeout_call c st1 call Hcall) in H. injection H as <-.
        revert W. by destruct (Automated.outcome call) eqn:Eo; cbn; rewrite ?Eo.
      * destruct (C c' call' H) as (call0 & H0 & S0 & O0).
        rewrite T, S0. subst st1. cbn. rewrite lookup_delete_ne by done.
        by apply P, O0.
    + intros c' H. rewrite L, T in *. subst st1. cbn in *.
      apply Q. destruct H as [x H]. apply lookup_delete_Some in H as [_ H]. eauto.
  - intros [= <-]. by destruct Ht.
Qed.

Lemma timed_run trace : ∀ st st',
  Automated.timed st → Automated.run trace st = Some st' → Automated.timed st'.
Proof.
  induction trace as [| [now i] trace IH]; intros st st' Ht; cbn [Automated.run].
  - by intros [= <-].
  - destruct (Automated.step now i st) as [st1 |] eqn:E; [| done].
    apply IH. by eapply timed_step.
Qed.

Lemma timed_connected_client key : Automated.timed (Automated.connected_client key).
Proof. split; [done |]. intros c [x H]. cbn in H. by rewrite lookup_empty in H. Qed.

(** X25.  Whatever the automated runner's client is asked to do and
    whatever arrives, every [sendPrompt] call that is still pending has
    its timer armed for 300 s after the call; the timer is never
    cleared.  When the timer of a call fires, a pending call fails with
    ["Request timeout"] and a settled one keeps its outcome, so no call
    is pending once its timer has fired. *)
Theorem automated_sendPrompt_settled_by_timer key trace st c call :
  Automated.run trace (Automated.connected_client key) = Some st →
  Automated.calls st !! c = Some call →
  (Automated.outcome call = Automated.Waiting →
   Automated.timers st !! c = Some (Automated.startTime call + 300000))
  ∧ (∀ now st', Automated.step now (Automated.TimerFires c) st = Some st' →
       Automated.calls st' !! c
       = Some (match Automated.outcome call with
               | Automated.Waiting =>
                   Automated.set_outcome (Automated.Failed "Request timeout") call
               | _ => call
               end)).
Proof.
  intros Hrun Hcall.
  pose proof (timed_run trace _ _ (timed_connected_client key) Hrun) as [P Q].
  split; [by apply P |].
  intros now st'. cbn [Automated.step].
  destruct (Automated.timers st !! c) as [due |]; [| done].
  destruct (due <=? now); [| done]. intros [= <-].
  by apply on_timeout_call.
Qed.

Lemma automated_sendPrompt_settled_by_timer_witness :
  (Automated.outcome (Automated.mkCall 0 "" None Automated.Waiting) = Automated.Waiting →
   Automated.timers (Automated.promptSent "default" "hello" 0) !! 0%nat
   = Some (Automated.startTime (Automated.mkCall 0 "" None Automated.Waiting) + 300000))
  ∧ (∀ now st',
       Automated.step now (Automated.TimerFires 0)
         (Automated.promptSent "default" "hello" 0) = Some st' →
       Automated.calls st' !! 0%nat
       = Some (match Automated.outcome (Automated.mkCall 0 "" None Automated.Waiting) with
               | Automated.Waiting =>
                   Automated.set_outcome (Automated.Failed "Request timeout")
                     (Automated.mkCall 0 "" None Automated.Waiting)
               | _ => Automated.mkCall 0 "" None Automated.Waiting
               end)).
Proof.
  apply (automated_sendPrompt_settled_by_timer "default"
           [(0, Automated.CallSendPrompt "hello")]); reflexivity.
Defined.




(** *** The two clients read the same text *)

Lemma append_block_text st block :
  accumulatedResponse (append_block st block)
  = accumulatedResponse st +:+ Automated.block_text_of block.
Proof.
  unfold append_block, Automated.block_text_of.
  destruct (String.eqb (block_type block) "text"); [| by rewrite append_nil_r].
  destruct (block_text block) as [t |]; cbn [default from_option id];
    [| by rewrite append_nil_r].
  destruct (truthy t) eqn:E; [done |].
  by rewrite (truthy_false _ E), append_nil_r.
Qed.

Lemma append_blocks_text blocks : ∀ st,
  accumulatedResponse (foldl append_block st blocks)
  = accumulatedResponse st
    +:+ foldr (λ block text, Automated.block_text_of block +:+ text) "" blocks.
Proof.
  induction blocks as [| b blocks IH]; intros st; cbn [foldl foldr].
  - by rewrite append_nil_r.
  - by rewrite IH, append_block_text, append_assoc.
Qed.

(** X27.  The two clients read the same text from a chat [delta]: the
    sequential client's [chatHandler] appends to [accumulatedResponse]
    exactly what the automated client's event handler appends to the
    text of its call, namely the message itself when it is a string, its
    [content] when that is a string, and the concatenated [text] of its
    content blocks of type ["text"] when it is a list; a delta without
    such text appends nothing. *)
Theorem clients_read_same_text ev d m st c now r ast call :
  event ev = "chat" → ev_data ev = Some d → p_state d = "delta" →
  p_message d = m →
  Automated.calls ast !! c = Some call →
  accumulatedResponse (chatHandler ev st)
  = accumulatedResponse st +:+ Automated.message_text m
  ∧ Automated.calls (Automated.eventHandler c now (Automated.deltaEvent r m) ast) !! c
    = Some (Automated.set_fullResponse
              (Automated.fullResponse call +:+ Automated.message_text m) call).
Proof.
  intros He Hd Hs Hm Hcall. split.
  - unfold chatHandler. rewrite He, Hd, Hs, Hm.
    change (String.eqb "chat" "chat") with true.
    change (String.eqb "delta" "delta") with true. cbv iota.
    destruct m as [[s | [[s | blocks |] |]] |]; cbn [Automated.message_text];
      try by rewrite append_nil_r.
    + destruct (truthy s) eqn:E; [done |]. by rewrite (truthy_false _ E), append_nil_r.
    + destruct (truthy s) eqn:E; [done |]. by rewrite (truthy_false _ E), append_nil_r.
    + apply append_blocks_text.
  - unfold Automated.eventHandler. rewrite Hcall.
    cbn [Automated.deltaEvent Automated.state Automated.message].
    change (String.eqb "delta" "delta") with true.
    change (String.eqb "delta" "final") with false.
    change (String.eqb "delta" "error") with false.
    change (String.eqb "delta" "aborted") with false. cbn [andb].
    destruct (Automated.truthy_message m) eqn:Em.
    + destruct m as [m |]; [| done]. cbn [Automated.set_calls Automated.calls].
      rewrite list_lookup_insert_eq by (by eapply lookup_lt_Some).
      by rewrite accumulate_text.
    + cbv iota. rewrite (message_text_falsy _ Em), append_nil_r, Hcall.
      by destruct call.
Qed.

Lemma clients_read_same_text_witness :
  accumulatedResponse
    (chatHandler
       {| event := "chat"; ev_payload := None;
          ev_data := f_payload (chatFrame "run-1" "delta"
                                  (Some (MessageObject (Some (ContentString "lo, "))))) |}
       (set_accumulatedResponse "Hel" (connected_client sampleConfig)))
  = "Hel" +:+ "lo, "
  ∧ Automated.calls
      (Automated.eventHandler 0 5
         (Automated.deltaEvent (Some "run-1")
            (Some (MessageObject (Some (ContentString "lo, ")))))
         (Automated.promptRunning "default" "hello" 0 "run-1" "Hel" Automated.Waiting
            (<[ "run-1" := 0%nat ]> ∅))) !! 0%nat
    = Some (Automated.mkCall 0 ("Hel" +:+ "lo, ") (Some "run-1") Automated.Waiting).
Proof.
  exact (clients_read_same_text
           {| event := "chat"; ev_payload := None;
              ev_data := f_payload (chatFrame "run-1" "delta"
                           (Some (MessageObject (Some (ContentString "lo, "))))) |}
           _ (Some (MessageObject (Some (ContentString "lo, "))))
           (set_accumulatedResponse "Hel" (connected_client sampleConfig))
           0%nat 5 (Some "run-1")
           (Automated.promptRunning "default" "hello" 0 "run-1" "Hel" Automated.Waiting
              (<[ "run-1" := 0%nat ]> ∅))
           _ eq_refl eq_refl eq_refl eq_refl eq_refl).
Defined.

(** ** Test prompts on disk *)

Lemma find_test_Some testId files f :
  Prompts.find_test testId files = Some f ↔
  ∃ earlier later, files = earlier ++ f :: later
                   ∧ Runner.startsWith testId f = true
                   ∧ Prompts.unmatched testId earlier.
Proof.
  induction files as [| g files IH]; cbn [Prompts.find_test].
  - split; [done |]. intros (earlier & later & H & _). destruct earlier; simplify_eq/=.
  - destruct (Runner.startsWith testId g) eqn:E.
    + split.
      * intros [= <-]. exists [], files. split_and!; [done | done | constructor].
      * intros (earlier & later & H & Hf & Hu). destruct earlier as [| e earlier].
        -- by injection H as -> _.
        -- injection H as -> _. apply Forall_cons in Hu as [Hu _]. congruence.
    + rewrite IH. split.
      * intros (earlier & later & -> & Hf & Hu). exists (g :: earlier), later.
        split_and!; [done | done |]. by apply Forall_cons.
      * intros (earlier & later & H & Hf & Hu). destruct earlier as [| e earlier].
        -- injection H as -> _. congruence.
        -- injection H as -> ->. apply Forall_cons in Hu as [_ Hu].
           by exists earlier, later.
Qed.

Lemma find_test_None testId files :
  Prompts.find_test testId files = None ↔ Prompts.unmatched testId files.
Proof.
  induction files as [| g files IH]; cbn [Prompts.find_test].
  - split; [constructor | done].
  - destruct (Runner.startsWith testId g) eqn:E.
    + split; [done |]. intros [H _]%Forall_cons. congruence.
    + rewrite IH. split; [by constructor | by intros [_ H]%Forall_cons].
Qed.

Lemma truthy_nonempty s : s ≠ "" → truthy s = true.
Proof. intros H. unfold truthy. apply negb_true_iff. by apply String.eqb_neq. Qed.

(** X28.  Which file [loadTestPrompt] reads (file names are not empty):
    that of the first directory of [test-prompts], in listing order, that
    has a file whose name starts with the test id, and in it the first
    such file; entries that are not directories are skipped.  It throws
    [Test ... not found] exactly when no directory has such a file.  The
    match is by prefix only: a file whose name merely begins with the id
    is taken when it is listed before the one meant. *)
Theorem loadTestPrompt_first_match testId categories :
  Forall (λ d, Forall (λ f, f ≠ "") (Prompts.files d)) categories →
  (∀ c f,
     Prompts.loadTestPrompt testId categories = Some (c, f) ↔
     ∃ before dir after earlier later,
       categories = before ++ dir :: after
       ∧ Prompts.isDirectory dir = true ∧ Prompts.name dir = c
       ∧ Prompts.files dir = earlier ++ f :: later
       ∧ Runner.startsWith testId f = true
       ∧ Prompts.unmatched testId earlier
       ∧ Forall (λ d, Prompts.isDirectory d = true →
                      Prompts.unmatched testId (Prompts.files d)) before)
  ∧ (Prompts.loadTestPrompt testId categories = None ↔
     Forall (λ d, Prompts.isDirectory d = true →
                  Prompts.unmatched testId (Prompts.files d)) categories).
Proof.
  induction categories as [| d categories IH]; intros Hne.
  - split.
    + intros c f. split; [done |].
      intros (before & dir & after & _ & _ & H & _). destruct before; simplify_eq/=.
    + split; [constructor | done].
  - apply Forall_cons in Hne as [Hd Hne]. destruct (IH Hne) as [IHs IHn].
    cbn [Prompts.loadTestPrompt].
    destruct (Prompts.isDirectory d) eqn:Edir; cbn [negb].
    + destruct (Prompts.find_test testId (Prompts.files d)) as [g |] eqn:Eg.
      * pose proof (proj1 (find_test_Some _ _ _) Eg) as (earlier & later & Hf & Hs & Hu).
        assert (Hg : truthy g = true).
        { apply truthy_nonempty. rewrite Forall_forall in Hd. apply Hd.
          rewrite Hf. apply elem_of_app. right. apply elem_of_cons. by left. }
        rewrite Hg. split.
        -- intros c f. split.
           ++ intros [= <- <-]. exists [], d, categories, earlier, later.
              split_and!; first [done | constructor].
           ++ intros (before & dir & after & earlier' & later' & Hc & Hdir & Hn & Hf'
                      & Hs' & Hu' & Hb).
              destruct before as [| b before].
              ** injection Hc as <- _. f_equal. f_equal; [done |].
                 assert (Hfind : Prompts.find_test testId (Prompts.files d) = Some f)
                   by (apply find_test_Some; eauto).
                 congruence.
              ** injection Hc as <- _. apply Forall_cons in Hb as [Hb _].
                 apply find_test_None in Hb; [congruence | done].
        -- split; [done |]. intros [H _]%Forall_cons.
           apply find_test_None in H; [congruence | done].
      * apply find_test_None in Eg. split.
        -- intros c f. rewrite IHs. split.
           ++ intros (before & dir & after & earlier & later & -> & H).
              exists (d :: before), dir, after, earlier, later.
              destruct H as (? & ? & ? & ? & ? & ?).
              split_and!; try done. by apply Forall_cons.
           ++ intros (before & dir & after & earlier & later & Hc & Hdir & Hn & Hf
                      & Hs & Hu & Hb).
              destruct before as [| b before].
              ** injection Hc as <- _. rewrite Hf in Eg.
                 apply Forall_app in Eg as [_ Eg]. apply Forall_cons in Eg as [Eg _].
                 congruence.
              ** injection Hc as <- ->. apply Forall_cons in Hb as [_ Hb].
                 exists before, dir, after, earlier, later. by repeat split.
        -- rewrite IHn. split; [by constructor | by intros [_ H]%Forall_cons].
    + split.
      * intros c f. rewrite IHs. split.
        -- intros (before & dir & after & earlier & later & -> & H).
           exists (d :: before), dir, after, earlier, later.
           destruct H as (? & ? & ? & ? & ? & ?).
           split_and!; try done. apply Forall_cons. split; [congruence | done].
        -- intros (before & dir & after & earlier & later & Hc & Hdir & Hn & Hf
                   & Hs & Hu & Hb).
           destruct before as [| b before].
           ++ injection Hc as <- _. congruence.
           ++ injection Hc as <- ->. apply Forall_cons in Hb as [_ Hb].
              exists before, dir, after, earlier, later. by repeat split.
      * rewrite IHn. split; [constructor; [congruence | done] |].
        by intros [_ H]%Forall_cons.
Qed.

Lemma loadTestPrompt_first_match_witness :
  (∀ c f,
     Prompts.loadTestPrompt "4.1" Prompts.sampleCategories = Some (c, f) ↔
     ∃ before dir after earlier later,
       Prompts.sampleCategories = before ++ dir :: after
       ∧ Prompts.isDirectory dir = true ∧ Prompts.name dir = c
       ∧ Prompts.files dir = earlier ++ f :: later
       ∧ Runner.startsWith "4.1" f = true
       ∧ Prompts.unmatched "4.1" earlier
       ∧ Forall (λ d, Prompts.isDirectory d = true →
                      Prompts.unmatched "4.1" (Prompts.files d)) before)
  ∧ (Prompts.loadTestPrompt "4.1" Prompts.sampleCategories = None ↔
     Forall (λ d, Prompts.isDirectory d = true →
                  Prompts.unmatched "4.1" (Prompts.files d)) Prompts.sampleCategories).
Proof.
  apply (loadTestPrompt_first_match "4.1" Prompts.sampleCategories).
  repeat constructor; discriminate.
Defined.

(** *** Ids taken from file names *)

Lemma digits_split s : s = (Prompts.digits s).1 +:+ (Prompts.digits s).2.
Proof.
  induction s as [| c s IH]; cbn [Prompts.digits]; [done |].
  destruct (Prompts.is_digit c); cbn [fst snd]; [| done].
  change (String c s = String c ((Prompts.digits s).1 +:+ (Prompts.digits s).2)).
  by rewrite <- IH.
Qed.

Lemma startsWith_app a b : Runner.startsWith a (a +:+ b) = true.
Proof.
  induction a as [| c a IH]; [done |].
  change (Ascii.eqb c c && Runner.startsWith a (a +:+ b) = true).
  by rewrite Ascii.eqb_refl, IH.
Qed.

Lemma matchId_prefix file id :
  Prompts.matchId file = Some id → Runner.startsWith id file = true ∧ id ≠ "".
Proof.
  unfold Prompts.matchId. intros H.
  pose proof (digits_split file) as Hf.
  destruct ((Prompts.digits file).2) as [| c rest] eqn:E2; [done |].
  destruct (Ascii.eqb_spec c ".") as [-> | Hc].
  - pose proof (digits_split rest) as Hr.
    destruct (truthy (Prompts.digits file).1) eqn:T1; cbn [andb] in H.
    + destruct (truthy (Prompts.digits rest).1) eqn:T2; [| done].
      injection H as <-. split.
      * rewrite Hf at 2. rewrite Hr at 2.
        replace ((Prompts.digits file).1
                 +:+ String "." ((Prompts.digits rest).1 +:+ (Prompts.digits rest).2))
          with (((Prompts.digits file).1 +:+ String "." (Prompts.digits rest).1)
                +:+ (Prompts.digits rest).2).
        -- apply startsWith_app.
        -- by rewrite append_assoc.
      * by destruct ((Prompts.digits file).1).
    + done.
  - revert H. destruct c as [[] [] [] [] [] [] [] []]; done.
Qed.

Lemma collectIds_from files id :
  id ∈ Prompts.collectIds files →
  ∃ file, file ∈ files ∧ Prompts.endsWith ".json" file = true
          ∧ Prompts.matchId file = Some id.
Proof.
  induction files as [| f files IH]; cbn [Prompts.collectIds].
  - by intros ?%elem_of_nil.
  - destruct (Prompts.endsWith ".json" f) eqn:E.
    + destruct (Prompts.matchId f) as [id' |] eqn:M.
      * intros [-> | H]%elem_of_cons.
        -- exists f. split_and!; [by left | done | done].
        -- destruct (IH H) as (g & ? & ? & ?). exists g. split_and!; [by right | done..].
      * intros H. destruct (IH H) as (g & ? & ? & ?).
        exists g. split_and!; [by right | done..].
    + intros H. destruct (IH H) as (g & ? & ? & ?).
      exists g. split_and!; [by right | done..].
Qed.

Lemma startsWith_nonempty id f :
  Runner.startsWith id f = true → id ≠ "" → f ≠ "".
Proof. destruct id; [done |]. by destruct f. Qed.

Lemma find_test_finds testId files f :
  f ∈ files → Runner.startsWith testId f = true →
  ∃ g, Prompts.find_test testId files = Some g ∧ Runner.startsWith testId g = true.
Proof.
  intros Hin Hs. induction files as [| h files IH]; [by apply elem_of_nil in Hin |].
  cbn [Prompts.find_test]. destruct (Runner.startsWith testId h) eqn:E; [eauto |].
  apply elem_of_cons in Hin as [-> | Hin]; [congruence | by apply IH].
Qed.

Lemma loadTestPrompt_finds testId categories dir f :
  testId ≠ "" → dir ∈ categories → Prompts.isDirectory dir = true →
  f ∈ Prompts.files dir → Runner.startsWith testId f = true →
  ∃ c g, Prompts.loadTestPrompt testId categories = Some (c, g)
         ∧ Runner.startsWith testId g = true.
Proof.
  intros Hid Hin Hdir Hf Hs.
  induction categories as [| d categories IH]; [by apply elem_of_nil in Hin |].
  cbn [Prompts.loadTestPrompt].
  assert (Hd : d = dir ∨ dir ∈ categories)
    by (apply elem_of_cons in Hin as [-> | ?]; auto).
  destruct (Prompts.isDirectory d) eqn:Ed; cbn [negb].
  - destruct (Prompts.find_test testId (Prompts.files d)) as [g |] eqn:Eg.
    + pose proof (proj1 (find_test_Some _ _ _) Eg) as (_ & _ & _ & Hg & _).
      rewrite (truthy_nonempty g) by (by eapply startsWith_nonempty). eauto.
    + destruct Hd as [-> | Hd]; [| by apply IH].
      destruct (find_test_finds _ _ _ Hf Hs) as (g & Hg & _). congruence.
  - destruct Hd as [-> | Hd]; [congruence | by apply IH].
Qed.

(** X29.  Every test id that [loadTestIdsByCategory] takes from the file
    names of a category (the leading [digits.digits] of a name that ends
    in [.json]) is the beginning of that file's name, so [loadTestPrompt]
    finds a file for it whenever the category is a directory of
    [test-prompts]: it never ends in [Test ... not found].  The file it
    loads need not be the one the id was taken from: with
    [4.10-irrigation.json] listed before [4.1-soil.json], both ids are
    collected and both load [4.10-irrigation.json]. *)
Theorem collected_ids_load categories dir id :
  dir ∈ categories → Prompts.isDirectory dir = true →
  id ∈ Prompts.collectIds (Prompts.files dir) →
  (∃ c f, Prompts.loadTestPrompt id categories = Some (c, f)
          ∧ Runner.startsWith id f = true)
  ∧ Prompts.collectIds ["4.10-irrigation.json"; "4.1-soil.json"; "notes.txt"]
    = ["4.10"; "4.1"]
  ∧ Prompts.loadTestPrompt "4.10" Prompts.sampleCategories
    = Some ("homestead-farm-management", "4.10-irrigation.json")
  ∧ Prompts.loadTestPrompt "4.1" Prompts.sampleCategories
    = Some ("homestead-farm-management", "4.10-irrigation.json").
Proof.
  intros Hin Hdir Hid. split; [| by repeat split].
  destruct (collectIds_from _ _ Hid) as (file & Hfile & _ & Hm).
  destruct (matchId_prefix _ _ Hm) as [Hs Hne].
  by eapply loadTestPrompt_finds.
Qed.

Lemma collected_ids_load_witness :
  (∃ c f, Prompts.loadTestPrompt "4.1" Prompts.sampleCategories = Some (c, f)
          ∧ Runner.startsWith "4.1" f = true)
  ∧ Prompts.collectIds ["4.10-irrigation.json"; "4.1-soil.json"; "notes.txt"]
    = ["4.10"; "4.1"]
  ∧ Prompts.loadTestPrompt "4.10" Prompts.sampleCategories
    = Some ("homestead-farm-management", "4.10-irrigation.json")
  ∧ Prompts.loadTestPrompt "4.1" Prompts.sampleCategories
    = Some ("homestead-farm-management", "4.10-irrigation.json").
Proof.
  apply (collected_ids_load Prompts.sampleCategories
           (Prompts.mkCategory "homestead-farm-management" true
              ["4.10-irrigation.json"; "4.1-soil.json"; "notes.txt"]) "4.1").
  - apply elem_of_cons. right. apply elem_of_cons. by left.
  - reflexivity.
  - apply elem_of_cons. right. apply elem_of_cons. by left.
Defined.

(** ** Waiting for the gateway *)

Lemma attempt_bounds a :
  Gateway.causal a →
  0 ≤ (Gateway.attempt a).2 ≤ 3000
  ∧ ((Gateway.attempt a).1 = true → (Gateway.attempt a).2 < 3000).
Proof.
  destruct a as [d | d |]; cbn [Gateway.causal Gateway.attempt];
    unfold Gateway.attemptTimeoutMs; intros H;
    try destruct (Z.ltb_spec d 3000); cbn [fst snd]; split; (lia || done).
Qed.

Lemma loop_expired startTime timeoutMs now attempts :
  timeoutMs ≤ now - startTime →
  Gateway.loop startTime timeoutMs now attempts = Some (Gateway.NotReady now).
Proof.
  intros H. destruct attempts; cbn [Gateway.loop];
    by destruct (Z.ltb_spec (now - startTime) timeoutMs); [lia |].
Qed.

Lemma loop_bounds startTime timeoutMs attempts : ∀ now,
  Forall Gateway.causal attempts → now - startTime < timeoutMs →
  match Gateway.loop startTime timeoutMs now attempts with
  | Some (Gateway.Ready t) => now ≤ t < startTime + timeoutMs + 3000
  | Some (Gateway.NotReady t) =>
      startTime + timeoutMs ≤ t < startTime + timeoutMs + 4000
  | None => True
  end.
Proof.
  induction attempts as [| a attempts IH]; intros now HF Hnow; cbn [Gateway.loop];
    destruct (Z.ltb_spec (now - startTime) timeoutMs); try lia; try done.
  apply Forall_cons in HF as [Ha HF].
  destruct (attempt_bounds a Ha) as [Hd Hok].
  destruct (Gateway.attempt a).1 eqn:E; [specialize (Hok eq_refl); lia |].
  set (now' := now + (Gateway.attempt a).2 + Gateway.retryDelayMs).
  assert (Hn : now + 1000 ≤ now' ≤ now + 4000)
    by (subst now'; unfold Gateway.retryDelayMs; lia).
  destruct (Z.lt_ge_cases (now' - startTime) timeoutMs) as [Hlt | Hge].
  - specialize (IH now' HF Hlt).
    destruct (Gateway.loop startTime timeoutMs now' attempts) as [[t | t] |]; lia.
  - rewrite loop_expired by lia. lia.
Qed.

Lemma loop_total startTime timeoutMs attempts : ∀ now,
  Forall Gateway.causal attempts →
  timeoutMs - (now - startTime) ≤ 1000 * Z.of_nat (length attempts) →
  is_Some (Gateway.loop startTime timeoutMs now attempts).
Proof.
  induction attempts as [| a attempts IH]; intros now HF Hlen; cbn [Gateway.loop];
    destruct (Z.ltb_spec (now - startTime) timeoutMs); eauto.
  - cbn [length] in Hlen. lia.
  - apply Forall_cons in HF as [Ha HF].
    destruct (attempt_bounds a Ha) as [Hd _].
    destruct (Gateway.attempt a).1; [eauto |].
    apply IH; [done |]. cbn [length] in Hlen. unfold Gateway.retryDelayMs. lia.
Qed.

(** X30.  [waitForGateway], with timers that fire when they are due: it
    gives up no earlier than [timeoutMs] after it was called and less than
    4 s later than that (without a single attempt when [timeoutMs] is not
    positive); it reports success less than [timeoutMs] + 3 s after the
    call; and it makes at most one attempt per second of [timeoutMs], so
    that [n] attempts always bring it to an end when [timeoutMs] is at
    most [1000 n]. *)
Theorem waitForGateway_bounds timeoutMs startTime attempts :
  Forall Gateway.causal attempts →
  (timeoutMs ≤ 0 →
   Gateway.waitForGateway timeoutMs startTime attempts
   = Some (Gateway.NotReady startTime))
  ∧ (∀ t, Gateway.waitForGateway timeoutMs startTime attempts
          = Some (Gateway.NotReady t) →
          startTime + timeoutMs ≤ t
          ∧ (0 < timeoutMs → t < startTime + timeoutMs + 4000))
  ∧ (∀ t, Gateway.waitForGateway timeoutMs startTime attempts
          = Some (Gateway.Ready t) →
          startTime ≤ t < startTime + timeoutMs + 3000)
  ∧ (timeoutMs ≤ 1000 * Z.of_nat (length attempts) →
     is_Some (Gateway.waitForGateway timeoutMs startTime attempts)).
Proof.
  intros HF. unfold Gateway.waitForGateway. split_and!.
  - intros H. apply loop_expired. lia.
  - intros t Ht. destruct (Z.lt_ge_cases 0 timeoutMs) as [Hpos | Hneg].
    + pose proof (loop_bounds startTime timeoutMs attempts startTime HF) as H.
      rewrite Ht in H. lia.
    + rewrite loop_expired in Ht by lia. injection Ht as <-. lia.
  - intros t Ht. destruct (Z.lt_ge_cases 0 timeoutMs) as [Hpos | Hneg].
    + pose proof (loop_bounds startTime timeoutMs attempts startTime HF) as H.
      rewrite Ht in H. lia.
    + by rewrite loop_expired in Ht by lia.
  - intros H. apply loop_total; [done | lia].
Qed.

Lemma waitForGateway_bounds_witness :
  (30000 ≤ 0 →
   Gateway.waitForGateway 30000 0 Gateway.sampleAttempts
   = Some (Gateway.NotReady 0))
  ∧ (∀ t, Gateway.waitForGateway 30000 0 Gateway.sampleAttempts
          = Some (Gateway.NotReady t) →
          0 + 30000 ≤ t ∧ (0 < 30000 → t < 0 + 30000 + 4000))
  ∧ (∀ t, Gateway.waitForGateway 30000 0 Gateway.sampleAttempts
          = Some (Gateway.Ready t) →
          0 ≤ t < 0 + 30000 + 3000)
  ∧ (30000 ≤ 1000 * Z.of_nat (length Gateway.sampleAttempts) →
     is_Some (Gateway.waitForGateway 30000 0 Gateway.sampleAttempts)).
Proof.
  apply (waitForGateway_bounds 30000 0 Gateway.sampleAttempts).
  repeat constructor; cbn; lia.
Defined.

Import Identity.

(** ** [base64UrlEncode] *)

Lemma url_digit_spec n :
  (n < 64)%N →
  is_base64url (url_digit n) = true ∧ Ascii.eqb (url_digit n) "=" = false.
Proof.
  intros H.
  assert (G : forallb (λ k, is_base64url (url_digit (N.of_nat k))
                            && negb (Ascii.eqb (url_digit (N.of_nat k)) "="))
                (seq 0 64) = true) by (vm_compute; reflexivity).
  rewrite forallb_forall in G.
  specialize (G (N.to_nat n)). rewrite N2Nat.id in G.
  destruct (is_base64url (url_digit n)), (Ascii.eqb (url_digit n) "=");
    try done; exfalso; (enough (false = true) by done); apply G; apply in_seq; lia.
Qed.

Lemma strip_padding_cons c s :
  Ascii.eqb c "=" = false →
  strip_padding (String c s) = String c (strip_padding s).
Proof. intros H. cbn [strip_padding]. rewrite H. by destruct (strip_padding s). Qed.

Lemma replace_digit n :
  (if Ascii.eqb (if Ascii.eqb (base64_digit n) "+" then "-"%char else base64_digit n) "/"
   then "_"%char
   else if Ascii.eqb (base64_digit n) "+" then "-"%char else base64_digit n)
  = url_digit n.
Proof. reflexivity. Qed.

Lemma byte_bound b : (Byte.to_N b < 256)%N.
Proof. pose proof (Byte.to_N_bounded b). lia. Qed.

Lemma digit_bounds x y :
  (x < 256)%N → (y < 256)%N →
  (x `div` 4 < 64)%N ∧ ((x `mod` 4) * 16 + y `div` 16 < 64)%N
  ∧ ((x `mod` 16) * 4 + y `div` 64 < 64)%N ∧ (x `mod` 64 < 64)%N
  ∧ ((x `mod` 4) * 16 < 64)%N ∧ ((x `mod` 16) * 4 < 64)%N.
Proof.
  intros Hx Hy.
  assert (x `div` 4 < 64)%N by (apply N.Div0.div_lt_upper_bound; lia).
  assert (y `div` 16 < 16)%N by (apply N.Div0.div_lt_upper_bound; lia).
  assert (y `div` 64 < 4)%N by (apply N.Div0.div_lt_upper_bound; lia).
  assert (x `mod` 4 < 4)%N by (apply N.mod_upper_bound; lia).
  assert (x `mod` 16 < 16)%N by (apply N.mod_upper_bound; lia).
  assert (x `mod` 64 < 64)%N by (apply N.mod_upper_bound; lia).
  lia.
Qed.

Lemma base64UrlEncode_nil : base64UrlEncode [] = "".
Proof. reflexivity. Qed.

Lemma base64UrlEncode_one a :
  base64UrlEncode [a]
  = String (url_digit (Byte.to_N a `div` 4))
      (String (url_digit ((Byte.to_N a `mod` 4) * 16)) "").
Proof.
  destruct (digit_bounds _ _ (byte_bound a) (byte_bound a)) as (B1 & _ & _ & _ & B2 & _).
  unfold base64UrlEncode. cbn [base64 replaceAll]. rewrite !replace_digit.
  rewrite !strip_padding_cons by (by apply url_digit_spec). reflexivity.
Qed.

Lemma base64UrlEncode_two a b :
  base64UrlEncode [a; b]
  = String (url_digit (Byte.to_N a `div` 4))
      (String (url_digit ((Byte.to_N a `mod` 4) * 16 + Byte.to_N b `div` 16))
         (String (url_digit ((Byte.to_N b `mod` 16) * 4)) "")).
Proof.
  destruct (digit_bounds _ _ (byte_bound a) (byte_bound b)) as (B1 & B2 & _).
  destruct (digit_bounds _ _ (byte_bound b) (byte_bound b)) as (_ & _ & _ & _ & _ & B3).
  unfold base64UrlEncode. cbn [base64 replaceAll]. rewrite !replace_digit.
  rewrite !strip_padding_cons by (by apply url_digit_spec). reflexivity.
Qed.

Lemma base64UrlEncode_three a b c rest :
  base64UrlEncode (a :: b :: c :: rest)
  = String (url_digit (Byte.to_N a `div` 4))
      (String (url_digit ((Byte.to_N a `mod` 4) * 16 + Byte.to_N b `div` 16))
         (String (url_digit ((Byte.to_N b `mod` 16) * 4 + Byte.to_N c `div` 64))
            (String (url_digit (Byte.to_N c `mod` 64)) (base64UrlEncode rest)))).
Proof.
  destruct (digit_bounds _ _ (byte_bound a) (byte_bound b)) as (B1 & B2 & _).
  destruct (digit_bounds _ _ (byte_bound b) (byte_bound c)) as (_ & _ & B3 & _).
  destruct (digit_bounds _ _ (byte_bound c) (byte_bound c)) as (_ & _ & _ & B4 & _).
  unfold base64UrlEncode. cbn [base64 replaceAll]. rewrite !replace_digit.
  rewrite !strip_padding_cons by (by apply url_digit_spec). reflexivity.
Qed.

Lemma list_ind3 {A} (P : list A → Prop) :
  P [] → (∀ a, P [a]) → (∀ a b, P [a; b]) →
  (∀ a b c l, P l → P (a :: b :: c :: l)) → ∀ l, P l.
Proof.
  intros H0 H1 H2 H3 l.
  enough (P l ∧ (∀ a, P (a :: l)) ∧ (∀ a b, P (a :: b :: l))) by tauto.
  induction l as [| x l (IH0 & IH1 & IH2)]; [by auto |].
  split_and!; auto.
Qed.

(** X10.  [base64UrlEncode] produces only characters of the URL-safe
    alphabet (letters, digits, [-] and [_]: no [+], no [/] and no padding)
    and ⌈4n/3⌉ of them for [n] bytes. *)
Theorem base64UrlEncode_url_safe buf :
  all_chars is_base64url (base64UrlEncode buf) = true
  ∧ String.length (base64UrlEncode buf) = ((4 * length buf + 2) / 3)%nat.
Proof.
  induction buf as [| a | a b | a b c rest [IH1 IH2]] using list_ind3.
  - done.
  - rewrite base64UrlEncode_one.
    destruct (digit_bounds _ _ (byte_bound a) (byte_bound a)) as (B1 & _ & _ & _ & B2 & _).
    cbn [all_chars String.length length].
    rewrite (proj1 (url_digit_spec _ B1)), (proj1 (url_digit_spec _ B2)). done.
  - rewrite base64UrlEncode_two.
    destruct (digit_bounds _ _ (byte_bound a) (byte_bound b)) as (B1 & B2 & _).
    destruct (digit_bounds _ _ (byte_bound b) (byte_bound b)) as (_ & _ & _ & _ & _ & B3).
    cbn [all_chars String.length length].
    rewrite (proj1 (url_digit_spec _ B1)), (proj1 (url_digit_spec _ B2)),
      (proj1 (url_digit_spec _ B3)). done.
  - rewrite base64UrlEncode_three.
    destruct (digit_bounds _ _ (byte_bound a) (byte_bound b)) as (B1 & B2 & _).
    destruct (digit_bounds _ _ (byte_bound b) (byte_bound c)) as (_ & _ & B3 & _).
    destruct (digit_bounds _ _ (byte_bound c) (byte_bound c)) as (_ & _ & _ & B4 & _).
    cbn [all_chars String.length length].
    rewrite (proj1 (url_digit_spec _ B1)), (proj1 (url_digit_spec _ B2)),
      (proj1 (url_digit_spec _ B3)), (proj1 (url_digit_spec _ B4)), IH1, IH2.
    split; [done |].
    replace (4 * S (S (S (length rest))) + 2)%nat
      with ((4 * length rest + 2) + 4 * 3)%nat by lia.
    rewrite Nat.div_add by done. lia.
Qed.

Lemma url_index_digit n : (n < 64)%N → url_index (url_digit n) = n.
Proof.
  intros H.
  assert (G : forallb (λ k, N.eqb (url_index (url_digit (N.of_nat k))) (N.of_nat k))
                (seq 0 64) = true) by (vm_compute; reflexivity).
  rewrite forallb_forall in G.
  specialize (G (N.to_nat n)). rewrite N2Nat.id in G.
  apply N.eqb_eq, G, in_seq. lia.
Qed.

Lemma url_digit_inj m n :
  (m < 64)%N → (n < 64)%N → url_digit m = url_digit n → m = n.
Proof.
  intros Hm Hn E. rewrite <- (url_index_digit m Hm), <- (url_index_digit n Hn).
  by rewrite E.
Qed.

Lemma to_N_inj a b : Byte.to_N a = Byte.to_N b → a = b.
Proof.
  intros E. pose proof (Byte.of_to_N a) as Ha. pose proof (Byte.of_to_N b) as Hb.
  rewrite E in Ha. congruence.
Qed.

Lemma split_hi_lo k x y x' y' :
  (0 < k)%N → (y < k)%N → (y' < k)%N → (x * k + y = x' * k + y')%N →
  x = x' ∧ y = y'.
Proof.
  intros Hk Hy Hy' E. apply (N.div_mod_unique k); [done | done |].
  by rewrite !(N.mul_comm k).
Qed.

Lemma div_mod_eq k x x' :
  (0 < k)%N → (x `div` k = x' `div` k)%N → (x `mod` k = x' `mod` k)%N → x = x'.
Proof.
  intros Hk Hd Hm.
  rewrite (N.div_mod x k), (N.div_mod x' k) by lia. by rewrite Hd, Hm.
Qed.

(** X11.  [base64UrlEncode] loses nothing: two buffers with the same
    encoding are equal. *)
Theorem base64UrlEncode_inj a b :
  base64UrlEncode a = base64UrlEncode b → a = b.
Proof.
  revert b.
  induction a as [| x | x y | x y z rest IH] using list_ind3;
    intros b; destruct b as [| x' [| y' [| z' rest']]];
    rewrite ?base64UrlEncode_one, ?base64UrlEncode_two, ?base64UrlEncode_three,
      ?base64UrlEncode_nil; try done.
  - (* one byte each *)
    destruct (digit_bounds _ _ (byte_bound x) (byte_bound x)) as (B1 & _ & _ & _ & B2 & _).
    destruct (digit_bounds _ _ (byte_bound x') (byte_bound x'))
      as (B1' & _ & _ & _ & B2' & _).
    intros [= E1 E2].
    apply url_digit_inj in E1; [| done | done].
    apply url_digit_inj in E2; [| done | done].
    f_equal. apply to_N_inj, (div_mod_eq 4); [lia | done | lia].
  - (* two bytes each *)
    destruct (digit_bounds _ _ (byte_bound x) (byte_bound y)) as (B1 & B2 & _).
    destruct (digit_bounds _ _ (byte_bound y) (byte_bound y)) as (_ & _ & _ & _ & _ & B3).
    destruct (digit_bounds _ _ (byte_bound x') (byte_bound y')) as (B1' & B2' & _).
    destruct (digit_bounds _ _ (byte_bound y') (byte_bound y'))
      as (_ & _ & _ & _ & _ & B3').
    intros [= E1 E2 E3].
    apply url_digit_inj in E1; [| done | done].
    apply url_digit_inj in E2; [| done | done].
    apply url_digit_inj in E3; [| done | done].
    apply split_hi_lo in E2 as [E2 E2'];
      [| lia | apply N.Div0.div_lt_upper_bound; pose proof (byte_bound y); lia
       | apply N.Div0.div_lt_upper_bound; pose proof (byte_bound y'); lia].
    f_equal; [| f_equal].
    + apply to_N_inj, (div_mod_eq 4); [lia | done | done].
    + apply to_N_inj, (div_mod_eq 16); [lia | done | lia].
  - (* a full group of three *)
    destruct (digit_bounds _ _ (byte_bound x) (byte_bound y)) as (B1 & B2 & _).
    destruct (digit_bounds _ _ (byte_bound y) (byte_bound z)) as (_ & _ & B3 & _).
    destruct (digit_bounds _ _ (byte_bound z) (byte_bound z)) as (_ & _ & _ & B4 & _).
    destruct (digit_bounds _ _ (byte_bound x') (byte_bound y')) as (B1' & B2' & _).
    destruct (digit_bounds _ _ (byte_bound y') (byte_bound z')) as (_ & _ & B3' & _).
    destruct (digit_bounds _ _ (byte_bound z') (byte_bound z'))
      as (_ & _ & _ & B4' & _).
    intros [= E1 E2 E3 E4 E5].
    apply url_digit_inj in E1; [| done | done].
    apply url_digit_inj in E2; [| done | done].
    apply url_digit_inj in E3; [| done | done].
    apply url_digit_inj in E4; [| done | done].
    apply split_hi_lo in E2 as [E2 E2'];
      [| lia | apply N.Div0.div_lt_upper_bound; pose proof (byte_bound y); lia
       | apply N.Div0.div_lt_upper_bound; pose proof (byte_bound y'); lia].
    apply split_hi_lo in E3 as [E3 E3'];
      [| lia | apply N.Div0.div_lt_upper_bound; pose proof (byte_bound z); lia
       | apply N.Div0.div_lt_upper_bound; pose proof (byte_bound z'); lia].
    f_equal; [| f_equal; [| f_equal]].
    + apply to_N_inj, (div_mod_eq 4); [lia | done | done].
    + apply to_N_inj, (div_mod_eq 16); [lia | done | done].
    + apply to_N_inj, (div_mod_eq 64); [lia | done | done].
    + by apply IH.
Qed.

Lemma base64UrlEncode_inj_witness :
  base64UrlEncode [x00; xff]%byte = base64UrlEncode [x00; xff]%byte
  ∧ [x00; xff]%byte = [x00; xff]%byte.
Proof.
  split; [reflexivity |].
  exact (base64UrlEncode_inj [x00; xff]%byte [x00; xff]%byte eq_refl).
Defined.

(** ** [derivePublicKeyRaw] *)

Lemma bytes_eqb_eq a : ∀ b, bytes_eqb a b = true ↔ a = b.
Proof.
  induction a as [| x a IH]; intros [| y b]; simpl; try done.
  rewrite andb_true_iff, IH. split.
  - intros [E ->]. f_equal. by apply Byte.byte_dec_bl.
  - intros [= -> ->]. split; [by apply Byte.byte_dec_lb | done].
Qed.

(** X12.  [derivePublicKeyRaw] strips the envelope only from an export of
    exactly 44 bytes that starts with the Ed25519 algorithm identifier, and
    then returns the last 32 bytes; any other export (another key type,
    another length) is returned unchanged, so that the device id of such a
    key is the digest of the whole export. *)
Theorem derivePublicKeyRaw_cases export_spki_der publicKeyPem privateKeyPem :
  let spki := export_spki_der publicKeyPem in
  let raw := derivePublicKeyRaw export_spki_der publicKeyPem in
  (length spki = 44%nat ∧ take 12 spki = ED25519_SPKI_PREFIX →
     spki = ED25519_SPKI_PREFIX ++ raw ∧ length raw = 32%nat)
  ∧ (length spki ≠ 44%nat ∨ take 12 spki ≠ ED25519_SPKI_PREFIX →
     raw = spki
     ∧ deviceId (generateDeviceIdentity export_spki_der publicKeyPem privateKeyPem)
       = hex (SHA256.sha256 spki)).
Proof.
  intros spki raw. subst raw. unfold generateDeviceIdentity, derivePublicKeyRaw.
  fold spki. cbn [deviceId].
  change (length ED25519_SPKI_PREFIX) with 12%nat.
  split.
  - intros [HL HP].
    assert (E : (length spki =? 12 + 32)%nat
                && bytes_eqb (take 12 spki) ED25519_SPKI_PREFIX = true).
    { rewrite HL, HP, bytes_eqb_refl. reflexivity. }
    rewrite E. split.
    + rewrite <- HP. symmetry. apply take_drop.
    + rewrite length_drop, HL. done.
  - intros H.
    destruct ((length spki =? 12 + 32)%nat && bytes_eqb (take 12 spki) ED25519_SPKI_PREFIX)
      eqn:E; [| done].
    apply andb_true_iff in E as [E1 E2].
    apply Nat.eqb_eq in E1. apply bytes_eqb_eq in E2.
    destruct H as [H | H]; by destruct H.
Qed.

Lemma derivePublicKeyRaw_cases_witness :
  (length (toy_export "PUBLIC") = 44%nat
   ∧ take 12 (toy_export "PUBLIC") = ED25519_SPKI_PREFIX)
  ∧ length (derivePublicKeyRaw toy_export "PUBLIC") = 32%nat.
Proof.
  assert (H : length (toy_export "PUBLIC") = 44%nat
              ∧ take 12 (toy_export "PUBLIC") = ED25519_SPKI_PREFIX)
    by (split; reflexivity).
  split; [exact H |].
  destruct (derivePublicKeyRaw_cases toy_export "PUBLIC" "PRIVATE") as [Hc _].
  destruct (Hc H) as [_ HL]. exact HL.
Defined.
